(** * FindLead intelligence platform: the AI request orchestration layer

    A shallow embedding of the components the platform's three analysis
    services share, and of the services' use of them.

    Part I, the program:
    - [Json]         the values exchanged with the model and kept in the cache;
    - [Text]         the library functions the normalizer calls: [str.strip],
                     [json.loads], [re.findall];
    - [Normalizer]   [_extract_json]             (services/llm_router.py);
    - [Router]       [LLMRouter]                 (services/llm_router.py);
    - [RateLimiter]  [GroqRateLimiter], one caller at a time
                                                 (utils/rate_limiter.py);
    - [Interleaving] [GroqRateLimiter], callers that overlap;
    - [Cache]        [APIOptimizer]              (utils/api_optimizer.py);
    - [Fallback]     [APIOptimizer.should_use_fallback]
                                                 (utils/api_optimizer.py);
    - [CacheStore]   [APIOptimizer.cache_result] with its handler, on a file
                     system that can refuse a write;
    - [Keywords], [UrgencyDetectionTool], [BasicSentimentTool]
                     the local analysis          (tools/sentiment_tools.py);
    - [Analysis]     [SentimentAnalysisService]  (services/analysis_service.py);
    - [Groq]         [GroqProvider] and the discovery of providers
                                                 (services/llm_router.py);
    - [WebsiteScores] the scores of [WebsiteMonitoringService.analyze]
                                                 (services/analysis_service.py);
    - [CrewManager]  [CrewManager]               (utils/crew_manager.py);
    - [Examples]     concrete inputs.

    The modules [NormalizerMore], [RouterMore], [RateLimiterMore] and
    [AnalysisMore] hold notions further properties are stated with.

    Part II, its properties, component by component.

    Conventions.  Python [str] is [string], a text of characters below
    code point 256; time points ([datetime.now()],
    [time.time()]) and durations are integers counting microseconds, the
    resolution of [datetime]; a Python exception is a constructor of the
    result type of the function that can raise it. *)

From Stdlib Require Import ZArith String Ascii List Lia Permutation Sorted.
From stdpp Require Import base option list strings pretty gmap.

#[local] Set Warnings "-register-all".

Local Open Scope string_scope.
Local Open Scope list_scope.
Local Open Scope Z_scope.

(** * JSON values *)

Module Json.

(** What [json.loads] produces and [json.dump] accepts.  A Python [dict] keeps
    its keys in insertion order and holds each key once: [JObj] carries an
    association list whose keys are kept distinct by [dict_set].  A float is
    kept as the text the number was written with. *)
Inductive json : Type :=
| JNull
| JBool (b : bool)
| JInt (n : Z)
| JFloat (lexeme : string)
| JStr (s : string)
| JArr (items : list json)
| JObj (fields : list (string * json)).

(** [isinstance(v, dict)] *)
Definition is_mapping (v : json) : bool :=
  match v with JObj _ => true | _ => false end.

(** [d[k] = v] on an insertion-ordered dict. *)
Fixpoint dict_set (k : string) (v : json) (d : list (string * json))
  : list (string * json) :=
  match d with
  | [] => [(k, v)]
  | (k', v') :: d' =>
      if String.eqb k k' then (k, v) :: d' else (k', v') :: dict_set k v d'
  end.

(** [k in d] and [d[k]] *)
Fixpoint dict_lookup (k : string) (d : list (string * json)) : option json :=
  match d with
  | [] => None
  | (k', v') :: d' => if String.eqb k k' then Some v' else dict_lookup k d'
  end.

(** Python truthiness of a JSON value, as [if cached:] tests it. *)
Definition truthy (v : json) : bool :=
  match v with
  | JNull => false
  | JBool b => b
  | JInt n => negb (n =? 0)
  | JFloat _ => true
  | JStr s => negb (String.eqb s "")
  | JArr l => match l with [] => false | _ => true end
  | JObj d => match d with [] => false | _ => true end
  end.

End Json.
Export Json.

(** * Library functions on text

    The three library functions [_extract_json] calls: [str.strip],
    [json.loads] and [re.findall].  A character of a Python [str] is an
    [ascii]: text with code points above 255 is outside this model. *)

Module Text.

Definition chars (s : string) : list ascii := list_ascii_of_string s.
Definition text (l : list ascii) : string := string_of_list_ascii l.

(** The double quote. *)
Definition dq : ascii := ascii_of_nat 34.

Definition is_char (c d : ascii) : bool := Ascii.eqb c d.

Definition between (lo hi : N) (c : ascii) : bool :=
  ((lo <=? N_of_ascii c) && (N_of_ascii c <=? hi))%N.

(** [c.isspace()], also what [\s] matches. *)
Definition is_space (c : ascii) : bool :=
  between 9 13 c || between 28 32 c || between 133 133 c || between 160 160 c.

(** The white space of JSON: space, tab, line feed, carriage return. *)
Definition json_ws (c : ascii) : bool :=
  between 32 32 c || between 9 10 c || between 13 13 c.

Definition is_digit (c : ascii) : bool := between 48 57 c.

Fixpoint drop_while (p : ascii -> bool) (l : list ascii) : list ascii :=
  match l with
  | c :: l' => if p c then drop_while p l' else l
  | [] => []
  end.

Fixpoint take_while (p : ascii -> bool) (l : list ascii) : list ascii :=
  match l with
  | c :: l' => if p c then c :: take_while p l' else []
  | [] => []
  end.

(** [s.strip()] *)
Definition strip_chars (l : list ascii) : list ascii :=
  rev (drop_while is_space (rev (drop_while is_space l))).

Definition strip (s : string) : string := text (strip_chars (chars s)).

(** ** [json.loads] *)

Definition skip_ws (l : list ascii) : list ascii := drop_while json_ws l.

(** [l] starts with the characters of [p]: what is left after them. *)
Fixpoint after_prefix (p l : list ascii) : option (list ascii) :=
  match p, l with
  | [], _ => Some l
  | c :: p', d :: l' => if is_char c d then after_prefix p' l' else None
  | _ :: _, [] => None
  end.

Definition digit_value (c : ascii) : Z := Z.of_N (N_of_ascii c) - 48.

Definition digits_value (l : list ascii) : Z :=
  fold_left (fun acc c => 10 * acc + digit_value c) l 0.

Definition hex_value (c : ascii) : option N :=
  if between 48 57 c then Some (N_of_ascii c - 48)%N
  else if between 97 102 c then Some (N_of_ascii c - 87)%N
  else if between 65 70 c then Some (N_of_ascii c - 55)%N
  else None.

Definition hex4 (a b c d : ascii) : option N :=
  match hex_value a, hex_value b, hex_value c, hex_value d with
  | Some x, Some y, Some z, Some w => Some (((x * 16 + y) * 16 + z) * 16 + w)%N
  | _, _, _, _ => None
  end.

(** The character a one-letter escape stands for. *)
Definition escape (c : ascii) : option ascii :=
  if is_char c dq then Some dq
  else if is_char c "\" then Some "\"%char
  else if is_char c "/" then Some "/"%char
  else if is_char c "b" then Some (ascii_of_nat 8)
  else if is_char c "f" then Some (ascii_of_nat 12)
  else if is_char c "n" then Some (ascii_of_nat 10)
  else if is_char c "r" then Some (ascii_of_nat 13)
  else if is_char c "t" then Some (ascii_of_nat 9)
  else None.

(** The text of a JSON string from after its opening quote, and what follows
    its closing quote.  Control characters are refused, as [strict=True] has
    it.  A [\uXXXX] escape of a code point above 255 is kept as it is
    written. *)
Fixpoint scan_string (l : list ascii) : option (list ascii * list ascii) :=
  match l with
  | [] => None
  | c :: l1 =>
      if is_char c dq then Some ([], l1)
      else if is_char c "\" then
        match l1 with
        | [] => None
        | e :: l2 =>
            if is_char e "u" then
              match l2 with
              | h1 :: h2 :: h3 :: h4 :: l3 =>
                  match hex4 h1 h2 h3 h4 with
                  | Some n =>
                      let decoded :=
                        if (n <? 256)%N then [ascii_of_N n]
                        else [c; e; h1; h2; h3; h4] in
                      match scan_string l3 with
                      | Some (s, rest) => Some (decoded ++ s, rest)
                      | None => None
                      end
                  | None => None
                  end
              | _ => None
              end
            else
              match escape e with
              | Some d =>
                  match scan_string l2 with
                  | Some (s, rest) => Some (d :: s, rest)
                  | None => None
                  end
              | None => None
              end
        end
      else if between 0 31 c then None
      else
        match scan_string l1 with
        | Some (s, rest) => Some (c :: s, rest)
        | None => None
        end
  end.

(** The integer part of a number: an optional minus sign, then a zero or
    a digit from 1 to 9 and any digits. *)
Definition scan_integer (l : list ascii) : option (list ascii * list ascii) :=
  let '(sign, l1) :=
    match l with
    | c :: l' => if is_char c "-" then ([c], l') else ([], l)
    | [] => ([], l)
    end in
  match l1 with
  | c :: l2 =>
      if is_char c "0" then Some (sign ++ [c], l2)
      else if is_digit c
           then Some (sign ++ c :: take_while is_digit l2,
                      drop_while is_digit l2)
           else None
  | [] => None
  end.

(** The fraction, a point and digits, and the exponent, [e] or [E], an
    optional sign and digits; each is there or not. *)
Definition scan_fraction (l : list ascii) : list ascii * list ascii :=
  match l with
  | c :: d :: l' =>
      if is_char c "." && is_digit d
      then (c :: d :: take_while is_digit l', drop_while is_digit l')
      else ([], l)
  | _ => ([], l)
  end.

Definition scan_exponent (l : list ascii) : list ascii * list ascii :=
  match l with
  | c :: l1 =>
      if is_char c "e" || is_char c "E" then
        let '(sign, l2) :=
          match l1 with
          | s :: l' =>
              if is_char s "-" || is_char s "+" then ([s], l') else ([], l1)
          | [] => ([], l1)
          end in
        match l2 with
        | d :: _ =>
            if is_digit d
            then (c :: sign ++ take_while is_digit l2, drop_while is_digit l2)
            else ([], l)
        | [] => ([], l)
        end
      else ([], l)
  | [] => ([], l)
  end.

(** The value of an integer lexeme. *)
Definition integer_value (l : list ascii) : Z :=
  match l with
  | c :: l' => if is_char c "-" then - digits_value l' else digits_value l
  | [] => 0
  end.

Definition scan_number (l : list ascii) : option (json * list ascii) :=
  match scan_integer l with
  | Some (int, l1) =>
      let '(frac, l2) := scan_fraction l1 in
      let '(exp, l3) := scan_exponent l2 in
      match frac, exp with
      | [], [] => Some (JInt (integer_value int), l3)
      | _, _ => Some (JFloat (text (int ++ frac ++ exp)), l3)
      end
  | None => None
  end.

(** The words the scanner knows, tried in its order around the numbers. *)
Definition scan_word (word : string) (v : json) (l : list ascii)
  : option (json * list ascii) :=
  match after_prefix (chars word) l with
  | Some rest => Some (v, rest)
  | None => None
  end.

Definition first_of {A} (a b : option A) : option A :=
  match a with Some _ => a | None => b end.

Definition scan_atom (l : list ascii) : option (json * list ascii) :=
  first_of (scan_word "null" JNull l)
  (first_of (scan_word "true" (JBool true) l)
  (first_of (scan_word "false" (JBool false) l)
  (first_of (scan_number l)
  (first_of (scan_word "NaN" (JFloat "NaN") l)
  (first_of (scan_word "Infinity" (JFloat "Infinity") l)
            (scan_word "-Infinity" (JFloat "-Infinity") l)))))).

(** What the parser is reading: a value, the items of an array after its
    bracket, or the members of an object after its brace. *)
Inductive mode : Type :=
| Value
| Items (seen : list json)
| Members (seen : list (string * json)).

(** The scanner of [json.loads].  Every call that does not shorten the text
    leads to one that does, so a [depth] of twice the length of the text is
    never used up. *)
Fixpoint parse (depth : nat) (m : mode) (l : list ascii)
  : option (json * list ascii) :=
  match depth with
  | O => None
  | S depth' =>
      match m with
      | Value =>
          match l with
          | [] => None
          | c :: l1 =>
              if is_char c dq then
                match scan_string l1 with
                | Some (s, rest) => Some (JStr (text s), rest)
                | None => None
                end
              else if is_char c "{" then
                match skip_ws l1 with
                | d :: l2 =>
                    if is_char d "}" then Some (JObj [], l2)
                    else parse depth' (Members []) (d :: l2)
                | [] => None
                end
              else if is_char c "[" then
                match skip_ws l1 with
                | d :: l2 =>
                    if is_char d "]" then Some (JArr [], l2)
                    else parse depth' (Items []) (d :: l2)
                | [] => None
                end
              else scan_atom l
          end
      | Items seen =>
          match parse depth' Value l with
          | Some (v, l1) =>
              match skip_ws l1 with
              | d :: l2 =>
                  if is_char d "," then
                    parse depth' (Items (seen ++ [v])) (skip_ws l2)
                  else if is_char d "]" then Some (JArr (seen ++ [v]), l2)
                  else None
              | [] => None
              end
          | None => None
          end
      | Members seen =>
          match l with
          | q :: l1 =>
              if is_char q dq then
                match scan_string l1 with
                | Some (k, l2) =>
                    match skip_ws l2 with
                    | colon :: l3 =>
                        if is_char colon ":" then
                          match parse depth' Value (skip_ws l3) with
                          | Some (v, l4) =>
                              match skip_ws l4 with
                              | d :: l5 =>
                                  if is_char d "," then
                                    parse depth'
                                      (Members (dict_set (text k) v seen))
                                      (skip_ws l5)
                                  else if is_char d "}" then
                                    Some (JObj (dict_set (text k) v seen), l5)
                                  else None
                              | [] => None
                              end
                          | None => None
                          end
                        else None
                    | [] => None
                    end
                | None => None
                end
              else None
          | [] => None
          end
      end
  end.

(** [json.loads(s)]; [None] is its [JSONDecodeError].  On a text nested
    deeper than the interpreter's recursion limit [json.loads] raises
    [RecursionError], and on a whole number of more than 4300 digits
    [ValueError]; the definition is of texts on which it does neither. *)
Definition json_loads (s : string) : option json :=
  let l := chars s in
  match parse (2 * length l + 2) Value (skip_ws l) with
  | Some (v, rest) =>
      match skip_ws rest with
      | [] => Some v
      | _ :: _ => None
      end
  | None => None
  end.

(** ** [re.findall]

    The constructs the three patterns of [_extract_json] are written with,
    matched as [re] matches them: alternatives in order, by backtracking. *)
Inductive regex : Type :=
| Eps                       (* the empty pattern *)
| Chr (c : ascii)
| Dot                       (* [.] under [re.DOTALL] *)
| Space                     (* [\s] *)
| NotBrace                  (* [[^{}]] *)
| Cat (r1 r2 : regex)
| Star (r : regex)          (* [r*], as many as can be *)
| LazyStar (r : regex)      (* [r*?], as few as can be *)
| Group (r : regex).        (* [(r)], the one group of the pattern *)

Definition not_brace (c : ascii) : bool :=
  negb (is_char c "{" || is_char c "}").

Definition shorter (l1 l : list ascii) : bool :=
  (length l1 <? length l)%nat.

(** [rmatch r l cap k]: match [r] at the start of [l], then go on with [k]
    on what is left and on the text of the group; when [k] fails, try the
    next way to match [r]. *)
Fixpoint rmatch {A} (r : regex) (l : list ascii) (cap : list ascii)
    (k : list ascii -> list ascii -> option A) : option A :=
  match r with
  | Eps => k l cap
  | Chr c =>
      match l with
      | d :: l' => if is_char c d then k l' cap else None
      | [] => None
      end
  | Dot => match l with _ :: l' => k l' cap | [] => None end
  | Space =>
      match l with d :: l' => if is_space d then k l' cap else None | [] => None end
  | NotBrace =>
      match l with d :: l' => if not_brace d then k l' cap else None | [] => None end
  | Cat r1 r2 => rmatch r1 l cap (fun l1 cap1 => rmatch r2 l1 cap1 k)
  | Star r1 =>
      (fix more (n : nat) (l : list ascii) (cap : list ascii) : option A :=
         match n with
         | O => k l cap
         | S n' =>
             first_of
               (rmatch r1 l cap
                  (fun l1 cap1 => if shorter l1 l then more n' l1 cap1 else None))
               (k l cap)
         end) (length l) l cap
  | LazyStar r1 =>
      (fix more (n : nat) (l : list ascii) (cap : list ascii) : option A :=
         first_of (k l cap)
           match n with
           | O => None
           | S n' =>
               rmatch r1 l cap
                 (fun l1 cap1 => if shorter l1 l then more n' l1 cap1 else None)
           end) (length l) l cap
  | Group r1 =>
      rmatch r1 l cap
        (fun l1 _ => k l1 (firstn (length l - length l1) l))
  end.

(** The patterns of [l] one after the other, and the pattern that is the
    characters of [s]. *)
Definition seq (l : list regex) : regex := foldr Cat Eps l.

Definition lit (s : string) : regex := seq (Chr <$> chars s).

(** [re.findall(r, l)] for a pattern with one group, which no match leaves
    out: the text of the group at each match, from left to right, a match
    starting where the one before ended. *)
Fixpoint findall_from (n : nat) (r : regex) (l : list ascii)
  : list (list ascii) :=
  match n with
  | O => []
  | S n' =>
      match rmatch r l [] (fun rest cap => Some (rest, cap)) with
      | Some (rest, cap) =>
          cap :: match l with
                 | [] => []
                 | _ :: l' => findall_from n' r (if shorter rest l then rest else l')
                 end
      | None =>
          match l with
          | [] => []
          | _ :: l' => findall_from n' r l'
          end
      end
  end.

Definition findall (r : regex) (s : string) : list string :=
  text <$> findall_from (S (String.length s)) r (chars s).

(** The pattern has no group. *)
Fixpoint groupless (r : regex) : bool :=
  match r with
  | Group _ => false
  | Cat r1 r2 => groupless r1 && groupless r2
  | Star r1 | LazyStar r1 => groupless r1
  | _ => true
  end.

Definition opens (l : list ascii) : Prop := exists rest, l = "{"%char :: rest.

(** Every match of [r] sets the group to a text that opens with a brace. *)
Definition captures_object (r : regex) : Prop :=
  forall A l cap (k : list ascii -> list ascii -> option A) x,
    rmatch r l cap k = Some x ->
    exists l1 cap1, k l1 cap1 = Some x /\ opens cap1.

End Text.

(** * The response normalizer ([_extract_json]) *)

Module Normalizer.

Import Text.

(** [(\{.*?\})]: from a brace to the first brace that lets the rest of the
    pattern match. *)
Definition braces_lazy : regex :=
  Group (seq [Chr "{"; LazyStar Dot; Chr "}"]).

(** [[^{}]*] *)
Definition no_braces : regex := Star NotBrace.

(** The list [fenced_patterns]. *)
Definition fenced_patterns : list regex := [
  seq [lit "```json"; Star Space; braces_lazy; Star Space; lit "```"];
  seq [lit "```"; Star Space; braces_lazy; Star Space; lit "```"];
  Group (seq [Chr "{"; no_braces;
              Star (seq [Chr "{"; no_braces; Chr "}"; no_braces]);
              Chr "}"])
].

(** The inner loop, [for match in matches]: the first match that parses. *)
Fixpoint first_parsed (matches : list string) : option json :=
  match matches with
  | [] => None
  | m :: rest =>
      match json_loads (strip m) with
      | Some v => Some v
      | None => first_parsed rest
      end
  end.

(** The outer loop, [for pattern in fenced_patterns]. *)
Fixpoint first_recovered (patterns : list regex) (content : string)
  : option json :=
  match patterns with
  | [] => None
  | pattern :: rest =>
      match first_parsed (findall pattern content) with
      | Some v => Some v
      | None => first_recovered rest content
      end
  end.

(** [_extract_json].  What it returns is whatever [json.loads] returned on
    the path that returns first. *)
Definition _extract_json (content : string) : json :=
  if String.eqb content "" then
    JObj [("error", JStr "Empty response from model")]
  else
    let content := strip content in
    match json_loads content with
    | Some v => v
    | None =>
        match first_recovered fenced_patterns content with
        | Some v => v
        | None =>
            JObj [("response", JStr content);
                  ("error", JStr "Could not parse as JSON")]
        end
    end.

End Normalizer.

(** * More of the response normalizer *)

Module NormalizerMore.

Import Text.

(** The text has an opening brace. *)
Definition has_brace (l : list ascii) : bool := existsb (is_char "{") l.

(** The text has an opening bracket. *)
Definition has_bracket (l : list ascii) : bool := existsb (is_char "[") l.

(** The pattern matches only where a brace is ahead. *)
Definition needs_brace (r : regex) : Prop :=
  forall A l cap (k : list ascii -> list ascii -> option A) x,
    rmatch r l cap k = Some x -> has_brace l = true.

End NormalizerMore.

(** * The provider router ([LLMRouter]) *)

Module Router.

Section Providers.

(** [W] is the world a provider acts on (the network, the shared rate
    limiter); [Opts] stands for the keyword options [complete] forwards
    unchanged ([system], [response_format], [temperature], [max_tokens],
    [timeout]). *)
Context {W Opts : Type}.

(** What one [provider.complete(...)] call does, as the three [except]
    clauses of [LLMRouter.complete] classify it.  [RaisesException] is any
    other subclass of [Exception]. *)
Inductive outcome : Type :=
| Returns (result : json)
| RaisesRateLimit (exc : string)
| RaisesProviderError (exc : string)
| RaisesException (exc : string).

Record ProviderConfig : Type := { name : string; priority : Z }.

Record BaseProvider : Type := {
  config : ProviderConfig;
  provider_complete : string -> Opts -> W -> outcome * W
}.

Record LLMRouter : Type := { providers : list BaseProvider }.

(** [sorted(provider_list, key=lambda p: p.config.priority)].  Python's sort
    is stable; a stable sort has one possible result, computed here by
    insertion from the right. *)
Fixpoint insert_by_priority (p : BaseProvider) (l : list BaseProvider)
  : list BaseProvider :=
  match l with
  | [] => [p]
  | q :: l' =>
      if priority (config p) <=? priority (config q)
      then p :: q :: l'
      else q :: insert_by_priority p l'
  end.

Definition sorted (l : list BaseProvider) : list BaseProvider :=
  foldr insert_by_priority [] l.

Inductive init_result : Type :=
| Constructed (r : LLMRouter)
| InitRuntimeError (msg : string).

(** [LLMRouter.__init__]; [discovered] is what [_discover_providers()]
    finds in the environment. *)
Definition LLMRouter_init (providers_arg : option (list BaseProvider))
    (discovered : list BaseProvider) : init_result :=
  let provider_list :=
    match providers_arg with Some l => l | None => discovered end in
  match provider_list with
  | [] => InitRuntimeError
      "No LLM provider configured. Set GROQ_API_KEY in your environment variables."
  | _ => Constructed {| providers := sorted provider_list |}
  end.

(** How [LLMRouter.complete] ends.  [RaiseValueError] is [time.sleep]
    refusing a negative [retry_delay], raised inside the handler and so not
    caught by it. *)
Inductive completion : Type :=
| Return (result : json)
| RaiseRuntimeError (msg : string)
| RaiseValueError.

(** The local variable [last_error], the world, and a record of what the
    call did: the providers it called with what each call did, and the
    sleeps it made. *)
Record run : Type := {
  result : completion;
  last_error : option string;
  world : W;
  attempts : list (BaseProvider * outcome);
  sleeps : list Z
}.

(** [last_error or "All LLM providers failed"] *)
Definition or_default (o : option string) (d : string) : string :=
  match o with
  | Some s => if String.eqb s "" then d else s
  | None => d
  end.

(** [f"{provider.config.name}: {exc}"] *)
Definition describe (p : BaseProvider) (exc : string) : string :=
  name (config p) +:+ ": " +:+ exc.

(** The [for provider in self.providers] loop of [LLMRouter.complete] and
    the [raise] after it. *)
Fixpoint complete_loop (ps : list BaseProvider) (prompt : string)
    (opts : Opts) (retry_delay : Z) (last : option string) (w : W)
    (tried : list (BaseProvider * outcome)) (slept : list Z) : run :=
  match ps with
  | [] =>
      {| result := RaiseRuntimeError (or_default last "All LLM providers failed");
         last_error := last; world := w; attempts := tried; sleeps := slept |}
  | p :: rest =>
      let '(o, w1) := provider_complete p prompt opts w in
      let tried1 := tried ++ [(p, o)] in
      match o with
      | Returns r =>
          {| result := Return r; last_error := last; world := w1;
             attempts := tried1; sleeps := slept |}
      | RaisesRateLimit exc =>
          let last1 := Some (describe p exc) in
          if retry_delay <? 0
          then {| result := RaiseValueError; last_error := last1;
                  world := w1; attempts := tried1; sleeps := slept |}
          else complete_loop rest prompt opts retry_delay last1 w1 tried1
                 (slept ++ [retry_delay])
      | RaisesProviderError exc | RaisesException exc =>
          complete_loop rest prompt opts retry_delay
            (Some (describe p exc)) w1 tried1 slept
      end
  end.

Definition complete (r : LLMRouter) (prompt : string) (opts : Opts)
    (retry_delay : Z) (w : W) : run :=
  complete_loop (providers r) prompt opts retry_delay None w [] [].

(** ** Notions the properties are stated with *)

Definition raised (o : outcome) : Prop :=
  match o with Returns _ => False | _ => True end.

Definition exc_text (o : outcome) : string :=
  match o with
  | Returns _ => ""
  | RaisesRateLimit e | RaisesProviderError e | RaisesException e => e
  end.

Definition priority_le (p q : BaseProvider) : Prop :=
  priority (config p) <= priority (config q).

Definition has_priority (k : Z) (p : BaseProvider) : Prop :=
  priority (config p) = k.

#[export] Instance has_priority_dec k p : Decision (has_priority k p).
Proof. unfold has_priority. apply _. Defined.

(** [calls w l w']: calling the providers of [l] one after the other from
    the world [w] does what [l] pairs them with, and leaves [w']. *)
Inductive calls (prompt : string) (opts : Opts)
  : W -> list (BaseProvider * outcome) -> W -> Prop :=
| calls_nil w : calls prompt opts w [] w
| calls_cons w p o w1 l w2 :
    provider_complete p prompt opts w = (o, w1) ->
    calls prompt opts w1 l w2 ->
    calls prompt opts w ((p, o) :: l) w2.

Definition attempt_raised (a : BaseProvider * outcome) : Prop := raised a.2.

(** The value of [last_error] after the handlers ran for the attempts of
    [l], starting from [init]. *)
Definition last_failure (init : option string) (l : list (BaseProvider * outcome))
  : option string :=
  fold_left
    (fun acc a =>
       match a.2 with
       | Returns _ => acc
       | _ => Some (describe a.1 (exc_text a.2))
       end) l init.

Definition rate_limited (a : BaseProvider * outcome) : bool :=
  match a.2 with RaisesRateLimit _ => true | _ => false end.

(** The list [LLMRouter.__init__] sorts. *)
Definition provider_list (providers_arg : option (list BaseProvider))
    (discovered : list BaseProvider) : list BaseProvider :=
  match providers_arg with Some l => l | None => discovered end.

End Providers.

Arguments outcome : clear implicits.
Arguments BaseProvider : clear implicits.
Arguments LLMRouter : clear implicits.
Arguments init_result : clear implicits.
Arguments run : clear implicits.

End Router.

(** * The provider router: further notions *)

Module RouterMore.

Import Router.

Section Attempts.

Context {W Opts : Type}.


End Attempts.

End RouterMore.

(** * The rate limiter ([GroqRateLimiter]) *)

Module RateLimiter.

Definition second : Z := 1000000.
Definition minute : Z := 60 * second.
Definition day : Z := 86400 * second.

(** [t.date()], as a count of days. *)
Definition date (t : Z) : Z := t / day.

(** The fields of the object other than its lock; the lock matters only
    when calls overlap, which [Interleaving] below models. *)
Record GroqRateLimiter : Type := {
  calls_per_minute : Z;
  calls_per_day : Z;
  call_times : list Z;
  daily_calls : Z;
  last_reset : Z
}.

(** [GroqRateLimiter.__init__], run at the time [now]. *)
Definition init (per_minute per_day now : Z) : GroqRateLimiter :=
  {| calls_per_minute := per_minute; calls_per_day := per_day;
     call_times := []; daily_calls := 0; last_reset := now |}.

(** The second component of what [can_make_call] returns.  The source builds
    a text: ["OK"], ["Daily limit reached (N calls)"] or
    ["Rate limit reached. Wait X.X seconds"]; [wait_if_needed] reads back from
    it whether it holds the word [Wait], and the number [X.X], which
    [MsgWait] keeps as a count of tenths of a second. *)
Inductive message : Type :=
| MsgOK
| MsgDailyLimit (limit : Z)
| MsgWait (tenths : Z).

(** ["Wait" in message] *)
Definition has_Wait (m : message) : bool :=
  match m with MsgWait _ => true | _ => false end.

(** [float(message.split()[-2])], in microseconds. *)
Definition wait_of (m : message) : Z :=
  match m with MsgWait tenths => tenths * 100000 | _ => 0 end.

(** [n / d] to the nearest whole number, a tie to the even one; [0 <= n],
    [0 < d]. *)
Definition round_half_even (n d : Z) : Z :=
  let q := n / d in
  let r := n mod d in
  if 2 * r <? d then q
  else if d <? 2 * r then q + 1
  else if Z.even q then q else q + 1.

(** [us / 10**6] as a quotient of whole numbers [n / (d * 2**e)], that is
    [n / d] in units of [2**e]. *)
Definition scaled (us e : Z) : Z * Z :=
  if 0 <=? e then (us, 1000000 * 2 ^ e) else (us * 2 ^ (- e), 1000000).

(** The exponent [e] for which [us / 10**6] is from [2**52] up to [2**53]
    units of [2**e]; [2**19 <= 10**6 < 2**20]. *)
Definition exponent (us : Z) : Z :=
  let e0 := Z.log2 us - 19 - 52 in
  if (scaled us e0).1 <? 2 ^ 52 * (scaled us e0).2 then e0 - 1 else e0.

(** [timedelta.total_seconds()] for a duration of [us] microseconds,
    [0 < us]: the float nearest to [us / 10**6], a tie to the even mantissa,
    as the mantissa [m] of 53 bits and the exponent [e] of its value
    [m * 2**e]. *)
Definition total_seconds (us : Z) : Z * Z :=
  let e := exponent us in
  (round_half_even (scaled us e).1 (scaled us e).2, e).

(** [f"{wait_time:.1f}"] for [wait_time] the float [total_seconds()]
    returned: the tenth of a second nearest to the float, a tie to the even
    tenth, as a count of tenths.  A duration that ends in 5 hundredths is
    named by the tenth its float lies nearer to, and by the even one when
    the float is the duration itself: 0.25 s gives 0.2, 0.35 s gives 0.3 and
    0.45 s gives 0.5. *)
Definition round_tenths (wait_time : Z) : Z :=
  if wait_time =? 0 then 0
  else
    let '(m, e) := total_seconds (Z.abs wait_time) in
    Z.sgn wait_time
    * (if 0 <=? e then 10 * m * 2 ^ e else round_half_even (10 * m) (2 ^ (- e))).

(** [min(l)], which raises [ValueError] on an empty list. *)
Fixpoint list_min (l : list Z) : option Z :=
  match l with
  | [] => None
  | t :: l' => match list_min l' with
               | None => Some t
               | Some m => Some (Z.min t m)
               end
  end.

Inductive check : Type :=
| Checked (can_call : bool) (msg : message)
| CheckValueError.

Definition start_new_day (now : Z) (st : GroqRateLimiter) : GroqRateLimiter :=
  {| calls_per_minute := calls_per_minute st; calls_per_day := calls_per_day st;
     call_times := call_times st; daily_calls := 0; last_reset := now |}.

Definition set_call_times (l : list Z) (st : GroqRateLimiter) : GroqRateLimiter :=
  {| calls_per_minute := calls_per_minute st; calls_per_day := calls_per_day st;
     call_times := l; daily_calls := daily_calls st; last_reset := last_reset st |}.

(** The body of [can_make_call]; [now] is what [datetime.now()] returns. *)
Definition can_make_call (now : Z) (st : GroqRateLimiter)
  : check * GroqRateLimiter :=
  let st1 :=
    if date now >? date (last_reset st) then start_new_day now st else st in
  if daily_calls st1 >=? calls_per_day st1
  then (Checked false (MsgDailyLimit (calls_per_day st1)), st1)
  else
    let minute_ago := now - minute in
    let st2 :=
      set_call_times (filter (fun call_time => minute_ago < call_time)
                        (call_times st1)) st1 in
    if Z.of_nat (length (call_times st2)) >=? calls_per_minute st2
    then match list_min (call_times st2) with
         | None => (CheckValueError, st2)
         | Some oldest_call =>
             let wait_time := oldest_call + minute - now in
             (Checked false (MsgWait (round_tenths wait_time)), st2)
         end
    else (Checked true MsgOK, st2).

(** The body of [record_call]. *)
Definition record_call (now : Z) (st : GroqRateLimiter) : GroqRateLimiter :=
  {| calls_per_minute := calls_per_minute st; calls_per_day := calls_per_day st;
     call_times := call_times st ++ [now];
     daily_calls := daily_calls st + 1; last_reset := last_reset st |}.

(** ** One caller at a time

    The world of a caller: the limiter, the clock, and how long each coming
    read of the clock and each coming sleep is late by ([ticks], none once the
    list is used up: the clock never runs backwards).  [recorded] and [slept]
    are a record of what happened: every time stamp [record_call] stored, and
    every duration [time.sleep] was called with. *)
Record world : Type := {
  limiter : GroqRateLimiter;
  clock : Z;
  ticks : list N;
  recorded : list Z;
  slept : list Z
}.

Inductive exn : Type :=
| RateLimitExceeded (msg : message)
| ValueError.

(** What a computation comes to; [Diverge] is the recursion of
    [wait_if_needed] not ending within the depth given. *)
Inductive result (A : Type) : Type :=
| Ret (a : A)
| Raise (e : exn)
| Diverge.
Arguments Ret {A} a.
Arguments Raise {A} e.
Arguments Diverge {A}.

Definition M (A : Type) : Type := world -> result A * world.

Definition ret {A} (a : A) : M A := fun w => (Ret a, w).

Definition bind {A B} (m : M A) (f : A -> M B) : M B := fun w =>
  match m w with
  | (Ret a, w1) => f a w1
  | (Raise e, w1) => (Raise e, w1)
  | (Diverge, w1) => (Diverge, w1)
  end.

Notation "'let*' p ':=' m 'in' k" := (bind m (fun p => k))
  (at level 10, p pattern, m at level 100, k at level 200).

Definition raise {A} (e : exn) : M A := fun w => (Raise e, w).

Definition next_time (w : world) : Z := clock w + Z.of_N (hd 0%N (ticks w)).

(** [datetime.now()] *)
Definition datetime_now : M Z := fun w =>
  (Ret (next_time w),
   {| limiter := limiter w; clock := next_time w; ticks := tl (ticks w);
      recorded := recorded w; slept := slept w |}).

(** [time.sleep(d)]: returns after [d] or more. *)
Definition time_sleep (d : Z) : M unit := fun w =>
  if d <? 0 then (Raise ValueError, w)
  else (Ret tt,
        {| limiter := limiter w; clock := next_time w + d; ticks := tl (ticks w);
           recorded := recorded w; slept := slept w ++ [d] |}).

Definition with_limiter (st : GroqRateLimiter) (w : world) : world :=
  {| limiter := st; clock := clock w; ticks := ticks w;
     recorded := recorded w; slept := slept w |}.

(** [self.can_make_call()] *)
Definition can_make_call_m : M (bool * message) :=
  let* now := datetime_now in
  fun w =>
    match can_make_call now (limiter w) with
    | (Checked can_call msg, st) => (Ret (can_call, msg), with_limiter st w)
    | (CheckValueError, st) => (Raise ValueError, with_limiter st w)
    end.

(** [self.record_call()] *)
Definition record_call_m : M unit :=
  let* now := datetime_now in
  fun w =>
    (Ret tt,
     {| limiter := record_call now (limiter w); clock := clock w;
        ticks := ticks w; recorded := recorded w ++ [now];
        slept := slept w |}).

(** [wait_if_needed], its recursion bounded by [depth]. *)
Fixpoint wait_if_needed (depth : nat) : M bool :=
  match depth with
  | O => fun w => (Diverge, w)
  | S depth' =>
      let* (can_call, message) := can_make_call_m in
      if negb can_call then
        if has_Wait message then
          let wait_time := wait_of message in
          let* _ := time_sleep (wait_time + 1 * second) in
          wait_if_needed depth'
        else raise (RateLimitExceeded message)
      else
        let* _ := record_call_m in
        ret true
  end.

(** A process that creates the limiter at [t0] and then makes admission
    attempts one after the other, going on when one raises (as the callers in
    crew.py do). *)
Definition fresh (per_minute per_day t0 : Z) (late : list N) : world :=
  {| limiter := init per_minute per_day t0; clock := t0; ticks := late;
     recorded := []; slept := [] |}.

Fixpoint admissions (n : nat) (depth : nat) (w : world) : world :=
  match n with
  | O => w
  | S n' => (wait_if_needed depth (admissions n' depth w)).2
  end.

(** [t] lies in the 60 seconds up to [T]. *)
Definition in_window (T t : Z) : Prop := T - minute < t <= T.

#[export] Instance in_window_dec T t : Decision (in_window T t).
Proof. unfold in_window. apply _. Defined.

(** The time stamps of [l] in the 60 seconds up to [T]. *)
Definition window (T : Z) (l : list Z) : list Z := filter (in_window T) l.

(** The world once [can_make_call] has read the clock and left [st]. *)
Definition checked (st : GroqRateLimiter) (w : world) : world :=
  {| limiter := st; clock := next_time w; ticks := tl (ticks w);
     recorded := recorded w; slept := slept w |}.

(** The world once [time.sleep d] has returned. *)
Definition woken (d : Z) (w : world) : world :=
  {| limiter := limiter w; clock := next_time w + d; ticks := tl (ticks w);
     recorded := recorded w; slept := slept w ++ [d] |}.

(** The world once [record_call] has run. *)
Definition noted (w : world) : world :=
  {| limiter := record_call (next_time w) (limiter w); clock := next_time w;
     ticks := tl (ticks w); recorded := recorded w ++ [next_time w];
     slept := slept w |}.

(** The list comprehension of [can_make_call]: the time stamps of [l] less
    than a minute old at [now]. *)
Definition pruned (now : Z) (l : list Z) : list Z :=
  filter (fun call_time => now - minute < call_time) l.

(** What holds of a world between two admission attempts: the time stamps
    the limiter still holds are those recorded that a check at the present
    time or later would keep, none lies in the future, and no window of 60
    seconds holds more than [calls_per_minute] of those recorded. *)
Record consistent (per_minute : Z) (w : world) : Prop := {
  cons_per_minute : calls_per_minute (limiter w) = per_minute;
  cons_daily : 0 <= daily_calls (limiter w);
  cons_times : forall now, clock w <= now ->
      pruned now (call_times (limiter w)) = pruned now (recorded w);
  cons_past : Forall (fun t => t <= clock w) (recorded w);
  cons_window : forall T,
      Z.of_nat (length (window T (recorded w))) <= per_minute
}.


End RateLimiter.

(** * The rate limiter: further notions *)

Module RateLimiterMore.

Import RateLimiter.

(** The day counter stays within the quota. *)
Definition within_quota (per_day : Z) (w : world) : Prop :=
  calls_per_day (limiter w) = per_day
  /\ 0 <= daily_calls (limiter w) <= per_day.

(** Nothing was ever admitted. *)
Definition idle (per_minute per_day : Z) (w : world) : Prop :=
  calls_per_minute (limiter w) = per_minute
  /\ calls_per_day (limiter w) = per_day
  /\ call_times (limiter w) = []
  /\ daily_calls (limiter w) = 0
  /\ recorded w = [].

End RateLimiterMore.

(** * Callers that overlap

    [wait_if_needed] takes the lock twice: [can_make_call] holds it for its
    body, and so does [record_call]; between the two, and during a sleep, the
    caller holds nothing.  A caller is at one of the points below; the steps
    of different callers interleave, a body under [with self.lock] running
    only for the caller that holds the lock. *)

Module Interleaving.

Import RateLimiter.

Inductive pc : Type :=
| AtCheck                 (* about to enter [can_make_call] *)
| InCheck                 (* in [can_make_call], holding the lock *)
| Sleeping (until : Z)    (* in [time.sleep] *)
| AtRecord                (* the check said yes; about to enter [record_call] *)
| InRecord                (* in [record_call], holding the lock *)
| Returned                (* [wait_if_needed] returned [True] *)
| Failed (e : exn).       (* [wait_if_needed] raised *)

Record state : Type := {
  limiter : GroqRateLimiter;
  lock : option nat;
  clock : Z;
  callers : list pc
}.

Inductive action : Type :=
| Acquire (i : nat)       (* caller [i] enters a [with self.lock] *)
| Leave (i : nat)         (* caller [i] runs the body and leaves the [with] *)
| Wake (i : nat)          (* caller [i]'s sleep is over *)
| Pass (d : N).           (* time passes *)

Definition set_caller (i : nat) (p : pc) (s : state) : list pc :=
  <[i := p]> (callers s).

(** Where a caller goes from what its check returned. *)
Definition after_check (now : Z) (c : check) : pc :=
  match c with
  | Checked true _ => AtRecord
  | Checked false msg =>
      if has_Wait msg then Sleeping (now + (wait_of msg + 1 * second))
      else Failed (RateLimitExceeded msg)
  | CheckValueError => Failed ValueError
  end.

Definition step (a : action) (s : state) : option state :=
  match a with
  | Acquire i =>
      match lock s, callers s !! i with
      | None, Some AtCheck =>
          Some {| limiter := limiter s; lock := Some i; clock := clock s;
                  callers := set_caller i InCheck s |}
      | None, Some AtRecord =>
          Some {| limiter := limiter s; lock := Some i; clock := clock s;
                  callers := set_caller i InRecord s |}
      | _, _ => None
      end
  | Leave i =>
      if decide (lock s = Some i) then
        match callers s !! i with
        | Some InCheck =>
            let '(c, st) := can_make_call (clock s) (limiter s) in
            Some {| limiter := st; lock := None; clock := clock s;
                    callers := set_caller i (after_check (clock s) c) s |}
        | Some InRecord =>
            Some {| limiter := record_call (clock s) (limiter s); lock := None;
                    clock := clock s; callers := set_caller i Returned s |}
        | _ => None
        end
      else None
  | Wake i =>
      match callers s !! i with
      | Some (Sleeping until) =>
          if until <=? clock s
          then Some {| limiter := limiter s; lock := lock s; clock := clock s;
                       callers := set_caller i AtCheck s |}
          else None
      | _ => None
      end
  | Pass d =>
      Some {| limiter := limiter s; lock := lock s;
              clock := clock s + Z.of_N d; callers := callers s |}
  end.

Fixpoint run (schedule : list action) (s : state) : option state :=
  match schedule with
  | [] => Some s
  | a :: rest => match step a s with
                 | Some s1 => run rest s1
                 | None => None
                 end
  end.

(** [n] callers about to call [wait_if_needed] on a limiter made at [t0]. *)
Definition start (per_minute per_day t0 : Z) (n : nat) : state :=
  {| limiter := init per_minute per_day t0; lock := None; clock := t0;
     callers := replicate n AtCheck |}.

Definition critical (p : pc) : bool :=
  match p with InCheck | InRecord => true | _ => false end.

(** The lock is held by the one caller inside a [with], if there is one. *)
Definition exclusive (s : state) : Prop :=
  forall i p, callers s !! i = Some p ->
              critical p = true <-> lock s = Some i.

End Interleaving.

(** * The response cache ([APIOptimizer]) *)

Module Cache.

(** What a file of the cache directory holds.  [json.dump] writes the three
    fields of [cached_data]; reading that file back with [json.load] and
    [datetime.fromisoformat] gives the same time point and the same payload,
    which [CacheFile] states by keeping them as they are.  [Unreadable] is any
    other content: reading it raises inside the [try]. *)
Inductive file : Type :=
| CacheFile (timestamp : Z) (result : json) (email_length : Z)
| Unreadable.

Record APIOptimizer : Type := {
  cache_dir : string;
  cache_duration : Z;
  last_api_call : Z;
  min_call_interval : Z
}.

(** [APIOptimizer.__init__]: two hours, and two seconds. *)
Definition init (dir : string) : APIOptimizer :=
  {| cache_dir := dir; cache_duration := 2 * 3600 * 1000000;
     last_api_call := 0; min_call_interval := 2 * 1000000 |}.

(** The global [api_optimizer = APIOptimizer()]. *)
Definition api_optimizer : APIOptimizer := init "data/cache".

(** [a.endswith("/")] *)
Fixpoint ends_with_sep (a : string) : bool :=
  match a with
  | EmptyString => false
  | String c EmptyString => Ascii.eqb c "/"
  | String _ a' => ends_with_sep a'
  end.

(** [os.path.join(a, b)] as [posixpath] has it: [b] alone when it opens with
    the separator, and otherwise [a] and [b] with a separator between them
    unless [a] is empty or ends with one. *)
Definition path_join (a b : string) : string :=
  match b with
  | String "/" _ => b
  | _ => if String.eqb a "" || ends_with_sep a then a +:+ b
         else a +:+ "/" +:+ b
  end.

Section Hashing.

(** [hashlib.md5(s.encode()).hexdigest()] *)
Variable md5_hexdigest : string -> string.

Definition _get_cache_key (email_content analysis_type : string) : string :=
  analysis_type +:+ "_" +:+ md5_hexdigest email_content.

(** [os.path.join(self.cache_dir, f"{cache_key}.json")] *)
Definition _get_cache_path (self : APIOptimizer) (cache_key : string) : string :=
  path_join (cache_dir self) (cache_key +:+ ".json").

(** [get_cached_result]; [now] is what [datetime.now()] returns, [fs] the
    files by path.  [JNull] is Python's [None]. *)
Definition get_cached_result (self : APIOptimizer) (now : Z)
    (email_content analysis_type : string) (fs : gmap string file)
  : json * gmap string file :=
  let cache_key := _get_cache_key email_content analysis_type in
  let cache_path := _get_cache_path self cache_key in
  match fs !! cache_path with
  | None => (JNull, fs)
  | Some Unreadable => (JNull, fs)
  | Some (CacheFile cached_time result _) =>
      if now - cached_time >? cache_duration self
      then (JNull, delete cache_path fs)
      else (result, fs)
  end.

(** [cache_result] when its [open] and [json.dump] go through: the file of
    the key holds [cached_data].  [CacheStore.cache_result] below is the
    function with the handler for when they do not. *)
Definition cache_result (self : APIOptimizer) (now : Z)
    (email_content : string) (result : json) (analysis_type : string)
    (fs : gmap string file) : gmap string file :=
  let cache_key := _get_cache_key email_content analysis_type in
  let cache_path := _get_cache_path self cache_key in
  <[cache_path := CacheFile now result (Z.of_nat (String.length email_content))]> fs.

End Hashing.

(** [record_api_call]; [now] is what [time.time()] returns. *)
Definition record_api_call (self : APIOptimizer) (now : Z) : APIOptimizer :=
  {| cache_dir := cache_dir self; cache_duration := cache_duration self;
     last_api_call := now; min_call_interval := min_call_interval self |}.

End Cache.

(** * The response cache: the fallback decision ([should_use_fallback]) *)

Module Fallback.

Import Cache.

(** [c.lower()] for a character below 256: the letters [A] to [Z], and the
    accented capitals from 192 to 222 but for the multiplication sign. *)
Definition lower_char (c : ascii) : ascii :=
  if Text.between 65 90 c
     || (Text.between 192 222 c && negb (Text.between 215 215 c))
  then ascii_of_N (N_of_ascii c + 32)
  else c.

(** [s.lower()] *)
Fixpoint lower (s : string) : string :=
  match s with
  | EmptyString => EmptyString
  | String c s' => String (lower_char c) (lower s')
  end.

(** [hay.startswith(needle)] *)
Fixpoint starts_with (needle hay : string) : bool :=
  match needle, hay with
  | EmptyString, _ => true
  | String _ _, EmptyString => false
  | String c needle', String d hay' => Ascii.eqb c d && starts_with needle' hay'
  end.

(** [needle in hay] *)
Fixpoint contains (needle hay : string) : bool :=
  if starts_with needle hay then true
  else match hay with
       | EmptyString => false
       | String _ hay' => contains needle hay'
       end.

Definition strong_signals : list string :=
  ["budget approved"; "demo"; "asap"; "urgent"; "help us"; "need replacement";
   "this week"; "crashing"; "losing productivity"; "schedule demo"; "book demo"].

Definition negative_signals : list string :=
  ["not interested"; "no thanks"; "found alternative"; "unsubscribe"].

(** [sum(signal in text for signal in signals)] *)
Definition count_signals (signals : list string) (text : string) : Z :=
  Z.of_nat (length (filter (fun signal => contains signal text = true) signals)).

(** [should_use_fallback]; [current_time] is what [time.time()] returns. *)
Definition should_use_fallback (self : APIOptimizer) (current_time : Z)
    (email_content : string) : bool :=
  if current_time - last_api_call self <? min_call_interval self then true
  else if Z.of_nat (String.length email_content) <? 50 then true
  else
    let signal_count := count_signals strong_signals (lower email_content) in
    if signal_count >=? 2 then true
    else if existsb (fun signal => contains signal (lower email_content))
              negative_signals
         then true
         else false.

End Fallback.

(** * The local tools ([tools/sentiment_tools.py]) *)

Module Keywords.

Import Fallback.

(** [[word for word in words if word in text]], [sum(1 for ...)] and
    [any(word in text for word in words)] *)
Definition found (words : list string) (text : string) : list string :=
  List.filter (fun word => contains word text) words.

Definition count (words : list string) (text : string) : Z :=
  Z.of_nat (length (found words text)).

Definition any (words : list string) (text : string) : bool :=
  existsb (fun word => contains word text) words.

End Keywords.

(** ** [UrgencyDetectionTool] *)

Module UrgencyDetectionTool.

Import Fallback Keywords.

Definition urgency_high : list string :=
  ["asap"; "urgent"; "immediately"; "right away"; "deadline";
   "time sensitive"; "expires today"; "limited time";
   "need by"; "rush"; "emergency"; "critical"; "constantly crashing";
   "losing productivity"; "need a replacement"; "this week"].

Definition urgency_medium : list string :=
  ["soon"; "quickly"; "fast"; "priority"; "important";
   "this week"; "end of month"; "quarter"; "by friday"].

Definition urgency_low : list string :=
  ["when you can"; "no rush"; "whenever"; "eventually";
   "at your convenience"; "flexible"].

(** The dict [result], which [_run] returns as JSON text. *)
Record urgency : Type := {
  urgency_score : Z;
  detected_phrases : list string;
  urgency_level : string
}.

(** One [for phrase in ...] loop: [adjust] is what is done to
    [urgency_score] at a phrase that is in the text. *)
Fixpoint scan (phrases : list string) (text : string) (adjust : Z -> Z)
    (score : Z) (detected : list string) : Z * list string :=
  match phrases with
  | [] => (score, detected)
  | phrase :: rest =>
      if contains phrase text
      then scan rest text adjust (adjust score) (detected ++ [phrase])
      else scan rest text adjust score detected
  end.

Definition level_of (score : Z) : string :=
  if score >? 60 then "high" else if score >? 30 then "medium" else "low".

Definition _run (email_content sender_email subject : string) : urgency :=
  let text := lower (subject +:+ " " +:+ email_content) in
  let '(s1, d1) := scan urgency_high text (fun s => Z.max s 80) 0 [] in
  let '(s2, d2) := scan urgency_medium text (fun s => Z.max s 50) s1 d1 in
  let '(s3, d3) := scan urgency_low text (fun s => Z.min s 20) s2 d2 in
  let score := if s3 =? 0 then 35 else s3 in
  {| urgency_score := score; detected_phrases := d3;
     urgency_level := level_of score |}.

End UrgencyDetectionTool.

(** ** [BasicSentimentTool._local_sentiment_analysis] *)

Module BasicSentimentTool.

Import Fallback Keywords.

(** [s.replace(old, new)] for single characters *)
Fixpoint replace (old new : ascii) (s : string) : string :=
  match s with
  | EmptyString => EmptyString
  | String c s' =>
      String (if Ascii.eqb c old then new else c) (replace old new s')
  end.

(** The text the indicators are looked up in. *)
Definition normalised (subject email_content : string) : string :=
  replace "." " "
    (replace "-" " "
       (replace "_" " " (lower (subject +:+ " " +:+ email_content)))).

Definition professional_high_priority : list string :=
  ["github"; "linkedin"; "job"; "hiring"; "interview"; "career";
   "invitation"; "collaborate"; "pull request"; "repository"; "organization";
   "team"; "project"; "developer"; "engineer"; "opportunity"; "position";
   "goldman sachs"; "microsoft"; "google"; "amazon"; "apple"; "facebook";
   "software engineer"; "hackathon"; "hackathons"; "devpost"; "coding";
   "programming"; "technical"; "startup"; "internship"; "full-time";
   "part-time"; "remote"; "work from home"; "salary"; "benefits";
   "recruiter"; "hr"; "human resources"; "talent"; "application"].

Definition business_positive : list string :=
  ["demo"; "pricing"; "price"; "purchase"; "buy"; "contract"; "solution";
   "interested"; "ready"; "decision"; "budget approved"; "budget is approved";
   "budget"; "timeline"; "when can we";
   "looking forward"; "excited to"; "want to proceed"; "move forward";
   "schedule"; "meeting"; "call"; "discuss"; "evaluate"; "need to find";
   "replacement"; "alternative"; "help us"; "can you help"; "asap";
   "this week"; "looking for"; "current system"; "losing productivity";
   "crashing"; "frustrated with current"; "need a replacement"].

Definition business_negative : list string :=
  ["not interested"; "cancel"; "unsubscribe"; "too expensive"; "no budget";
   "looking elsewhere"; "found alternative"; "decided against"; "not a fit";
   "not right now"; "maybe later"; "wrong time"].

Definition emotional_positive : list string :=
  ["great"; "excellent"; "perfect"; "love"; "amazing"; "fantastic"].

Definition emotional_negative : list string :=
  ["frustrated"; "annoying"; "terrible"; "hate"; "awful"; "disappointed"].

Definition urgency_words : list string :=
  ["urgent"; "asap"; "as soon as possible"; "immediately"; "quickly"; "soon";
   "this week"; "friday"; "deadline"; "crashing"; "constantly crashing";
   "losing productivity"; "need to find"; "replacement asap"].

(** The entries of the dict returned that are texts, whole numbers and
    lists.  [sentiment_score], a float, and [business_context], a sentence
    made from the same counts, are left out; no entry kept depends on
    them. *)
Record local_analysis : Type := {
  business_sentiment : string;
  emotions : list string;
  urgency_level : Z;
  buying_intent : Z;
  key_phrases : list string;
  priority : string;
  response_priority : string;
  analysis_method : string;
  professional_score : Z;
  debug_keywords_found : list string
}.

Definition sentiment_and_intent (text : string)
    (professional business_pos business_neg urgency_count : Z) : string * Z :=
  if professional >? 0 then ("neutral", 20)
  else if business_pos >? business_neg then
    ("positive",
     if contains "budget" text
        && (contains "demo" text || contains "help us" text)
        && (urgency_count >? 0)
     then 90
     else Z.min 100 (business_pos * 20 + 50))
  else if business_neg >? business_pos then
    ("negative", Z.max 0 (20 - business_neg * 10))
  else if any ["question"; "info"; "information"; "tell me"; "how does"] text
  then ("neutral", 40)
  else ("neutral", 30).

Definition emotions_of (text : string)
    (professional business_pos emotional_pos emotional_neg urgency_count : Z)
  : list string :=
  let emotions :=
    (if urgency_count >? 0 then ["urgency"] else [])
    ++ (if business_pos >? 0 then ["curiosity"] else [])
    ++ (if professional >? 0 then ["professional"] else [])
    ++ (if emotional_pos >? emotional_neg then ["excitement"]
        else if emotional_neg >? emotional_pos then ["frustration"] else [])
    ++ (if any ["concern"; "worried"; "doubt"] text then ["skepticism"] else [])
  in
  match emotions with [] => ["neutral"] | _ => emotions end.

Definition priority_of (professional intent level : Z) : string :=
  if professional >? 0 then "high"
  else if (intent >? 70) || (level >? 70) then "high"
  else if (intent >? 40) || (level >? 40) then "medium"
  else "low".

Definition _local_sentiment_analysis (email_content subject : string)
  : local_analysis :=
  let text := normalised subject email_content in
  let professional := count professional_high_priority text in
  let business_pos := count business_positive text in
  let business_neg := count business_negative text in
  let emotional_pos := count emotional_positive text in
  let emotional_neg := count emotional_negative text in
  let urgency_count := count urgency_words text in
  let '(sentiment, intent) :=
    sentiment_and_intent text professional business_pos business_neg
      urgency_count in
  let level :=
    Z.min 100 (urgency_count * 30 + (if any ["asap"; "urgent"] text then 50 else 0)) in
  let prio := priority_of professional intent level in
  {| business_sentiment := sentiment;
     emotions := emotions_of text professional business_pos emotional_pos
                   emotional_neg urgency_count;
     urgency_level := level;
     buying_intent := intent;
     key_phrases :=
       found (professional_high_priority ++ business_positive ++ urgency_words)
         text;
     priority := prio;
     response_priority := prio;
     analysis_method := "local_business_focused";
     professional_score := professional;
     debug_keywords_found := found professional_high_priority text |}.

(** ** Notions the properties are stated with *)

(** The character is in the text. *)
Fixpoint occurs (c : ascii) (s : string) : bool :=
  match s with
  | EmptyString => false
  | String d s' => Ascii.eqb d c || occurs c s'
  end.

(** The word holds one of the characters [normalised] replaces. *)
Definition has_separator (word : string) : bool :=
  occurs "_" word || occurs "-" word || occurs "." word.

End BasicSentimentTool.

(** * The response cache: a store that can fail

    [cache_result] runs in a [try] whose handler prints the exception and
    returns, so a store that could not write its file goes unnoticed. *)

Module CacheStore.

Import Cache.

(** How [with open(cache_path, 'w') as f: json.dump(cached_data, f)] ends on
    a path [open] takes. *)
Inductive writing : Type :=
| Written        (* the file holds the JSON text of [cached_data] *)
| OpenRaises     (* [open] raised (no such directory, no permission, ...):
                    the files are as they were *)
| DumpRaises.    (* [json.dump] raised after [open] made or emptied the file:
                    what the file holds is not the JSON text *)

(** The text holds the character of code 0.  With such a path [open] raises
    [ValueError] whatever the file system, and [os.path.exists] answers
    [False]. *)
Fixpoint has_nul (s : string) : bool :=
  match s with
  | EmptyString => false
  | String c s' => Ascii.eqb c Ascii.zero || has_nul s'
  end.

(** The text holds the separator of paths. *)
Fixpoint has_sep (s : string) : bool :=
  match s with
  | EmptyString => false
  | String c s' => Ascii.eqb c "/" || has_sep s'
  end.

(** The directory part [os.path.join] puts before a name that does not
    open with the separator. *)
Definition dir_prefix (a : string) : string :=
  if String.eqb a "" || ends_with_sep a then a else a +:+ "/".


Section Hashing.

Variable md5_hexdigest : string -> string.

(** [disk path] is what the file system makes of a write to [path]. *)
Variable disk : string -> writing.

(** [cache_result], the [try] and its handler. *)
Definition cache_result (self : APIOptimizer) (now : Z)
    (email_content : string) (result : json) (analysis_type : string)
    (fs : gmap string file) : gmap string file :=
  let cache_key := _get_cache_key md5_hexdigest email_content analysis_type in
  let cache_path := _get_cache_path self cache_key in
  if has_nul cache_path then fs
  else
    match disk cache_path with
    | Written =>
        Cache.cache_result md5_hexdigest self now email_content result
          analysis_type fs
    | OpenRaises => fs
    | DumpRaises => <[cache_path := Unreadable]> fs
    end.

End Hashing.

End CacheStore.

(** * The analysis service ([SentimentAnalysisService]) *)

Module Analysis.

Import Router Cache.

(** The keyword arguments [LLMRouter.complete] hands on to a provider.
    [temperature] is kept as written. *)
Record options : Type := {
  system : option string;
  response_format : string;
  temperature : string;
  max_tokens : Z;
  timeout : Z
}.

Record AnalysisResult : Type := {
  data : json;
  provider : string;
  latency_seconds : Z
}.

(** How [analyze] ends.  The errors are those [LLMRouter.complete] lets
    through, and [AttributeError] for [ai_response.get] on a response that is
    not a [dict]. *)
Inductive analysis : Type :=
| Analysed (r : AnalysisResult)
| RaisedRuntimeError (msg : string)
| RaisedValueError
| RaisedAttributeError.

(** The calls made on [api_optimizer]'s cache, in order. *)
Inductive cache_op : Type :=
| Lookup (key_payload analysis_type : string)
| Store (key_payload analysis_type : string).

Definition nl : string := String (ascii_of_nat 10) "".

Definition system_prompt : string :=
  "You are a senior revenue operations strategist. Always respond with concise JSON "
  +:+ "grounded in the provided message. Focus on B2B buying intent, urgency, and recommended actions.".

(** The f-string [prompt] of [analyze]. *)
Definition prompt_of (subject sender_email email_content : string) : string :=
  String.concat nl [
    "";
    "        Evaluate the following inbound email for sales prioritisation. Provide results as strict JSON with keys:";
    "        - sentiment_label: one of [positive, neutral, negative]";
    "        - sentiment_confidence: float between 0 and 1";
    "        - buyer_intent: one of [high, medium, low]";
    "        - intent_probability: float between 0 and 1";
    "        - urgency: one of [high, medium, low]";
    "        - priority_score: integer 0-100 (higher is more urgent)";
    "        - key_signals: array of strings referencing evidence";
    "        - recommended_actions: array of strings with concrete next steps";
    "        - summary: single sentence summary focused on commercial intent";
    "        Email metadata:";
    "        Subject: " +:+ subject;
    "        Sender: " +:+ sender_email;
    "        Body:";
    "        " +:+ email_content;
    "        "
  ].

(** [d.get(k, default)] *)
Definition get (d : list (string * json)) (k : string) (default : json) : json :=
  match dict_lookup k d with Some v => v | None => default end.

(** The dict [formatted_data] built from a response that is a [dict]. *)
Definition formatted_data (ai_response : list (string * json)) : json :=
  JObj [
    ("sentiment", get ai_response "sentiment_label" (JStr "neutral"));
    ("buying_intent", get ai_response "buyer_intent" (JStr "low"));
    ("urgency", get ai_response "urgency" (JStr "low"));
    ("priority_score", get ai_response "priority_score" (JInt 50));
    ("confidence", get ai_response "sentiment_confidence" (JFloat "0.5"));
    ("intent_probability", get ai_response "intent_probability" (JFloat "0.3"));
    ("key_insights", get ai_response "key_signals" (JArr [JStr "Analysis completed"]));
    ("recommendations",
     get ai_response "recommended_actions" (JArr [JStr "Review email content"]));
    ("summary", get ai_response "summary" (JStr "Email analysis completed"));
    ("raw_analysis", JObj ai_response)
  ].

(** Truth of [os.getenv(...)]: set, and not to the empty text. *)
Definition env_true (v : option string) : bool :=
  match v with
  | Some s => negb (String.eqb s "")
  | None => false
  end.

Section Service.

(** [W] is the world the providers act on. *)
Context {W : Type}.

(** [hashlib.md5(s.encode()).hexdigest()] and [json.dumps(v, sort_keys=True)] *)
Variable md5_hexdigest : string -> string.
Variable json_dumps : json -> string.

(** The process: the environment variable, the files, the global
    [api_optimizer], the clock with how late each coming read of it is, the
    world of the providers, and a record of the cache calls made. *)
Record world : Type := {
  DISABLE_CACHE : option string;
  files : gmap string file;
  optimizer : APIOptimizer;
  clock : Z;
  ticks : list N;
  outside : W;
  cache_ops : list cache_op
}.

Definition next_time (w : world) : Z := clock w + Z.of_N (hd 0%N (ticks w)).

(** The world after a read of the clock. *)
Definition tick (w : world) : world :=
  {| DISABLE_CACHE := DISABLE_CACHE w; files := files w;
     optimizer := optimizer w; clock := next_time w; ticks := tl (ticks w);
     outside := outside w; cache_ops := cache_ops w |}.

(** [api_optimizer.get_cached_result(key, analysis_type=ty)]; the clock
    read is made whether or not the file is there. *)
Definition lookup (key analysis_type : string) (w : world) : json * world :=
  let '(cached, fs) :=
    get_cached_result md5_hexdigest (optimizer w) (next_time w) key
      analysis_type (files w) in
  (cached,
   {| DISABLE_CACHE := DISABLE_CACHE w; files := fs; optimizer := optimizer w;
      clock := next_time w; ticks := tl (ticks w); outside := outside w;
      cache_ops := cache_ops w ++ [Lookup key analysis_type] |}).

(** [api_optimizer.cache_result(key, result, analysis_type=ty)] *)
Definition store (key : string) (result : json) (analysis_type : string)
    (w : world) : world :=
  {| DISABLE_CACHE := DISABLE_CACHE w;
     files := cache_result md5_hexdigest (optimizer w) (next_time w) key result
                analysis_type (files w);
     optimizer := optimizer w; clock := next_time w; ticks := tl (ticks w);
     outside := outside w;
     cache_ops := cache_ops w ++ [Store key analysis_type] |}.

(** [api_optimizer.record_api_call()] *)
Definition note_api_call (w : world) : world :=
  {| DISABLE_CACHE := DISABLE_CACHE w; files := files w;
     optimizer := record_api_call (optimizer w) (next_time w);
     clock := next_time w; ticks := tl (ticks w); outside := outside w;
     cache_ops := cache_ops w |}.

(** The world once [self.router.complete(...)] is over: the providers'
    world is what the call left, and the clock has moved by the sleeps. *)
Definition after_complete (out : run W options) (w : world) : world :=
  {| DISABLE_CACHE := DISABLE_CACHE w; files := files w;
     optimizer := optimizer w; clock := clock w + foldr Z.add 0 (sleeps out);
     ticks := ticks w; outside := Router.world out; cache_ops := cache_ops w |}.

Definition cache_key_payload (subject sender_email email_content : string)
  : string :=
  json_dumps (JObj [("content", JStr email_content);
                    ("sender", JStr sender_email);
                    ("subject", JStr subject)]).

Definition analyze_options : options :=
  {| system := Some system_prompt; response_format := "json";
     temperature := "0.1"; max_tokens := 700; timeout := 60 |}.

(** [self.router.complete(prompt, system=..., ...)], with [retry_delay]
    left at two seconds. *)
Definition router_complete (router : LLMRouter W options)
    (subject sender_email email_content : string) (w : world)
  : run W options :=
  complete router (prompt_of subject sender_email email_content)
    analyze_options 2000000 (outside w).

(** [analyze] from [start = time.time()] on. *)
Definition analyze_remote (router : LLMRouter W options)
    (email_content subject sender_email : string) (w : world)
  : analysis * world :=
  let key := cache_key_payload subject sender_email email_content in
  let start := next_time w in
  let out := router_complete router subject sender_email email_content w in
  let w1 := after_complete out (tick w) in
  match result out with
  | RaiseRuntimeError msg => (RaisedRuntimeError msg, w1)
  | RaiseValueError => (RaisedValueError, w1)
  | Return ai_response =>
      let latency := next_time w1 - start in
      let w2 := tick w1 in
      match ai_response with
      | JObj fields =>
          let formatted := formatted_data fields in
          let w3 := store key formatted "sentiment_ai" w2 in
          let w4 := note_api_call w3 in
          (Analysed {| data := formatted; provider := "ai";
                       latency_seconds := latency |}, w4)
      | _ => (RaisedAttributeError, w2)
      end
  end.

(** [SentimentAnalysisService.analyze] *)
Definition analyze (router : LLMRouter W options)
    (email_content subject sender_email : string) (w : world)
  : analysis * world :=
  let key := cache_key_payload subject sender_email email_content in
  if negb (env_true (DISABLE_CACHE w)) then
    let '(cached, w1) := lookup key "sentiment_ai" w in
    if truthy cached
    then (Analysed {| data := cached; provider := "cache";
                      latency_seconds := 0 |}, w1)
    else analyze_remote router email_content subject sender_email w1
  else analyze_remote router email_content subject sender_email w.

(** The world [analyze] makes its remote call from. *)
Definition before_remote (email_content subject sender_email : string)
    (w : world) : world :=
  if env_true (DISABLE_CACHE w) then w
  else (lookup (cache_key_payload subject sender_email email_content)
          "sentiment_ai" w).2.

(** The request finds its answer in the cache. *)
Definition cache_hit (email_content subject sender_email : string)
    (w : world) : Prop :=
  env_true (DISABLE_CACHE w) = false
  /\ truthy (lookup (cache_key_payload subject sender_email email_content)
               "sentiment_ai" w).1 = true.

End Service.

Arguments world : clear implicits.

End Analysis.

(** * More of the analysis service *)

Module AnalysisMore.

Import Router Cache Analysis.

Section Service.

Context {W : Type}.
Variable md5_hexdigest : string -> string.
Variable json_dumps : json -> string.

(** The file [analyze] keeps the answer to a request in. *)
Definition entry_path (w : Analysis.world W)
    (email_content subject sender_email : string) : string :=
  _get_cache_path (optimizer w)
    (_get_cache_key md5_hexdigest
       (cache_key_payload json_dumps subject sender_email email_content)
       "sentiment_ai").

(** The cache call is a store. *)
Definition is_store (op : cache_op) : bool :=
  match op with Store _ _ => true | Lookup _ _ => false end.

End Service.

End AnalysisMore.

(** * The Groq provider ([GroqProvider]) *)

Module Groq.

Import Router.

Record GroqProvider : Type := {
  api_key : string;
  model : string;
  base_url : string
}.

(** [os.getenv(name, default)] *)
Definition getenv_or (default : string) (v : option string) : string :=
  match v with Some s => s | None => default end.

(** [GroqProvider.__init__]; [api_base] is the variable [GROQ_API_BASE]. *)
Definition init (key : string) (model_name : string) (api_base : option string)
  : GroqProvider :=
  {| api_key := key; model := model_name;
     base_url := getenv_or "https://api.groq.com/openai/v1" api_base |}.

(** [LLMRouter._discover_providers], from the variables [GROQ_API_KEY],
    [GROQ_MODEL] and [GROQ_API_BASE]. *)
Definition _discover_providers (groq_api_key groq_model api_base : option string)
  : list GroqProvider :=
  if Analysis.env_true groq_api_key
  then [init (getenv_or "" groq_api_key)
          (getenv_or "llama-3.1-8b-instant" groq_model) api_base]
  else [].

(** What [requests.post] is called with. *)
Record request : Type := {
  url : string;
  authorization : string;
  content_type : string;
  payload : json;
  request_timeout : Z
}.

(** What [requests.post] comes to: a response, with the body as
    [response.json()] gives it when it is JSON, or an exception. *)
Inductive reply : Type :=
| Response (status_code : Z) (text : string) (body : option json)
| Unreachable (exc : string).

(** The shared limiter with its clock, the server (its answer to each
    request, by number), and the requests sent. *)
Record world : Type := {
  limits : RateLimiter.world;
  network : nat -> reply;
  sent : list request
}.

(** The failures of [complete] that are not of its own classes. *)
Inductive failure : Type :=
| LimiterValueError        (* [ValueError] out of [wait_if_needed] *)
| RecursionTooDeep         (* [wait_if_needed] recursing past the limit *)
| BodyNotJson              (* [response.json()] *)
| BadShape                 (* [data["choices"][0]["message"]["content"]] *)
| NotText.                 (* [content.strip()] on what is not a [str] *)

(** [f"{x:.1f}"] for [x] a count of tenths. *)
Definition one_decimal (tenths : Z) : string :=
  (if tenths <? 0 then "-" else "")
  +:+ pretty (Z.abs tenths / 10) +:+ "." +:+ pretty (Z.abs tenths mod 10).

(** The text [can_make_call] returns as its message. *)
Definition render (m : RateLimiter.message) : string :=
  match m with
  | RateLimiter.MsgOK => "OK"
  | RateLimiter.MsgDailyLimit n =>
      "Daily limit reached (" +:+ pretty n +:+ " calls)"
  | RateLimiter.MsgWait tenths =>
      "Rate limit reached. Wait " +:+ one_decimal tenths +:+ " seconds"
  end.

(** [v[k]] for a text [k], and [v[0]]; [None] when it raises. *)
Definition item (k : string) (v : json) : option json :=
  match v with
  | JObj d => dict_lookup k d
  | _ => None
  end.

Definition first_item (v : json) : option json :=
  match v with
  | JArr (x :: _) => Some x
  | JStr (String c _) => Some (JStr (String c EmptyString))
  | _ => None
  end.

(** [data["choices"][0]["message"]["content"]] *)
Definition message_content (data : json) : option json :=
  match item "choices" data with
  | Some choices =>
      match first_item choices with
      | Some choice =>
          match item "message" choice with
          | Some message => item "content" message
          | None => None
          end
      | None => None
      end
  | None => None
  end.

(** [_extract_json(message)] for a [message] that need not be a text. *)
Definition extract_json_of (message : json) : option json :=
  if negb (truthy message)
  then Some (JObj [("error", JStr "Empty response from model")])
  else match message with
       | JStr content => Some (Normalizer._extract_json content)
       | _ => None
       end.

Section Provider.

(** [str(exc)] for the exceptions whose text is Python's own. *)
Variable python_text : failure -> string.

(** How deep [wait_if_needed] may recurse. *)
Variable depth : nat.

Definition messages (system : option string) (prompt : string) : list json :=
  (match system with
   | Some s =>
       if String.eqb s "" then []
       else [JObj [("role", JStr "system"); ("content", JStr s)]]
   | None => []
   end)
  ++ [JObj [("role", JStr "user"); ("content", JStr prompt)]].

Definition request_of (self : GroqProvider) (prompt : string)
    (opts : Analysis.options) : request :=
  let base :=
    [("model", JStr (model self));
     ("messages", JArr (messages (Analysis.system opts) prompt));
     ("temperature", JFloat (Analysis.temperature opts));
     ("max_tokens", JInt (Analysis.max_tokens opts))] in
  {| url := base_url self +:+ "/chat/completions";
     authorization := "Bearer " +:+ api_key self;
     content_type := "application/json";
     payload :=
       JObj (if String.eqb (Analysis.response_format opts) "json"
             then dict_set "response_format"
                    (JObj [("type", JStr "json_object")]) base
             else base);
     request_timeout := Analysis.timeout opts |}.

(** [complete] from the response on. *)
Definition classify (opts : Analysis.options) (r : reply) : outcome :=
  match r with
  | Unreachable exc => RaisesException exc
  | Response status_code text body =>
      if status_code =? 429 then RaisesRateLimit "Groq rate limit reached"
      else if status_code >=? 500
      then RaisesRateLimit "Groq temporary server error"
      else if status_code >=? 400
      then RaisesProviderError
             ("Groq request failed (" +:+ pretty status_code +:+ "): "
              +:+ String.substring 0 200 text)
      else
        match body with
        | None => RaisesException (python_text BodyNotJson)
        | Some data =>
            match message_content data with
            | None => RaisesException (python_text BadShape)
            | Some message =>
                if String.eqb (Analysis.response_format opts) "json"
                then match extract_json_of message with
                     | Some v => Returns v
                     | None => RaisesException (python_text NotText)
                     end
                else Returns message
            end
        end
  end.

Definition with_limits (lw : RateLimiter.world) (w : world) : world :=
  {| limits := lw; network := network w; sent := sent w |}.

(** [GroqProvider.complete] *)
Definition complete (self : GroqProvider) (prompt : string)
    (opts : Analysis.options) (w : world) : outcome * world :=
  match RateLimiter.wait_if_needed depth (limits w) with
  | (RateLimiter.Ret _, lw) =>
      (classify opts (network w (length (sent w))),
       {| limits := lw; network := network w;
          sent := sent w ++ [request_of self prompt opts] |})
  | (RateLimiter.Raise (RateLimiter.RateLimitExceeded msg), lw) =>
      (RaisesException ("Rate limit exceeded: " +:+ render msg),
       with_limits lw w)
  | (RateLimiter.Raise RateLimiter.ValueError, lw) =>
      (RaisesException (python_text LimiterValueError), with_limits lw w)
  | (RateLimiter.Diverge, lw) =>
      (RaisesException (python_text RecursionTooDeep), with_limits lw w)
  end.

(** The provider as the router sees it: [super().__init__(name="groq",
    priority=0)]. *)
Definition as_provider (self : GroqProvider)
  : BaseProvider world Analysis.options :=
  {| config := {| name := "groq"; priority := 0 |};
     provider_complete := complete self |}.

(** [LLMRouter()] in an environment. *)
Definition default_router (groq_api_key groq_model api_base : option string)
  : init_result world Analysis.options :=
  LLMRouter_init None
    (as_provider <$> _discover_providers groq_api_key groq_model api_base).

End Provider.

End Groq.

(** * The website service: the scores of [WebsiteMonitoringService.analyze] *)

Module WebsiteScores.

(** The items of the dict [scores] of the response when its values are
    whole numbers, as the prompt asks for. *)
Definition scores : Type := list (string * Z).

(** [scores.get(k, default)] *)
Definition get (s : scores) (k : string) (default : Z) : Z :=
  match List.find (fun kv => String.eqb kv.1 k) s with
  | Some kv => kv.2
  | None => default
  end.

(** [sum(scores.values())] *)
Definition sum_values (s : scores) : Z := foldr (fun kv acc => kv.2 + acc) 0 s.

(** The dict under ["analysis_results"]. *)
Record analysis_results : Type := {
  security_score : Z;
  performance_score : Z;
  seo_score : Z;
  accessibility_score : Z;
  overall_score : Z
}.

Definition analysis_results_of (s : scores) : analysis_results :=
  {| security_score := get s "security" 85;
     performance_score := get s "performance" 80;
     seo_score := get s "seo" 75;
     accessibility_score := get s "accessibility" 70;
     overall_score :=
       match s with
       | [] => 75
       | _ => sum_values s / Z.of_nat (length s)
       end |}.

(** Every score is between [lo] and [hi]. *)
Definition all_between (lo hi : Z) (s : scores) : Prop :=
  Forall (fun kv => lo <= kv.2 <= hi) s.

End WebsiteScores.

(** * The crew manager ([utils/crew_manager.py]) *)

Module CrewManager.

(** The one [CrewManager]; a crew is told by the number of crews built
    before it. *)
Record CrewManager : Type := {
  crew : option nat;
  last_call_time : Z;
  min_interval : Z
}.

(** [CrewManager.__new__], the first time. *)
Definition new : CrewManager :=
  {| crew := None; last_call_time := 0; min_interval := 2 * 1000000 |}.

(** The process: the manager, the clock (in microseconds, as all times
    here) with how late each coming read of it is, the number of crews built, whether [OptimizedIntelligenceCrew()] returns (it
    reads its two configuration files), and the sleeps made. *)
Record world : Type := {
  manager : CrewManager;
  clock : Z;
  ticks : list N;
  built : nat;
  constructor_returns : bool;
  slept : list Z
}.

Definition next_time (w : world) : Z := clock w + Z.of_N (hd 0%N (ticks w)).

(** [get_crew]: the crew, or [None] when the constructor raised. *)
Definition get_crew (w : world) : option nat * world :=
  let self := manager w in
  let current_time := next_time w in
  let time_since_last := current_time - last_call_time self in
  let '(now, sleeps) :=
    if time_since_last <? min_interval self
    then (current_time + (min_interval self - time_since_last),
          slept w ++ [min_interval self - time_since_last])
    else (current_time, slept w) in
  let late := tl (ticks w) in
  match crew self with
  | Some c =>
      (Some c,
       {| manager := {| crew := Some c;
                        last_call_time := now + Z.of_N (hd 0%N late);
                        min_interval := min_interval self |};
          clock := now + Z.of_N (hd 0%N late); ticks := tl late;
          built := built w; constructor_returns := constructor_returns w;
          slept := sleeps |})
  | None =>
      if constructor_returns w
      then (Some (built w),
            {| manager := {| crew := Some (built w);
                             last_call_time := now + Z.of_N (hd 0%N late);
                             min_interval := min_interval self |};
               clock := now + Z.of_N (hd 0%N late); ticks := tl late;
               built := S (built w);
               constructor_returns := constructor_returns w;
               slept := sleeps |})
      else (None,
            {| manager := self; clock := now; ticks := late;
               built := built w; constructor_returns := constructor_returns w;
               slept := sleeps |})
  end.

(** [n] calls of [get_crew], one after the other: what each returned, with
    [last_call_time] as the call left it. *)
Fixpoint calls (n : nat) (w : world) : list (option nat * Z) * world :=
  match n with
  | O => ([], w)
  | S n' =>
      let '(c, w1) := get_crew w in
      let '(rest, w2) := calls n' w1 in
      ((c, last_call_time (manager w1)) :: rest, w2)
  end.

(** Consecutive times of the list are at least [gap] apart. *)
Fixpoint spaced (gap : Z) (prev : Z) (l : list (option nat * Z)) : Prop :=
  match l with
  | [] => True
  | (_, t) :: rest => prev + gap <= t /\ spaced gap t rest
  end.

End CrewManager.

(** * Concrete inputs

    The inputs the properties of Part II are tried on. *)

Module Examples.

(** A stand-in for the hash of the cache key: the text itself. *)
Definition toy_hash (s : string) : string := s.

Import Router.

(** Providers acting on a counter of the calls made. *)
Definition limited {Opts : Type} : BaseProvider nat Opts :=
  {| config := {| name := "primary"; priority := 0 |};
     provider_complete := fun _ _ calls =>
       (RaisesRateLimit "Groq rate limit reached", S calls) |}.

Definition healthy {Opts : Type} : BaseProvider nat Opts :=
  {| config := {| name := "backup"; priority := 1 |};
     provider_complete := fun prompt _ calls =>
       (Returns (JObj [("echo", JStr prompt)]), S calls) |}.

Definition broken {Opts : Type} : BaseProvider nat Opts :=
  {| config := {| name := "spare"; priority := 5 |};
     provider_complete := fun _ _ calls =>
       (RaisesProviderError "Groq request failed (401): denied", S calls) |}.

(** A provider named as [GroqProvider] is, answering with a dict. *)
Definition groq {Opts : Type} : BaseProvider nat Opts :=
  {| config := {| name := "groq"; priority := 0 |};
     provider_complete := fun _ _ calls =>
       (Returns (JObj [("sentiment_label", JStr "positive");
                       ("priority_score", JInt 80)]), S calls) |}.

(** A stand-in for the serialisation of the cache key: the text of the
    first field. *)
Definition toy_dumps (v : json) : string :=
  match v with
  | JObj ((_, JStr s) :: _) => s
  | _ => ""
  end.

(** The router the analysis examples use. *)
Definition one_provider : LLMRouter nat Analysis.options :=
  {| providers := [groq] |}.

(** A process with the cache switched off by the environment variable and
    no file in the cache directory. *)
Definition cache_off : Analysis.world nat :=
  {| Analysis.DISABLE_CACHE := Some "1"; Analysis.files := ∅;
     Analysis.optimizer := Cache.api_optimizer; Analysis.clock := 0;
     Analysis.ticks := [10%N; 20%N; 30%N; 40%N]; Analysis.outside := 0%nat;
     Analysis.cache_ops := [] |}.

(** The same with the variable not set. *)
Definition cache_on : Analysis.world nat :=
  {| Analysis.DISABLE_CACHE := None; Analysis.files := ∅;
     Analysis.optimizer := Cache.api_optimizer; Analysis.clock := 0;
     Analysis.ticks := [10%N; 20%N; 30%N; 40%N]; Analysis.outside := 0%nat;
     Analysis.cache_ops := [] |}.

(** A router none of whose providers answers. *)
Definition all_failing : LLMRouter nat Analysis.options :=
  {| providers := [limited; broken] |}.

Import RateLimiter.

(** Two admissions on a limiter of two calls a minute and ten a day, the
    clock reads late by 5, 1 and 7 microseconds. *)
Definition two_admitted : world :=
  admissions 2 3 (fresh 2 10 0 [5%N; 1%N; 7%N]).

(** A limiter of five calls a minute and two a day that admitted two
    calls. *)
Definition quota_used : world :=
  admissions 2 3 (fresh 5 2 0 [3%N; 4%N]).

(** A Groq provider, texts for Python's own exceptions, and a server that
    answers the first request with status 429 and the others with 401. *)
Definition groq_llama : Groq.GroqProvider :=
  Groq.init "KEY" "llama-3.1-8b-instant" None.

Definition no_text (f : Groq.failure) : string := "".

Definition throttling (k : nat) : Groq.reply :=
  match k with
  | O => Groq.Response 429 "slow down" None
  | _ => Groq.Response 401 "denied" None
  end.

Definition throttled : Groq.world :=
  {| Groq.limits := fresh 60 2 0 []; Groq.network := throttling;
     Groq.sent := [] |}.

(** The same with the two calls of the day made. *)
Definition out_of_quota : Groq.world :=
  {| Groq.limits := quota_used; Groq.network := throttling; Groq.sent := [] |}.

End Examples.

(** * Part II: properties *)

(** ** Facts on strings *)

Section StringFacts.

Lemma append_cons (c : ascii) (a b : string) :
  String c a +:+ b = String c (a +:+ b).
Proof. reflexivity. Qed.

Lemma append_inv_head (s a b : string) : s +:+ a = s +:+ b -> a = b.
Proof.
  induction s as [|c s IH]; [done|]. rewrite !append_cons. intros [= H]. auto.
Qed.

Lemma append_length (a b : string) :
  String.length (a +:+ b) = (String.length a + String.length b)%nat.
Proof.
  induction a as [|c a IH]; [done|]. rewrite append_cons. simpl. by rewrite IH.
Qed.

Lemma append_assoc (a b c : string) : (a +:+ b) +:+ c = a +:+ (b +:+ c).
Proof.
  induction a as [|d a IH]; [done|]. rewrite !append_cons. by rewrite IH.
Qed.

Lemma append_inv_tail (a b s : string) : a +:+ s = b +:+ s -> a = b.
Proof.
  intros H.
  assert (Hlen : String.length a = String.length b).
  { apply (f_equal String.length) in H. rewrite !append_length in H. lia. }
  revert b H Hlen. induction a as [|c a IH]; intros [|d b] H Hlen;
    simpl in Hlen; try done.
  rewrite !append_cons in H. injection H as -> H. f_equal. apply IH; [done | lia].
Qed.

End StringFacts.

(** ** The provider router *)

Section RouterFacts.

Import Router.
Context {W Opts : Type}.

Abbreviation provider := (BaseProvider W Opts).
Abbreviation attempt := (BaseProvider W Opts * outcome)%type.

Lemma insert_by_priority_perm (p : provider) l :
  Permutation (p :: l) (insert_by_priority p l).
Proof.
  induction l as [|q l IH]; simpl; [reflexivity|].
  destruct (_ <=? _); [reflexivity|].
  rewrite perm_swap. by constructor.
Qed.

Lemma sorted_perm (l : list provider) : Permutation l (sorted l).
Proof.
  induction l as [|p l IH]; simpl; [constructor|].
  rewrite <- insert_by_priority_perm. by constructor.
Qed.

Lemma insert_by_priority_sorted (p : provider) l :
  StronglySorted priority_le l ->
  StronglySorted priority_le (insert_by_priority p l).
Proof.
  induction 1 as [|q l Hs IH Hq]; simpl.
  - repeat constructor.
  - destruct (Z.leb_spec (priority (config p)) (priority (config q))) as [Hle|Hgt].
    + constructor; [by constructor|].
      constructor; [exact Hle|].
      eapply Forall_impl; [exact Hq|].
      intros x Hx. unfold priority_le in *. lia.
    + constructor; [exact IH|].
      rewrite <- insert_by_priority_perm.
      constructor; [unfold priority_le; lia | exact Hq].
Qed.

Lemma sorted_sorted (l : list provider) : StronglySorted priority_le (sorted l).
Proof.
  induction l as [|p l IH]; simpl; [constructor|].
  by apply insert_by_priority_sorted.
Qed.

Lemma insert_by_priority_filter k (p : provider) l :
  filter (has_priority k) (insert_by_priority p l)
  = filter (has_priority k) (p :: l).
Proof.
  induction l as [|q l IH]; simpl; [reflexivity|].
  destruct (Z.leb_spec (priority (config p)) (priority (config q))) as [Hle|Hgt];
    [reflexivity|].
  rewrite filter_cons, IH, !filter_cons.
  destruct (decide (has_priority k q)) as [Hq|Hq];
    destruct (decide (has_priority k p)) as [Hp|Hp]; try reflexivity.
  unfold has_priority in *. lia.
Qed.

(** Ties keep the order the providers were given in. *)
Lemma sorted_stable k (l : list provider) :
  filter (has_priority k) (sorted l) = filter (has_priority k) l.
Proof.
  induction l as [|p l IH]; simpl; [reflexivity|].
  rewrite insert_by_priority_filter, !filter_cons, IH. reflexivity.
Qed.

Lemma describe_not_empty (p : provider) e : String.eqb (describe p e) "" = false.
Proof.
  unfold describe. destruct (name (config p)); reflexivity.
Qed.

Lemma calls_snoc prompt (opts : Opts) (w : W) l w1 p o w2 :
  calls prompt opts w l w1 ->
  provider_complete p prompt opts w1 = (o, w2) ->
  calls prompt opts w (l ++ [(p, o)]) w2.
Proof.
  induction 1; intros Hp; simpl.
  - econstructor; [exact Hp | constructor].
  - econstructor; eauto.
Qed.

(** The step of the loop for a provider whose call raised [o]: the rest of
    the run is the run from the next provider on. *)
Ltac failed_attempt IH o slept' :=
  match goal with
  | Hd : 0 <= ?d, Hone : calls ?prompt ?opts ?w [(?p, _)] ?w1 |- _ =>
      let new := fresh "new" in
      let Ha := fresh "Ha" in let Hc := fresh "Hc" in
      let Hl := fresh "Hl" in let Hs := fresh "Hs" in let Hr := fresh "Hr" in
      match goal with
      | |- context [complete_loop ?rest prompt opts d ?last w1 ?tried1 _] =>
          destruct (IH prompt opts d last w1 tried1 slept' Hd)
            as (new & Ha & Hc & Hl & Hs & Hr);
          exists ((p, o) :: new);
          rewrite Ha, Hs, <- !app_assoc; simpl;
          repeat split; try done;
          [ econstructor; eauto
          | destruct (result _) as [res|msg|]; [| |done];
            [ destruct Hr as (pre & q & post & -> & -> & Hpre);
              exists ((p, o) :: pre), q, post;
              repeat split; try done; by constructor
            | destruct Hr as (-> & <- & Hall); repeat split; try done;
              by constructor ] ]
      end
  end.

(** One run of the loop, for any value of its accumulators. *)
Lemma complete_loop_run (ps : list provider) :
  forall prompt (opts : Opts) d last (w : W) tried slept,
    0 <= d ->
    let out := complete_loop ps prompt opts d last w tried slept in
    exists new,
      attempts out = tried ++ new
      /\ calls prompt opts w new (world out)
      /\ last_error out = last_failure last new
      /\ sleeps out = slept ++ ((fun _ => d) <$> filter rate_limited new)
      /\ match result out with
         | Return res =>
             exists pre p post,
               ps = pre.*1 ++ p :: post
               /\ new = pre ++ [(p, Returns res)]
               /\ Forall attempt_raised pre
         | RaiseRuntimeError msg =>
             msg = or_default (last_error out) "All LLM providers failed"
             /\ new.*1 = ps
             /\ Forall attempt_raised new
         | RaiseValueError => False
         end.
Proof.
  induction ps as [|p rest IH]; intros prompt opts d last w tried slept Hd; simpl.
  - exists []. simpl. rewrite !app_nil_r.
    repeat split; try done; constructor.
  - destruct (provider_complete p prompt opts w) as [o w1] eqn:Hcall.
    assert (Hneg : (d <? 0) = false) by lia.
    assert (Hone : calls prompt opts w [(p, o)] w1)
      by (econstructor; [exact Hcall | constructor]).
    destruct o as [res|e|e|e]; simpl.
    + exists [(p, Returns res)]. simpl. rewrite app_nil_r.
      repeat split; try done.
      exists [], p, rest. repeat split; try done.
    + rewrite Hneg.
      failed_attempt IH (RaisesRateLimit e) (slept ++ [d]).
    + failed_attempt IH (RaisesProviderError e) slept.
    + failed_attempt IH (RaisesException e) slept.
Qed.

Lemma calls_elem prompt (opts : Opts) (w w' : W) l p o :
  calls prompt opts w l w' -> (p, o) ∈ l ->
  exists w0 w1, provider_complete p prompt opts w0 = (o, w1).
Proof.
  induction 1 as [|w q o' w1 l w2 Hq Hc IH]; intros Hin.
  - by apply elem_of_nil in Hin.
  - apply elem_of_cons in Hin as [[= -> ->]|Hin]; eauto.
Qed.

Lemma last_failure_snoc init l (a : attempt) :
  attempt_raised a ->
  last_failure init (l ++ [a]) = Some (describe a.1 (exc_text a.2)).
Proof.
  unfold last_failure, attempt_raised. rewrite fold_left_app. simpl.
  by destruct (a.2).
Qed.

Lemma sorted_pair (A B : provider) ps :
  Permutation ps [A; B] ->
  priority (config A) = 0 -> priority (config B) = 1 ->
  sorted ps = [A; B].
Proof.
  intros Hp HA HB. symmetry in Hp.
  apply Permutation_length_2_inv in Hp as [->| ->]; simpl; rewrite HA, HB;
    reflexivity.
Qed.

(** C1.  A router built from a non-empty list of providers holds them in
    ascending order of priority, ties in the order given, and [complete]
    calls them in that order, each in the world the one before left, up to
    the first whose call returns, whose result it returns; the providers
    before it raised.  With a provider [A] of priority 0 that always raises
    the rate-limit error and a provider [B] of priority 1 that always
    returns, [complete] returns what [B] returned, its [last_error] holds
    [A]'s failure, and it slept once between the two. *)
Theorem router_complete_first_success
    (providers_arg : option (list provider)) (discovered : list provider)
    (prompt : string) (opts : Opts) (retry_delay : Z) (w : W) :
  provider_list providers_arg discovered <> [] ->
  0 <= retry_delay ->
  exists r,
    LLMRouter_init providers_arg discovered = Constructed r
    /\ Permutation (provider_list providers_arg discovered) (providers r)
    /\ StronglySorted priority_le (providers r)
    /\ (forall k, filter (has_priority k) (providers r)
                  = filter (has_priority k) (provider_list providers_arg discovered))
    /\ let out := complete r prompt opts retry_delay w in
       calls prompt opts w (attempts out) (world out)
       /\ match result out with
          | Return res =>
              exists pre p post,
                providers r = pre.*1 ++ p :: post
                /\ attempts out = pre ++ [(p, Returns res)]
                /\ Forall attempt_raised pre
          | RaiseRuntimeError _ =>
              (attempts out).*1 = providers r
              /\ Forall attempt_raised (attempts out)
          | RaiseValueError => False
          end
       /\ forall A B,
            Permutation (provider_list providers_arg discovered) [A; B] ->
            priority (config A) = 0 -> priority (config B) = 1 ->
            (forall w0, exists e,
                (provider_complete A prompt opts w0).1 = RaisesRateLimit e) ->
            (forall w0, exists res,
                (provider_complete B prompt opts w0).1 = Returns res) ->
            exists e wA res wB,
              provider_complete A prompt opts w = (RaisesRateLimit e, wA)
              /\ provider_complete B prompt opts wA = (Returns res, wB)
              /\ attempts out = [(A, RaisesRateLimit e); (B, Returns res)]
              /\ result out = Return res
              /\ last_error out = Some (describe A e)
              /\ sleeps out = [retry_delay]
              /\ world out = wB.
Proof.
  intros Hne Hd.
  exists {| providers := sorted (provider_list providers_arg discovered) |}.
  split.
  { unfold LLMRouter_init, provider_list in *.
    destruct providers_arg as [l|]; [destruct l | destruct discovered]; done. }
  set (ps := provider_list providers_arg discovered) in *. simpl.
  split; [apply sorted_perm|].
  split; [apply sorted_sorted|].
  split; [intros k; apply sorted_stable|].
  unfold complete. simpl.
  destruct (complete_loop_run (sorted ps) prompt opts retry_delay None w [] [] Hd)
    as (new & Ha & Hc & Hl & Hs & Hr).
  simpl in Ha.
  split; [rewrite Ha; exact Hc|].
  split.
  { rewrite Ha. destruct (result _) as [res|msg|]; [exact Hr| |exact Hr].
    destruct Hr as (_ & H1 & H2). by split. }
  intros A B Hperm HA HB HAr HBr.
  clear new Ha Hc Hl Hs Hr.
  rewrite (sorted_pair A B ps Hperm HA HB). simpl.
  destruct (HAr w) as [e He].
  destruct (provider_complete A prompt opts w) as [oA wA] eqn:HcA.
  simpl in He. subst oA.
  assert (Hneg : (retry_delay <? 0) = false) by lia. rewrite Hneg. simpl.
  destruct (HBr wA) as [res Hres].
  destruct (provider_complete B prompt opts wA) as [oB wB] eqn:HcB.
  simpl in Hres. subst oB. simpl.
  exists e, wA, res, wB. by repeat split.
Qed.

(** C2.  When the call of every provider raises, [complete] raises the
    [RuntimeError] whose message is the failure of the last provider, the
    one of highest priority value: its name, a colon and the text of what it
    raised.  [complete] raises nothing else, and raises only after every
    provider was called and raised.  The attempts are the calls made, each
    paired with what the call came to; when a call returns, [complete]
    returns what that call returned, the calls before it having raised, so
    with a provider whose call always returns [complete] returns the result
    of a call. *)
Theorem router_complete_exhaustion
    (r : LLMRouter W Opts) (prompt : string) (opts : Opts)
    (retry_delay : Z) (w : W) :
  providers r <> [] ->
  0 <= retry_delay ->
  let out := complete r prompt opts retry_delay w in
  ((forall p w0, p ∈ providers r ->
                 raised (provider_complete p prompt opts w0).1) ->
   exists p o,
     last (providers r) = Some p
     /\ last (attempts out) = Some (p, o)
     /\ raised o
     /\ result out = RaiseRuntimeError (describe p (exc_text o)))
  /\ result out <> RaiseValueError
  /\ (forall msg, result out = RaiseRuntimeError msg ->
        (attempts out).*1 = providers r
        /\ Forall attempt_raised (attempts out)
        /\ exists p o, last (attempts out) = Some (p, o)
                       /\ msg = describe p (exc_text o))
  /\ (forall p res, (p, Returns res) ∈ attempts out ->
        result out = Return res)
  /\ calls prompt opts w (attempts out) (world out)
  /\ (forall res, result out = Return res ->
        exists pre p post,
          providers r = pre.*1 ++ p :: post
          /\ attempts out = pre ++ [(p, Returns res)]
          /\ Forall attempt_raised pre)
  /\ (forall p, p ∈ providers r ->
        (forall w0, exists res,
            (provider_complete p prompt opts w0).1 = Returns res) ->
        exists q res w0 w1,
          provider_complete q prompt opts w0 = (Returns res, w1)
          /\ last (attempts out) = Some (q, Returns res)
          /\ result out = Return res).
Proof.
  intros Hne Hd out.
  destruct (complete_loop_run (providers r) prompt opts retry_delay None w [] [] Hd)
    as (new & Ha & Hc & Hl & Hs & Hr).
  fold (complete r prompt opts retry_delay w) in Ha, Hc, Hl, Hs, Hr.
  fold out in Ha, Hc, Hl, Hs, Hr. simpl in Ha.
  assert (Hexh : forall msg, result out = RaiseRuntimeError msg ->
            (attempts out).*1 = providers r
            /\ Forall attempt_raised (attempts out)
            /\ exists p o, last (attempts out) = Some (p, o)
                           /\ raised o
                           /\ last (providers r) = Some p
                           /\ msg = describe p (exc_text o)).
  { intros msg Hres. rewrite Hres in Hr. destruct Hr as (-> & Hps & Hall).
    rewrite Ha. repeat split; try done.
    destruct (decide (new = [])) as [->|Hnew]; [by rewrite <- Hps in Hne|].
    apply exists_last in Hnew as (new' & [p o] & ->).
    apply Forall_app in Hall as [_ Hlast%Forall_inv].
    exists p, o. rewrite last_snoc. repeat split; try done.
    - rewrite <- Hps, fmap_app. simpl. by rewrite last_snoc.
    - rewrite Hl, last_failure_snoc by done. simpl.
      by rewrite describe_not_empty. }
  assert (Hret : forall res, result out = Return res ->
            exists pre p post,
              providers r = pre.*1 ++ p :: post
              /\ attempts out = pre ++ [(p, Returns res)]
              /\ Forall attempt_raised pre).
  { intros res Hres. rewrite Hres in Hr. by rewrite Ha. }
  split; [|split; [|split; [|split; [|split; [|split]]]]].
  - intros Hall.
    destruct (result out) as [res|msg|] eqn:Hres; [|..|done].
    + destruct Hr as (pre & p & post & Hps & -> & _).
      destruct (calls_elem prompt opts w (world out) (pre ++ [(p, Returns res)])
                  p (Returns res) Hc) as (w0 & w1 & Hcall).
      { apply elem_of_app. right. by apply list_elem_of_singleton. }
      specialize (Hall p w0). rewrite Hcall in Hall. simpl in Hall.
      exfalso. apply Hall. rewrite Hps. apply elem_of_app. right. by left.
    + destruct (Hexh msg eq_refl) as (_ & _ & p & o & ? & ? & ? & ->).
      by exists p, o.
  - intros Hv. by rewrite Hv in Hr.
  - intros msg H. destruct (Hexh msg H) as (H1 & H2 & p & o & ? & _ & _ & ?).
    split; [exact H1|]. split; [exact H2|]. by exists p, o.
  - intros p res Hin. rewrite Ha in Hin.
    destruct (result out) as [res'|msg|] eqn:Hres; [|..|done].
    + destruct Hr as (pre & q & post & _ & -> & Hpre).
      apply elem_of_app in Hin as [Hin|Hin].
      * rewrite Forall_forall in Hpre. by apply Hpre in Hin.
      * apply list_elem_of_singleton in Hin. by inversion Hin.
    + destruct Hr as (_ & _ & Hall).
      rewrite Forall_forall in Hall. by apply Hall in Hin.
  - by rewrite Ha.
  - exact Hret.
  - intros p Hp Halways.
    destruct (result out) as [res|msg|] eqn:Hres.
    + destruct (Hret res eq_refl) as (pre & q & post & _ & Hatt & _).
      destruct (calls_elem prompt opts w (world out) new q (Returns res) Hc)
        as (w0 & w1 & Hcall).
      { rewrite <- Ha, Hatt. apply elem_of_app. right.
        by apply list_elem_of_singleton. }
      exists q, res, w0, w1. split; [exact Hcall|].
      split; [by rewrite Hatt, last_snoc | reflexivity].
    + exfalso. destruct (Hexh msg eq_refl) as (Hps & Hall & _).
      rewrite <- Hps in Hp. apply list_elem_of_fmap in Hp as ([q o] & -> & Hin).
      rewrite Forall_forall in Hall. pose proof (Hall _ Hin) as Hraised.
      rewrite Ha in Hin.
      destruct (calls_elem prompt opts w (world out) new q o Hc Hin)
        as (w0 & w1 & Hcall).
      destruct (Halways w0) as [res Hres']. cbn [fst] in Hres'.
      rewrite Hcall in Hres'. cbn [fst] in Hres'. subst o. exact Hraised.
    + destruct Hr.
Qed.

End RouterFacts.

Lemma router_complete_first_success_witness :
  exists r,
    Router.LLMRouter_init (Some [Examples.healthy; Examples.limited]) []
    = Router.Constructed r
    /\ Router.result (Router.complete r "hello" tt 2000000 0%nat)
       = Router.Return (JObj [("echo", JStr "hello")])
    /\ Router.last_error (Router.complete r "hello" tt 2000000 0%nat)
       = Some "primary: Groq rate limit reached"
    /\ Router.sleeps (Router.complete r "hello" tt 2000000 0%nat) = [2000000].
Proof.
  destruct (router_complete_first_success
              (Some [Examples.healthy; Examples.limited]) [] "hello" tt
              2000000 0%nat)
    as (r & Hinit & _ & _ & _ & _ & _ & Hpair); [discriminate | lia |].
  exists r. split; [exact Hinit|].
  destruct (Hpair Examples.limited Examples.healthy)
    as (e & wA & res & wB & HA & HB & _ & Hres & Hlast & Hsleeps & _).
  - apply perm_swap.
  - reflexivity.
  - reflexivity.
  - intros w0. eexists. reflexivity.
  - intros w0. eexists. reflexivity.
  - injection HA as <- <-. injection HB as <- <-.
    split; [exact Hres|]. split; [exact Hlast | exact Hsleeps].
Defined.

Lemma router_complete_exhaustion_witness :
  let r := {| Router.providers := [Examples.limited; Examples.broken] |} in
  let r1 := {| Router.providers := [Examples.limited; Examples.healthy] |} in
  Router.result (Router.complete r "hello" tt 2000000 0%nat)
  = Router.RaiseRuntimeError "spare: Groq request failed (401): denied"
  /\ exists res,
       Router.result (Router.complete r1 "hello" tt 2000000 0%nat)
       = Router.Return res.
Proof.
  intros r r1. split.
  - destruct (router_complete_exhaustion r "hello" tt 2000000 0%nat)
      as (Hall & _); [discriminate | lia |].
    destruct Hall as (p & o & Hp & Ho & _ & Hres).
    + intros p w0 Hin.
      apply elem_of_cons in Hin as [->|Hin]; [exact I|].
      apply list_elem_of_singleton in Hin as ->. exact I.
    + injection Hp as <-. rewrite Hres. f_equal.
      vm_compute in Ho. injection Ho as <-. reflexivity.
  - destruct (router_complete_exhaustion r1 "hello" tt 2000000 0%nat)
      as (_ & _ & _ & _ & _ & _ & Hsome); [discriminate | lia |].
    destruct (Hsome Examples.healthy) as (q & res & _ & _ & _ & _ & Hres).
    + apply elem_of_cons. right. apply elem_of_cons. by left.
    + intros w0. eexists. reflexivity.
    + by exists res.
Defined.

(** ** The response normalizer *)

Section NormalizerFacts.

Import Text Normalizer.

Lemma first_of_some {A} (a b : option A) x :
  first_of a b = Some x -> a = Some x \/ b = Some x.
Proof. destruct a; simpl; auto. Qed.

(** A match that succeeds went on with its continuation, on a text no
    longer than the one it started from, and with the group as it was when
    the pattern has none. *)
Lemma rmatch_continues {A} (r : regex) :
  forall l cap (k : list ascii -> list ascii -> option A) x,
    rmatch r l cap k = Some x ->
    exists l1 cap1,
      k l1 cap1 = Some x
      /\ (length l1 <= length l)%nat
      /\ (groupless r = true -> cap1 = cap).
Proof.
  induction r as [|c| | | |r1 IH1 r2 IH2|r1 IH1|r1 IH1|r1 IH1];
    intros l cap k x Hm; simpl in Hm.
  - exists l, cap. auto.
  - destruct l as [|d l']; [discriminate|].
    destruct (is_char c d); [|discriminate].
    exists l', cap. simpl. auto.
  - destruct l as [|d l']; [discriminate|].
    exists l', cap. simpl. auto.
  - destruct l as [|d l']; [discriminate|].
    destruct (is_space d); [|discriminate].
    exists l', cap. simpl. auto.
  - destruct l as [|d l']; [discriminate|].
    destruct (not_brace d); [|discriminate].
    exists l', cap. simpl. auto.
  - apply IH1 in Hm as (l1 & cap1 & Hm & Hlen1 & Hcap1).
    apply IH2 in Hm as (l2 & cap2 & Hm & Hlen2 & Hcap2).
    exists l2, cap2. split; [exact Hm|]. split; [lia|].
    simpl. intros [H1 H2]%andb_prop. rewrite Hcap2, Hcap1 by done. done.
  - revert Hm. generalize (length l) at 1. intros n. revert l cap.
    induction n as [|n IHn]; intros l cap Hm.
    + exists l, cap. auto.
    + apply first_of_some in Hm as [Hm|Hm].
      * apply IH1 in Hm as (l1 & cap1 & Hm & Hlen1 & Hcap1).
        destruct (shorter l1 l); [|discriminate].
        apply IHn in Hm as (l2 & cap2 & Hm & Hlen2 & Hcap2).
        exists l2, cap2. split; [exact Hm|]. split; [lia|].
        simpl in *. intros Hg. rewrite Hcap2, Hcap1 by done. done.
      * exists l, cap. auto.
  - revert Hm. generalize (length l) at 1. intros n. revert l cap.
    induction n as [|n IHn]; intros l cap Hm.
    + apply first_of_some in Hm as [Hm|Hm]; [|discriminate].
      exists l, cap. auto.
    + apply first_of_some in Hm as [Hm|Hm].
      * exists l, cap. auto.
      * apply IH1 in Hm as (l1 & cap1 & Hm & Hlen1 & Hcap1).
        destruct (shorter l1 l); [|discriminate].
        apply IHn in Hm as (l2 & cap2 & Hm & Hlen2 & Hcap2).
        exists l2, cap2. split; [exact Hm|]. split; [lia|].
        simpl in *. intros Hg. rewrite Hcap2, Hcap1 by done. done.
  - apply IH1 in Hm as (l1 & cap1 & Hm & Hlen1 & _).
    eexists l1, _. split; [exact Hm|]. split; [lia | discriminate].
Qed.

Lemma group_captures_object r1 :
  captures_object (Group (Cat (Chr "{") r1)).
Proof.
  intros A l cap k x Hm. cbn [rmatch] in Hm.
  destruct l as [|d l']; [discriminate|].
  destruct (is_char "{" d) eqn:Hd; [|discriminate].
  unfold is_char in Hd. apply Ascii.eqb_eq in Hd. subst d.
  apply rmatch_continues in Hm as (l1 & cap1 & Hm & Hlen & _).
  eexists l1, _. split; [exact Hm|].
  replace (length ("{"%char :: l') - length l1)%nat
    with (S (length l' - length l1)) by (simpl; lia).
  simpl. by eexists.
Qed.

Lemma cat_captures_object_r r1 r2 :
  captures_object r2 -> captures_object (Cat r1 r2).
Proof.
  intros H2 A l cap k x Hm. simpl in Hm.
  apply rmatch_continues in Hm as (l1 & cap1 & Hm & _).
  by apply H2 in Hm.
Qed.

Lemma cat_captures_object_l r1 r2 :
  captures_object r1 -> groupless r2 = true -> captures_object (Cat r1 r2).
Proof.
  intros H1 H2 A l cap k x Hm. simpl in Hm.
  apply H1 in Hm as (l1 & cap1 & Hm & Hopen).
  apply rmatch_continues in Hm as (l2 & cap2 & Hm & _ & Hcap).
  exists l2, cap2. split; [exact Hm|]. by rewrite Hcap.
Qed.

Lemma fenced_patterns_capture_object :
  Forall captures_object fenced_patterns.
Proof.
  unfold fenced_patterns. repeat constructor.
  - apply cat_captures_object_r, cat_captures_object_r.
    apply cat_captures_object_l; [apply group_captures_object | reflexivity].
  - apply cat_captures_object_r, cat_captures_object_r.
    apply cat_captures_object_l; [apply group_captures_object | reflexivity].
  - apply group_captures_object.
Qed.

Lemma findall_from_opens r n :
  captures_object r -> forall l, Forall opens (findall_from n r l).
Proof.
  intros Hr. induction n as [|n IH]; intros l; simpl; [constructor|].
  destruct (rmatch r l [] _) as [[rest cap]|] eqn:Hm.
  - apply Hr in Hm as (l1 & cap1 & [= <- <-] & Hopen).
    constructor; [exact Hopen|]. destruct l; [constructor | apply IH].
  - destruct l; [constructor | apply IH].
Qed.

Lemma chars_text l : chars (text l) = l.
Proof. apply list_ascii_of_string_of_list_ascii. Qed.

Lemma findall_opens r s m :
  captures_object r -> m ∈ findall r s -> opens (chars m).
Proof.
  intros Hr Hin. unfold findall in Hin.
  apply list_elem_of_fmap in Hin as (l & -> & Hin).
  rewrite chars_text.
  pose proof (findall_from_opens r (S (String.length s)) Hr (chars s)) as Hall.
  rewrite Forall_forall in Hall. by apply Hall.
Qed.

Lemma drop_while_last p l c :
  p c = false -> exists m, drop_while p (l ++ [c]) = m ++ [c].
Proof.
  intros Hc. induction l as [|d l IH]; simpl.
  - rewrite Hc. by exists [].
  - destruct (p d); [exact IH|]. by exists (d :: l).
Qed.

Lemma strip_opens s : opens (chars s) -> opens (chars (strip s)).
Proof.
  intros [rest Hs]. unfold strip, strip_chars. rewrite chars_text, Hs. simpl.
  destruct (drop_while_last is_space (rev rest) "{" eq_refl) as [m ->].
  rewrite rev_app_distr. simpl. by eexists.
Qed.

Lemma parse_members_mapping depth :
  forall seen l v rest,
    parse depth (Members seen) l = Some (v, rest) -> is_mapping v = true.
Proof.
  induction depth as [|depth IH]; intros seen l v rest Hp; [discriminate|].
  simpl in Hp.
  destruct l as [|q l1]; [discriminate|].
  destruct (is_char q dq); [|discriminate].
  destruct (scan_string l1) as [[k l2]|]; [|discriminate].
  destruct (skip_ws l2) as [|colon l3]; [discriminate|].
  destruct (is_char colon ":"); [|discriminate].
  destruct (parse depth Value (skip_ws l3)) as [[v1 l4]|]; [|discriminate].
  destruct (skip_ws l4) as [|d l5]; [discriminate|].
  destruct (is_char d ",").
  - by apply IH in Hp.
  - destruct (is_char d "}"); [|discriminate]. by injection Hp as <- _.
Qed.

Lemma json_loads_object s v :
  opens (chars s) -> json_loads s = Some v -> is_mapping v = true.
Proof.
  intros [l1 Hs]. unfold json_loads. rewrite Hs.
  generalize (2 * length ("{"%char :: l1) + 2)%nat. intros depth.
  change (skip_ws ("{"%char :: l1)) with ("{"%char :: l1).
  destruct (parse depth Value ("{"%char :: l1)) as [[v1 rest]|] eqn:Hp;
    [|discriminate].
  destruct (skip_ws rest); [|discriminate]. intros [= <-].
  destruct depth as [|depth]; [discriminate|]. simpl in Hp.
  change (is_char "{" dq) with false in Hp.
  change (is_char "{" "{") with true in Hp. simpl in Hp.
  destruct (skip_ws l1) as [|d l2]; [discriminate|].
  destruct (is_char d "}").
  - by injection Hp as <- _.
  - by apply parse_members_mapping in Hp.
Qed.

Lemma first_parsed_mapping matches v :
  Forall (fun m => opens (chars m)) matches ->
  first_parsed matches = Some v -> is_mapping v = true.
Proof.
  induction 1 as [|m rest Hm Hrest IH]; simpl; [discriminate|].
  destruct (json_loads (strip m)) eqn:Hl.
  - intros [= <-]. eapply json_loads_object; [|exact Hl]. by apply strip_opens.
  - exact IH.
Qed.

Lemma first_recovered_mapping patterns content v :
  Forall captures_object patterns ->
  first_recovered patterns content = Some v -> is_mapping v = true.
Proof.
  induction 1 as [|r rest Hr Hrest IH]; simpl; [discriminate|].
  destruct (first_parsed (findall r content)) eqn:Hf.
  - intros [= <-]. eapply first_parsed_mapping; [|exact Hf].
    apply Forall_forall. intros m Hin. by apply findall_opens with r content.
  - exact IH.
Qed.

(** C4, what the code does.  [_extract_json] returns a mapping, except when
    the whole text, stripped, is JSON: then it returns what [json.loads]
    returned, whatever that is.  On the text of the array of 1 and 2 it
    returns the array, not a mapping. *)
Theorem extract_json_result :
  (forall content,
      is_mapping (_extract_json content) = true
      \/ (content <> ""
          /\ json_loads (strip content) = Some (_extract_json content)))
  /\ _extract_json "[1, 2]" = JArr [JInt 1; JInt 2]
  /\ is_mapping (_extract_json "[1, 2]") = false.
Proof.
  split.
  - intros content. unfold _extract_json.
    destruct (String.eqb_spec content "") as [->|Hne]; [by left|].
    destruct (json_loads (strip content)) as [v|] eqn:Hl; [by right|].
    left. destruct (first_recovered _ _) as [v|] eqn:Hr; [|reflexivity].
    eapply first_recovered_mapping; [|exact Hr].
    apply fenced_patterns_capture_object.
  - split; vm_compute; reflexivity.
Qed.

End NormalizerFacts.

(** ** The rate limiter *)

Section RateLimiterFacts.

Import RateLimiter.

Lemma wait_step_daily depth w l st :
  can_make_call (next_time w) (limiter w) = (Checked false (MsgDailyLimit l), st) ->
  wait_if_needed (S depth) w
  = (Raise (RateLimitExceeded (MsgDailyLimit l)), checked st w).
Proof.
  intros H. simpl. unfold bind, can_make_call_m, bind, datetime_now. simpl.
  rewrite H. reflexivity.
Qed.

Lemma wait_step_error depth w st :
  can_make_call (next_time w) (limiter w) = (CheckValueError, st) ->
  wait_if_needed (S depth) w = (Raise ValueError, checked st w).
Proof.
  intros H. simpl. unfold bind, can_make_call_m, bind, datetime_now. simpl.
  rewrite H. reflexivity.
Qed.

Lemma wait_step_wait depth w k st :
  can_make_call (next_time w) (limiter w) = (Checked false (MsgWait k), st) ->
  0 <= k ->
  wait_if_needed (S depth) w
  = wait_if_needed depth (woken (k * 100000 + 1 * second) (checked st w)).
Proof.
  intros H Hk. simpl. unfold bind at 1. unfold can_make_call_m, bind at 1, datetime_now.
  simpl. rewrite H. simpl. unfold bind, time_sleep.
  assert (Hs : (k * 100000 + 1 * second <? 0) = false) by (unfold second; lia).
  rewrite Hs. unfold woken, checked, with_limiter. simpl.
  destruct (wait_if_needed depth _) as [[]]; reflexivity.
Qed.

Lemma wait_step_ok depth w m st :
  can_make_call (next_time w) (limiter w) = (Checked true m, st) ->
  wait_if_needed (S depth) w = (Ret true, noted (checked st w)).
Proof.
  intros H. simpl. unfold bind, can_make_call_m, bind, datetime_now. simpl.
  rewrite H. reflexivity.
Qed.

Lemma can_make_call_keeps now st :
  let st' := (can_make_call now st).2 in
  calls_per_minute st' = calls_per_minute st
  /\ calls_per_day st' = calls_per_day st
  /\ (daily_calls st' = daily_calls st /\ last_reset st' = last_reset st
      \/ daily_calls st' = 0 /\ last_reset st' = now
         /\ date (last_reset st) < date now)
  /\ (call_times st' = call_times st \/ call_times st' = pruned now (call_times st)).
Proof.
  unfold can_make_call, pruned.
  destruct (Z.gtb_spec (date now) (date (last_reset st))) as [Hday|Hday];
    repeat (match goal with
            | |- context [if ?b then _ else _] => destruct b
            | |- context [match list_min ?l with _ => _ end] => destruct (list_min l)
            end; simpl);
    repeat split; auto.
Qed.

Lemma can_make_call_ok now st m st' :
  can_make_call now st = (Checked true m, st') ->
  call_times st' = pruned now (call_times st)
  /\ Z.of_nat (length (call_times st')) < calls_per_minute st
  /\ daily_calls st' < calls_per_day st.
Proof.
  unfold can_make_call, pruned.
  destruct (date now >? date (last_reset st)); simpl;
    repeat (match goal with
            | |- context [Z.geb ?a ?b] => destruct (Z.geb_spec a b)
            | |- context [match list_min ?l with _ => _ end] => destruct (list_min l)
            end; simpl);
    intros [= <- <-] || intros [= <-]; simpl; repeat split; try done; lia.
Qed.

Lemma can_make_call_wait now st k st' :
  can_make_call now st = (Checked false (MsgWait k), st') ->
  call_times st' = pruned now (call_times st)
  /\ calls_per_minute st <= Z.of_nat (length (call_times st'))
  /\ daily_calls st' < calls_per_day st
  /\ exists oldest,
      list_min (call_times st') = Some oldest
      /\ k = round_tenths (oldest + minute - now).
Proof.
  unfold can_make_call, pruned.
  destruct (date now >? date (last_reset st)); simpl;
    repeat (match goal with
            | |- context [Z.geb ?a ?b] => destruct (Z.geb_spec a b)
            | |- context [match list_min ?l with _ => _ end] =>
                destruct (list_min l) eqn:?
            end; simpl);
    intros [= <- <-] || intros [= <-]; simpl; repeat split; try done; try lia;
    eauto.
Qed.

Lemma can_make_call_daily now st l st' :
  can_make_call now st = (Checked false (MsgDailyLimit l), st') ->
  l = calls_per_day st
  /\ call_times st' = call_times st
  /\ calls_per_day st <= daily_calls st'.
Proof.
  unfold can_make_call, pruned.
  destruct (date now >? date (last_reset st)); simpl;
    repeat (match goal with
            | |- context [Z.geb ?a ?b] => destruct (Z.geb_spec a b)
            | |- context [match list_min ?l with _ => _ end] =>
                destruct (list_min l) eqn:?
            end; simpl);
    intros [= <- <-] || intros [= <-]; simpl; repeat split; try done; try lia.
Qed.

Lemma can_make_call_not_ok now st st' :
  can_make_call now st <> (Checked false MsgOK, st').
Proof.
  unfold can_make_call.
  repeat (match goal with
          | |- context [if ?b then _ else _] => destruct b
          | |- context [match list_min ?l with _ => _ end] => destruct (list_min l)
          end; simpl); discriminate.
Qed.

Lemma can_make_call_error now st st' :
  can_make_call now st = (CheckValueError, st') ->
  calls_per_minute st <= 0.
Proof.
  unfold can_make_call, pruned.
  destruct (date now >? date (last_reset st)); simpl;
    repeat (match goal with
            | |- context [Z.geb ?a ?b] => destruct (Z.geb_spec a b)
            | |- context [match list_min ?l with _ => _ end] =>
                destruct (list_min l) eqn:Hmin
            end; simpl); try discriminate; intros _;
    match goal with
    | H : list_min ?l = None |- _ => destruct l; [simpl in *; lia|]
    end; simpl in Hmin; destruct (list_min _); discriminate.
Qed.

Lemma list_min_spec l m :
  list_min l = Some m -> m ∈ l /\ Forall (fun t => m <= t) l.
Proof.
  revert m. induction l as [|t l IH]; intros m; simpl; [discriminate|].
  destruct (list_min l) as [m'|] eqn:Hl.
  - intros [= <-]. destruct (IH m' eq_refl) as [Hin Hall]. split.
    + destruct (Z.min_spec t m') as [[_ ->]|[_ ->]]; [left | by right].
    + constructor; [lia|]. eapply Forall_impl; [exact Hall|].
      intros x Hx. simpl in Hx. lia.
  - intros [= <-]. destruct l; [|simpl in Hl; destruct (list_min l); discriminate].
    split; [left | repeat constructor; lia].
Qed.

Lemma round_half_even_spec n d :
  0 <= n -> 0 < d ->
  0 <= round_half_even n d
  /\ 2 * round_half_even n d * d <= 2 * n + d
  /\ 2 * n <= 2 * round_half_even n d * d + d.
Proof.
  intros Hn Hd. unfold round_half_even.
  pose proof (Z.div_mod n d ltac:(lia)) as Hdm.
  pose proof (Z.mod_pos_bound n d Hd) as Hr.
  pose proof (Z.div_pos n d Hn Hd) as Hq.
  destruct (Z.ltb_spec (2 * (n mod d)) d);
    [|destruct (Z.ltb_spec d (2 * (n mod d))); [|destruct (Z.even (n / d))]];
    nia.
Qed.

Lemma total_seconds_spec us :
  0 < us ->
  let '(m, e) := total_seconds us in
  0 <= m
  /\ e <= Z.log2 us - 71
  /\ (e < 0 ->
      2 * m * 1000000 <= 2 * (us * 2 ^ (- e)) + 1000000
      /\ 2 * (us * 2 ^ (- e)) <= 2 * m * 1000000 + 1000000).
Proof.
  intros Hus. unfold total_seconds. cbv zeta.
  assert (He : exponent us <= Z.log2 us - 71).
  { unfold exponent. cbv zeta. generalize (Z.log2 us). intros k.
    destruct (_ <? _); lia. }
  set (e := exponent us) in *.
  assert (Hs : 0 <= (scaled us e).1 /\ 0 < (scaled us e).2).
  { unfold scaled. destruct (Z.leb_spec 0 e); cbn [fst snd].
    - pose proof (Z.pow_pos_nonneg 2 e ltac:(lia) ltac:(lia)). lia.
    - pose proof (Z.pow_pos_nonneg 2 (- e) ltac:(lia) ltac:(lia)). nia. }
  destruct Hs as [Hs1 Hs2].
  destruct (round_half_even_spec _ _ Hs1 Hs2) as (H0 & H1 & H2).
  split; [exact H0|]. split; [exact He|].
  intros Hneg. unfold scaled in *.
  destruct (Z.leb_spec 0 e); [lia|]. cbn [fst snd] in *. lia.
Qed.

Lemma round_tenths_nonneg x : 0 <= x -> 0 <= round_tenths x.
Proof.
  intros Hx. unfold round_tenths.
  destruct (Z.eqb_spec x 0); [lia|].
  assert (Hpos : 0 < Z.abs x) by lia.
  pose proof (total_seconds_spec (Z.abs x) Hpos) as Hts.
  destruct (total_seconds (Z.abs x)) as [m e].
  destruct Hts as (Hm & _ & _).
  assert (Hsg : Z.sgn x = 1) by (apply Z.sgn_pos; lia). rewrite Hsg.
  destruct (Z.leb_spec 0 e).
  - pose proof (Z.pow_pos_nonneg 2 e). nia.
  - pose proof (Z.pow_pos_nonneg 2 (- e) ltac:(lia) ltac:(lia)) as Hp.
    destruct (round_half_even_spec (10 * m) (2 ^ (- e)) ltac:(lia) Hp) as (H0 & _).
    lia.
Qed.

(** What [f"{wait_time:.1f}"] gives at durations that end in 5 hundredths:
    0.05, 0.15, 0.25, 0.35, 0.45, 0.75 and 59.95 seconds. *)
Lemma round_tenths_ties :
  round_tenths <$> [50000; 150000; 250000; 350000; 450000; 750000; 59950000]
  = [1; 1; 2; 3; 5; 8; 600].
Proof. vm_compute. reflexivity. Qed.

(** For a duration of less than a year the text names it to within a
    twentieth of a second. *)
Lemma round_tenths_near x :
  0 <= x < 2 ^ 45 ->
  x - 50000 <= round_tenths x * 100000 <= x + 50000.
Proof.
  intros [Hx Hb]. unfold round_tenths.
  destruct (Z.eqb_spec x 0); [lia|].
  assert (Hpos : 0 < Z.abs x) by lia.
  pose proof (total_seconds_spec (Z.abs x) Hpos) as Hts.
  destruct (total_seconds (Z.abs x)) as [m e].
  destruct Hts as (Hm & He & Hnear).
  assert (Hsg : Z.sgn x = 1) by (apply Z.sgn_pos; lia). rewrite Hsg.
  rewrite Z.abs_eq in * by lia.
  assert (Hlog : Z.log2 x < 45) by (apply Z.log2_lt_pow2; lia).
  assert (Hneg : e <= -27) by lia.
  destruct (Z.leb_spec 0 e); [lia|].
  destruct (Hnear ltac:(lia)) as [Hn1 Hn2].
  assert (Hp : 2 ^ 27 <= 2 ^ (- e)) by (apply Z.pow_le_mono_r; lia).
  set (P := 2 ^ (- e)) in *.
  destruct (round_half_even_spec (10 * m) P ltac:(lia) ltac:(lia))
    as (H0 & H1 & H2).
  set (T := round_half_even (10 * m) P) in *.
  change (2 ^ 27) with 134217728 in Hp.
  split; nia.
Qed.

Lemma next_time_ge w : clock w <= next_time w.
Proof. unfold next_time. lia. Qed.

Lemma pruned_pruned now now' l :
  now <= now' -> pruned now' (pruned now l) = pruned now' l.
Proof.
  intros Hle. unfold pruned. induction l as [|t l IH]; [reflexivity|].
  rewrite !filter_cons.
  destruct (decide (now - minute < t)), (decide (now' - minute < t));
    rewrite ?filter_cons; repeat case_decide; try lia; by rewrite ?IH.
Qed.

Lemma pruned_length now l : (length (pruned now l) <= length l)%nat.
Proof. apply length_filter. Qed.

Lemma window_past T l :
  Forall (fun t => t <= T) l -> window T l = pruned T l.
Proof.
  unfold window, pruned, in_window. induction 1 as [|t l Ht Hl IH]; [reflexivity|].
  rewrite !filter_cons, IH.
  repeat case_decide; try reflexivity; lia.
Qed.

Lemma consistent_checked per_minute w :
  consistent per_minute w ->
  consistent per_minute (checked (can_make_call (next_time w) (limiter w)).2 w).
Proof.
  intros [Hpm Hd Ht Hp Hw].
  pose proof (next_time_ge w) as Hge.
  destruct (can_make_call_keeps (next_time w) (limiter w))
    as (Hpm' & _ & Hdaily & Htimes).
  split; simpl; try done.
  - by rewrite Hpm'.
  - destruct Hdaily as [[-> _]|[-> _]]; lia.
  - intros now Hnow. destruct Htimes as [-> | ->].
    + apply Ht. lia.
    + rewrite pruned_pruned by done. apply Ht. lia.
  - eapply Forall_impl; [exact Hp|]. simpl. intros; lia.
Qed.

Lemma consistent_woken per_minute d w :
  0 <= d -> consistent per_minute w -> consistent per_minute (woken d w).
Proof.
  intros Hd0 [Hpm Hd Ht Hp Hw].
  pose proof (next_time_ge w) as Hge.
  split; simpl; try done.
  - intros now Hnow. apply Ht. lia.
  - eapply Forall_impl; [exact Hp|]. simpl. intros; lia.
Qed.

Lemma consistent_noted per_minute w :
  consistent per_minute w ->
  Z.of_nat (length (pruned (clock w) (recorded w))) < per_minute ->
  consistent per_minute (noted w).
Proof.
  intros [Hpm Hd Ht Hp Hw] Hfree.
  pose proof (next_time_ge w) as Hge.
  split; simpl; try done.
  - lia.
  - intros now Hnow. unfold pruned in *. rewrite !filter_app. f_equal.
    apply Ht. lia.
  - apply Forall_app. split.
    + eapply Forall_impl; [exact Hp|]. simpl. intros; lia.
    + by repeat constructor.
  - intros T. unfold window. rewrite filter_app, length_app.
    rewrite filter_cons, filter_nil.
    destruct (decide (in_window T (next_time w))) as [Hin|Hout]; simpl.
    + fold (window T (recorded w)). rewrite window_past.
      * rewrite <- (pruned_pruned (clock w) T) by (unfold in_window in Hin; lia).
        pose proof (pruned_length T (pruned (clock w) (recorded w))). lia.
      * eapply Forall_impl; [exact Hp|]. simpl. unfold in_window in Hin.
        intros; lia.
    + specialize (Hw T). unfold window in Hw. lia.
Qed.

(** An admission attempt, however it ends, keeps the world consistent. *)
Lemma consistent_wait_if_needed per_minute depth :
  forall w, consistent per_minute w ->
            consistent per_minute (wait_if_needed depth w).2.
Proof.
  induction depth as [|depth IH]; intros w Hw; [exact Hw|].
  pose proof (consistent_checked per_minute w Hw) as Hc.
  destruct (can_make_call (next_time w) (limiter w)) as [c st'] eqn:Hcall.
  simpl in Hc.
  destruct c as [[|] m|].
  - rewrite (wait_step_ok depth w m st' Hcall). simpl.
    apply consistent_noted; [exact Hc|]. simpl.
    destruct (can_make_call_ok _ _ _ _ Hcall) as (Hct & Hlen & _).
    rewrite <- (cons_times _ _ Hw (next_time w) (next_time_ge w)).
    rewrite <- Hct, (cons_per_minute _ _ Hw) in *. exact Hlen.
  - destruct m as [|l|k].
    + by apply can_make_call_not_ok in Hcall.
    + by rewrite (wait_step_daily depth w l st' Hcall).
    + destruct (can_make_call_wait _ _ _ _ Hcall)
        as (Hct & _ & _ & oldest & Hmin & ->).
      assert (Hk : 0 <= round_tenths (oldest + minute - next_time w)).
      { apply list_min_spec in Hmin as [Hin _]. rewrite Hct in Hin.
        apply list_elem_of_filter in Hin as [Hin _].
        pose proof (round_tenths_nonneg (oldest + minute - next_time w)). lia. }
      rewrite (wait_step_wait depth w _ st' Hcall Hk).
      apply IH, consistent_woken; [unfold second; lia | exact Hc].
  - by rewrite (wait_step_error depth w st' Hcall).
Qed.

Lemma consistent_fresh per_minute per_day t0 late :
  0 <= per_minute -> consistent per_minute (fresh per_minute per_day t0 late).
Proof.
  intros Hpm. split; simpl; done || lia.
Qed.

Lemma consistent_admissions per_minute per_day t0 late n depth :
  0 <= per_minute ->
  consistent per_minute (admissions n depth (fresh per_minute per_day t0 late)).
Proof.
  intros Hpm. induction n as [|n IH]; simpl.
  - by apply consistent_fresh.
  - by apply consistent_wait_if_needed.
Qed.

(** After a check, the limiter holds the time stamps recorded in the 60
    seconds before the check, when it pruned at all. *)
Lemma pruned_is_window per_minute w :
  consistent per_minute w ->
  pruned (next_time w) (call_times (limiter w))
  = window (next_time w) (recorded w).
Proof.
  intros Hw. pose proof (next_time_ge w) as Hge.
  rewrite (cons_times _ _ Hw) by done. symmetry. apply window_past.
  eapply Forall_impl; [exact (cons_past _ _ Hw)|]. simpl. intros; lia.
Qed.

(** The re-check after the sleep finds room: the oldest time stamp has left
    the window. *)
Lemma recheck_admits per_minute w depth oldest :
  0 < per_minute ->
  consistent per_minute w ->
  Z.of_nat (length (call_times (limiter w))) <= per_minute ->
  daily_calls (limiter w) < calls_per_day (limiter w) ->
  oldest ∈ call_times (limiter w) ->
  oldest + minute < clock w ->
  wait_if_needed (S depth) w
  = (Ret true, noted (checked (can_make_call (next_time w) (limiter w)).2 w)).
Proof.
  intros Hpos Hw Hlen Hdaily Hin Hold.
  pose proof (next_time_ge w) as Hge.
  pose proof (can_make_call_keeps (next_time w) (limiter w)) as Hkeep.
  destruct (can_make_call (next_time w) (limiter w)) as [c st'] eqn:Hcall.
  simpl in *. destruct Hkeep as (_ & _ & Hd & _).
  destruct c as [[|] m|].
  - by apply wait_step_ok with m.
  - exfalso. destruct m as [|l|k].
    + by apply can_make_call_not_ok in Hcall.
    + apply can_make_call_daily in Hcall as (_ & _ & Hfull).
      pose proof (cons_daily _ _ Hw). destruct Hd as [[? _]|[? _]]; lia.
    + apply can_make_call_wait in Hcall as (Hct & Hmany & _).
      rewrite Hct, (cons_per_minute _ _ Hw) in Hmany.
      assert (length (pruned (next_time w) (call_times (limiter w)))
              < length (call_times (limiter w)))%nat; [|lia].
      apply length_filter_lt with oldest; [done | lia].
  - exfalso. apply can_make_call_error in Hcall.
    rewrite (cons_per_minute _ _ Hw) in Hcall. lia.
Qed.

(** A caller that finds the window full is not admitted: it fails on the
    daily quota, or it sleeps until the oldest time stamp of the window is
    more than 60 seconds old and checks again. *)
Lemma admission_delayed per_minute w depth :
  0 < per_minute ->
  consistent per_minute w ->
  per_minute <= Z.of_nat (length (window (next_time w) (recorded w))) ->
  let st' := (can_make_call (next_time w) (limiter w)).2 in
  wait_if_needed (S depth) w
  = (Raise (RateLimitExceeded (MsgDailyLimit (calls_per_day (limiter w)))),
     checked st' w)
  \/ exists oldest,
      list_min (window (next_time w) (recorded w)) = Some oldest
      /\ let wait_time := oldest + minute - next_time w in
         let pause := round_tenths wait_time * 100000 + 1 * second in
         let w1 := woken pause (checked st' w) in
         wait_time + 1 * second - 50000 <= pause <= wait_time + 1 * second + 50000
         /\ wait_if_needed (S depth) w = wait_if_needed depth w1
         /\ recorded w1 = recorded w
         /\ slept w1 = slept w ++ [pause]
         /\ oldest + minute < clock w1
         /\ forall depth', depth = S depth' ->
              wait_if_needed (S depth) w
              = (Ret true,
                 noted (checked (can_make_call (next_time w1) (limiter w1)).2 w1)).
Proof.
  intros Hpos Hw Hfull.
  pose proof (next_time_ge w) as Hge.
  pose proof (consistent_checked per_minute w Hw) as Hc.
  pose proof (pruned_is_window per_minute w Hw) as Hwin.
  pose proof (can_make_call_keeps (next_time w) (limiter w)) as Hkeep.
  destruct (can_make_call (next_time w) (limiter w)) as [c st'] eqn:Hcall.
  cbn [snd] in *. destruct Hkeep as (Hpm & Hpd & _ & _).
  destruct c as [[|] m|].
  - exfalso. apply can_make_call_ok in Hcall as (Hct & Hlen & _).
    rewrite Hct, Hwin, (cons_per_minute _ _ Hw) in Hlen. lia.
  - destruct m as [|l|k].
    + by apply can_make_call_not_ok in Hcall.
    + left. destruct (can_make_call_daily _ _ _ _ Hcall) as (-> & _).
      by apply wait_step_daily.
    + right.
      destruct (can_make_call_wait _ _ _ _ Hcall)
        as (Hct & _ & Hdaily & oldest & Hmin & ->).
      rewrite Hwin in Hct. rewrite Hct in Hmin.
      destruct (list_min_spec _ _ Hmin) as [Hin _].
      assert (Hyoung : next_time w - minute < oldest).
      { unfold window in Hin. apply list_elem_of_filter in Hin as [Hin _].
        unfold in_window in Hin. lia. }
      assert (Hold : oldest <= next_time w).
      { unfold window in Hin. apply list_elem_of_filter in Hin as [Hin _].
        unfold in_window in Hin. lia. }
      assert (Hnear : oldest + minute - next_time w - 50000
                      <= round_tenths (oldest + minute - next_time w) * 100000
                      <= oldest + minute - next_time w + 50000).
      { apply round_tenths_near. clear - Hyoung Hold.
        unfold minute, second in *.
        change (2 ^ 45) with 35184372088832. lia. }
      assert (Hk : 0 <= round_tenths (oldest + minute - next_time w))
        by (apply round_tenths_nonneg; lia).
      exists oldest. split; [exact Hmin|]. cbv zeta.
      set (pause := round_tenths (oldest + minute - next_time w) * 100000
                    + 1 * second) in *.
      assert (Hpause : 0 <= pause) by (unfold pause, second; lia).
      split; [unfold pause, second in *; lia|].
      split; [by apply wait_step_wait|].
      split; [done|]. split; [done|].
      assert (Hclock : oldest + minute
                       < clock (woken pause (checked st' w))).
      { simpl. unfold next_time at 1. simpl. unfold pause, second in *. lia. }
      split; [exact Hclock|].
      intros depth' ->.
      rewrite (wait_step_wait (S depth') w _ st' Hcall Hk). fold pause.
      apply recheck_admits with per_minute oldest; simpl; try done.
      * by apply consistent_woken.
      * rewrite Hct. apply (cons_window _ _ Hw).
      * congruence.
      * by rewrite Hct.
  - exfalso. apply can_make_call_error in Hcall.
    rewrite (cons_per_minute _ _ Hw) in Hcall. lia.
Qed.

Lemma date_mono t t' : t <= t' -> date t <= date t'.
Proof. intros H. unfold date, day, second. apply Z.div_le_mono; lia. Qed.







(** C10.  An admission attempt that raises the quota exception raises it
    for the daily limit and records no call: no time stamp is added, the
    counter of the day is what it was or was reset to zero on a new day, and
    the time stamps held are those held before, or those of them younger
    than 60 seconds at a check the attempt made. *)
Theorem failed_admission_consumes_nothing (depth : nat) :
  forall (w w' : world) (msg : message),
  wait_if_needed depth w = (Raise (RateLimitExceeded msg), w') ->
  msg = MsgDailyLimit (calls_per_day (limiter w))
  /\ recorded w' = recorded w
  /\ calls_per_minute (limiter w') = calls_per_minute (limiter w)
  /\ calls_per_day (limiter w') = calls_per_day (limiter w)
  /\ clock w <= clock w'
  /\ (daily_calls (limiter w') = daily_calls (limiter w)
      /\ last_reset (limiter w') = last_reset (limiter w)
      \/ daily_calls (limiter w') = 0
         /\ date (last_reset (limiter w)) < date (last_reset (limiter w')))
  /\ (call_times (limiter w') = call_times (limiter w)
      \/ exists now, clock w <= now <= clock w'
           /\ call_times (limiter w') = pruned now (call_times (limiter w))).
Proof.
  induction depth as [|depth IH]; intros w w' msg Hrun; [discriminate|].
  pose proof (next_time_ge w) as Hge.
  pose proof (can_make_call_keeps (next_time w) (limiter w)) as Hkeep.
  destruct (can_make_call (next_time w) (limiter w)) as [c st'] eqn:Hcall.
  cbn [snd] in Hkeep. destruct Hkeep as (Hpm & Hpd & Hdaily & Htimes).
  destruct c as [[|] m|].
  - rewrite (wait_step_ok depth w m st' Hcall) in Hrun. discriminate.
  - destruct m as [|l|k].
    + by apply can_make_call_not_ok in Hcall.
    + rewrite (wait_step_daily depth w l st' Hcall) in Hrun.
      injection Hrun as <- <-. simpl.
      destruct (can_make_call_daily _ _ _ _ Hcall) as (-> & Hct & _).
      repeat split; try done.
      * destruct Hdaily as [?|(? & -> & ?)]; [by left | by right].
      * by left.
    + destruct (Z.le_gt_cases 0 k) as [Hk|Hk].
      * rewrite (wait_step_wait depth w _ st' Hcall Hk) in Hrun.
        apply IH in Hrun as (-> & Hrec & Hpm' & Hpd' & Hclock & Hd' & Hct').
        pose proof (next_time_ge (checked st' w)) as Hge'.
        simpl in Hrec, Hpm', Hpd', Hclock, Hd', Hct', Hge'.
        assert (Hsleep : 0 <= k * 100000 + 1 * second) by (unfold second; lia).
        split; [simpl; congruence|]. split; [done|]. split; [congruence|].
        split; [congruence|]. split; [lia|]. split.
        -- destruct Hd' as [[Hd1 Hd2]|[Hd1 Hd2]].
           ++ rewrite Hd1, Hd2.
              destruct Hdaily as [?|(? & Hr & ?)]; [by left | right].
              by rewrite Hr.
           ++ right. split; [done|].
              destruct Hdaily as [[_ <-]|(_ & Heq & ?)]; [done|].
              rewrite Heq in Hd2. lia.
        -- destruct (can_make_call_wait _ _ _ _ Hcall) as (Hct & _).
           right. destruct Hct' as [Heq|(now & Hnow & Heq)]; rewrite Heq, Hct.
           ++ exists (next_time w). split; [lia | done].
           ++ exists now. split; [lia|]. apply pruned_pruned. lia.
      * destruct (can_make_call_wait _ _ _ _ Hcall)
          as (Hct & _ & _ & oldest & Hmin & ->).
        apply list_min_spec in Hmin as [Hin _]. rewrite Hct in Hin.
        apply list_elem_of_filter in Hin as [Hin _].
        pose proof (round_tenths_nonneg (oldest + minute - next_time w)). lia.
  - rewrite (wait_step_error depth w st' Hcall) in Hrun. discriminate.
Qed.

(** What an attempt leaves recorded, by how it ended. *)
Lemma wait_if_needed_recorded (d : nat) :
  forall w,
    match (wait_if_needed d w).1 with
    | Ret b =>
        b = true
        /\ recorded (wait_if_needed d w).2
           = recorded w ++ [clock (wait_if_needed d w).2]
    | _ => recorded (wait_if_needed d w).2 = recorded w
    end.
Proof.
  induction d as [|d IH]; intros w; [done|].
  destruct (can_make_call (next_time w) (limiter w)) as [c st'] eqn:Hcall.
  destruct c as [[|] m|].
  - by rewrite (wait_step_ok d w m st' Hcall).
  - destruct m as [|l|k].
    + by apply can_make_call_not_ok in Hcall.
    + by rewrite (wait_step_daily d w l st' Hcall).
    + destruct (Z.le_gt_cases 0 k) as [Hk|Hk].
      * rewrite (wait_step_wait d w _ st' Hcall Hk).
        exact (IH (woken (k * 100000 + 1 * second) (checked st' w))).
      * destruct (can_make_call_wait _ _ _ _ Hcall)
          as (Hct & _ & _ & oldest & Hmin & ->).
        apply list_min_spec in Hmin as [Hin _]. rewrite Hct in Hin.
        apply list_elem_of_filter in Hin as [Hin _].
        pose proof (round_tenths_nonneg (oldest + minute - next_time w)). lia.
  - by rewrite (wait_step_error d w st' Hcall).
Qed.

(** C5, what the code does.  For attempts made one after the other on a
    limiter with a positive [calls_per_minute], no window of 60 seconds holds
    more than [calls_per_minute] recorded time stamps, and the time stamps
    recorded are those of the attempts that returned: an attempt that returns
    returns [True] and has recorded one time stamp, the time of recording,
    and one that does not has recorded none.  An attempt that finds the
    window full records nothing at first: unless the daily quota fails it, it
    sleeps for the time until the oldest time stamp of the window is 60
    seconds old, as the message names it to a tenth of a second, plus one
    second, after which that time stamp is out of the window, and checks
    again; that second check admits it.  For attempts that overlap the bound
    does not hold: with three callers on a limiter of two calls a minute,
    each checking before any has recorded, all three are admitted within two
    microseconds. *)
Theorem rate_limiter_minute_window
    (per_minute per_day t0 : Z) (late : list N) (n depth : nat) :
  0 < per_minute ->
  let w := admissions n depth (fresh per_minute per_day t0 late) in
  (forall T, Z.of_nat (length (window T (recorded w))) <= per_minute)
  /\ match (wait_if_needed depth w).1 with
     | Ret b =>
         b = true
         /\ recorded (wait_if_needed depth w).2
            = recorded w ++ [clock (wait_if_needed depth w).2]
     | _ => recorded (wait_if_needed depth w).2 = recorded w
     end
  /\ (forall depth',
      per_minute <= Z.of_nat (length (window (next_time w) (recorded w))) ->
      let st' := (can_make_call (next_time w) (limiter w)).2 in
      wait_if_needed (S depth') w
      = (Raise (RateLimitExceeded (MsgDailyLimit (calls_per_day (limiter w)))),
         checked st' w)
      \/ exists oldest,
          list_min (window (next_time w) (recorded w)) = Some oldest
          /\ let wait_time := oldest + minute - next_time w in
             let pause := round_tenths wait_time * 100000 + 1 * second in
             let w1 := woken pause (checked st' w) in
             wait_time + 1 * second - 50000 <= pause
                                          <= wait_time + 1 * second + 50000
             /\ wait_if_needed (S depth') w = wait_if_needed depth' w1
             /\ recorded w1 = recorded w
             /\ slept w1 = slept w ++ [pause]
             /\ oldest + minute < clock w1
             /\ forall depth'', depth' = S depth'' ->
                  wait_if_needed (S depth') w
                  = (Ret true,
                     noted (checked
                              (can_make_call (next_time w1) (limiter w1)).2 w1)))
  /\ let schedule :=
       [Interleaving.Acquire 0; Interleaving.Leave 0;
        Interleaving.Acquire 1; Interleaving.Leave 1;
        Interleaving.Acquire 2; Interleaving.Leave 2;
        Interleaving.Acquire 0; Interleaving.Leave 0; Interleaving.Pass 1;
        Interleaving.Acquire 1; Interleaving.Leave 1; Interleaving.Pass 1;
        Interleaving.Acquire 2; Interleaving.Leave 2] in
     let all_recorded :=
       {| calls_per_minute := 2; calls_per_day := 10; call_times := [0; 1; 2];
          daily_calls := 3; last_reset := 0 |} in
     Interleaving.run (take 6 schedule) (Interleaving.start 2 10 0 3)
     = Some {| Interleaving.limiter := init 2 10 0;
               Interleaving.lock := None; Interleaving.clock := 0;
               Interleaving.callers :=
                 [Interleaving.AtRecord; Interleaving.AtRecord;
                  Interleaving.AtRecord] |}
     /\ Interleaving.run schedule (Interleaving.start 2 10 0 3)
        = Some {| Interleaving.limiter := all_recorded;
                  Interleaving.lock := None; Interleaving.clock := 2;
                  Interleaving.callers :=
                    [Interleaving.Returned; Interleaving.Returned;
                     Interleaving.Returned] |}
     /\ window 2 (call_times all_recorded) = [0; 1; 2]
     /\ calls_per_minute all_recorded
        < Z.of_nat (length (window 2 (call_times all_recorded))).
Proof.
  intros Hpos w.
  assert (Hw : consistent per_minute w)
    by (apply consistent_admissions; lia).
  split; [apply (cons_window _ _ Hw)|].
  split; [apply wait_if_needed_recorded|].
  split; [intros depth' Hfull; by apply admission_delayed with per_minute|].
  cbv zeta. split; [vm_compute; reflexivity|].
  split; [vm_compute; reflexivity|].
  split; vm_compute; reflexivity.
Qed.

End RateLimiterFacts.

Lemma rate_limiter_minute_window_witness :
  0 < 2
  /\ Z.of_nat (length (RateLimiter.window 13
                         (RateLimiter.recorded Examples.two_admitted))) <= 2
  /\ RateLimiter.recorded Examples.two_admitted = [6; 13].
Proof.
  split; [lia|].
  destruct (rate_limiter_minute_window 2 10 0 [5%N; 1%N; 7%N] 2 3 ltac:(lia))
    as (Hwindow & _).
  split; [exact (Hwindow 13) | vm_compute; reflexivity].
Defined.


Lemma failed_admission_consumes_nothing_witness :
  RateLimiter.recorded (RateLimiter.wait_if_needed 3 Examples.quota_used).2
  = RateLimiter.recorded Examples.quota_used.
Proof.
  apply (failed_admission_consumes_nothing 3 Examples.quota_used
           (RateLimiter.wait_if_needed 3 Examples.quota_used).2
           (RateLimiter.MsgDailyLimit 2)).
  reflexivity.
Defined.

(** ** Callers that overlap *)

Section InterleavingFacts.

Import RateLimiter Interleaving.

Lemma exclusive_step a s s' :
  exclusive s -> step a s = Some s' -> exclusive s'.
Proof.
  unfold exclusive. intros Hex Hstep.
  destruct a as [i|i|i|d]; simpl in Hstep.
  - destruct (lock s) eqn:Hlock; [discriminate|].
    destruct (callers s !! i) as [p0|] eqn:Hi; [|discriminate].
    assert (Hlt : (i < length (callers s))%nat) by (by eapply lookup_lt_Some).
    destruct p0; try discriminate; injection Hstep as <-; simpl;
      intros j p Hj; unfold set_caller in Hj;
      (destruct (decide (i = j)) as [<-|Hne];
       [rewrite list_lookup_insert_eq in Hj by done; injection Hj as <-; done
       |rewrite list_lookup_insert_ne in Hj by done;
        specialize (Hex j p Hj); split; [intros Hc; apply Hex in Hc; done
                                        |intros [= ->]; done]]).
  - destruct (decide (lock s = Some i)) as [Hlock|]; [|discriminate].
    destruct (callers s !! i) as [p0|] eqn:Hi; [|discriminate].
    assert (Hlt : (i < length (callers s))%nat) by (by eapply lookup_lt_Some).
    assert (Hfree : forall p1, critical p1 = false ->
              forall j p, <[i:=p1]> (callers s) !! j = Some p ->
                          critical p = true <-> None = Some j).
    { intros p1 Hp1 j p Hj. destruct (decide (i = j)) as [<-|Hne].
      - rewrite list_lookup_insert_eq in Hj by done. injection Hj as <-.
        by rewrite Hp1.
      - rewrite list_lookup_insert_ne in Hj by done.
        specialize (Hex j p Hj). rewrite Hlock in Hex.
        split; [intros Hc; apply Hex in Hc; congruence | done]. }
    destruct p0; try discriminate.
    + destruct (can_make_call (clock s) (limiter s)) as [c st].
      injection Hstep as <-. simpl. apply Hfree.
      destruct c as [[|] m|]; simpl; [done| |done]. by destruct (has_Wait m).
    + injection Hstep as <-. simpl. by apply Hfree.
  - destruct (callers s !! i) as [p0|] eqn:Hi; [|discriminate].
    assert (Hlt : (i < length (callers s))%nat) by (by eapply lookup_lt_Some).
    destruct p0; try discriminate.
    destruct (until <=? clock s); [|discriminate].
    injection Hstep as <-. simpl. intros j p Hj. unfold set_caller in Hj.
    destruct (decide (i = j)) as [<-|Hne].
    + rewrite list_lookup_insert_eq in Hj by done. injection Hj as <-.
      pose proof (Hex i (Sleeping until) Hi) as Hs. simpl in *.
      split; [done | by intros ?%Hs].
    + rewrite list_lookup_insert_ne in Hj by done. by apply Hex.
  - injection Hstep as <-. simpl. exact Hex.
Qed.

(** Each body under [with self.lock] runs for one caller at a time: in every
    state a schedule leads to, a caller is inside [can_make_call] or
    [record_call] exactly when it holds the lock. *)
Lemma exclusive_run schedule :
  forall s s', exclusive s -> run schedule s = Some s' -> exclusive s'.
Proof.
  induction schedule as [|a rest IH]; intros s s' Hex Hrun; simpl in Hrun.
  - by injection Hrun as <-.
  - destruct (step a s) as [s1|] eqn:Hstep; [|discriminate].
    eapply IH; [|exact Hrun]. by eapply exclusive_step.
Qed.

Lemma exclusive_start per_minute per_day t0 n :
  exclusive (start per_minute per_day t0 n).
Proof.
  intros i p Hi. simpl in *. apply lookup_replicate in Hi as [-> _]. done.
Qed.

(** C9, what the code does.  Two callers on a limiter of one call a minute:
    the first checks and is told yes; before it records, the lock is free,
    and the second checks and is told yes too; both record.  The schedule
    runs, the lock is free after the first check, both callers are past
    their check before either records, and at the end both have returned,
    with two time stamps inside one minute. *)
Theorem overlapping_admissions_exceed_limit :
  let s0 := start 1 10 0 2 in
  let schedule :=
    [Acquire 0; Leave 0; Acquire 1; Leave 1;
     Acquire 0; Leave 0; Pass 5; Acquire 1; Leave 1] in
  let both_recorded :=
    {| calls_per_minute := 1; calls_per_day := 10; call_times := [0; 5];
       daily_calls := 2; last_reset := 0 |} in
  run (take 2 schedule) s0
  = Some {| Interleaving.limiter := init 1 10 0; lock := None;
            Interleaving.clock := 0; callers := [AtRecord; AtCheck] |}
  /\ run (take 4 schedule) s0
     = Some {| Interleaving.limiter := init 1 10 0; lock := None;
               Interleaving.clock := 0; callers := [AtRecord; AtRecord] |}
  /\ run schedule s0
     = Some {| Interleaving.limiter := both_recorded; lock := None;
               Interleaving.clock := 5; callers := [Returned; Returned] |}
  /\ window 5 (call_times both_recorded) = [0; 5]
  /\ calls_per_minute both_recorded
     < Z.of_nat (length (window 5 (call_times both_recorded))).
Proof.
  cbv zeta. split; [vm_compute; reflexivity|].
  split; [vm_compute; reflexivity|].
  split; [vm_compute; reflexivity|].
  split; vm_compute; reflexivity.
Qed.

End InterleavingFacts.

(** ** The response cache *)

Section CacheFacts.

Import Cache.
Variable md5_hexdigest : string -> string.



End CacheFacts.


(** ** The analysis service *)

Section AnalysisFacts.

Import Router Cache Analysis.
Context {W : Type}.
Variable md5_hexdigest : string -> string.
Variable json_dumps : json -> string.

Abbreviation service_world := (Analysis.world W).
Abbreviation key_of := (cache_key_payload json_dumps).

Lemma analyze_remote_ok (router : LLMRouter W options)
    (email_content subject sender_email : string) (w : service_world) r w' :
  analyze_remote md5_hexdigest json_dumps router email_content subject
    sender_email w = (Analysed r, w') ->
  exists fields,
    result (router_complete router subject sender_email email_content w)
    = Return (JObj fields)
    /\ r = {| data := formatted_data fields; provider := "ai";
              latency_seconds :=
                next_time (after_complete
                             (router_complete router subject sender_email
                                email_content w) (tick w))
                - next_time w |}
    /\ w' = note_api_call
              (store md5_hexdigest (key_of subject sender_email email_content)
                 (formatted_data fields) "sentiment_ai"
                 (tick (after_complete
                          (router_complete router subject sender_email
                             email_content w) (tick w)))).
Proof.
  unfold analyze_remote. cbv zeta.
  destruct (result _) as [res|msg|]; [|discriminate..].
  destruct res as [| | | | | |fields]; try discriminate.
  intros [= <- <-]. by exists fields.
Qed.

(** C3, as the code has it.  When [analyze] returns, the [provider] field
    of what it returns is ["cache"] exactly when the request found its answer
    in the cache, and then the latency is 0 and the data is the cached
    payload; otherwise the field is the text ["ai"], whichever provider
    served the request, and the data is the mapping built from the dict that
    provider returned, which [LLMRouter.complete] hands over as it is. *)
Theorem analyze_provider_field (router : LLMRouter W options)
    (email_content subject sender_email : string) (w : service_world)
    (r : AnalysisResult) (w' : service_world) :
  analyze md5_hexdigest json_dumps router email_content subject sender_email w
  = (Analysed r, w') ->
  let hit := cache_hit md5_hexdigest json_dumps email_content subject
               sender_email w in
  (provider r = "cache" <-> hit)
  /\ (hit ->
      latency_seconds r = 0
      /\ data r = (lookup md5_hexdigest
                     (key_of subject sender_email email_content)
                     "sentiment_ai" w).1)
  /\ (~ hit ->
      provider r = "ai"
      /\ exists served fields tried,
          attempts (router_complete router subject sender_email email_content
                      (before_remote md5_hexdigest json_dumps email_content subject
                         sender_email w))
          = tried ++ [(served, Returns (JObj fields))]
          /\ result (router_complete router subject sender_email email_content
                       (before_remote md5_hexdigest json_dumps email_content subject
                         sender_email w))
             = Return (JObj fields)
          /\ data r = formatted_data fields).
Proof.
  intros Hrun. cbv zeta. unfold analyze, cache_hit, before_remote in *.
  assert (Hremote : forall w0,
    analyze_remote md5_hexdigest json_dumps router email_content subject
      sender_email w0 = (Analysed r, w') ->
    provider r = "ai"
    /\ exists served fields tried,
        attempts (router_complete router subject sender_email email_content w0)
        = tried ++ [(served, Returns (JObj fields))]
        /\ result (router_complete router subject sender_email email_content w0)
           = Return (JObj fields)
        /\ data r = formatted_data fields).
  { intros w0 H0. apply analyze_remote_ok in H0 as (fields & Hres & -> & _).
    split; [reflexivity|].
    unfold router_complete, complete in *.
    destruct (complete_loop_run (providers router)
                (prompt_of subject sender_email email_content) analyze_options
                2000000 None (outside w0) [] [] ltac:(lia))
      as (new & Ha & _ & _ & _ & Hr).
    rewrite Hres in Hr. destruct Hr as (pre & p & post & _ & -> & _).
    exists p, fields, pre. by rewrite Ha. }
  destruct (env_true (DISABLE_CACHE w)); simpl in Hrun.
  - destruct (Hremote w Hrun) as [Hp Hrest].
    split; [rewrite Hp; split; [discriminate | by intros [? _]]|].
    split; [by intros [? _] | by intros _].
  - destruct (lookup md5_hexdigest _ "sentiment_ai" w) as [cached w1] eqn:Hl.
    simpl. destruct (truthy cached) eqn:Ht.
    + injection Hrun as <- <-. simpl.
      split; [done|]. split; [done | by intros []].
    + destruct (Hremote w1 Hrun) as [Hp Hrest].
      split; [rewrite Hp; split; [discriminate | by intros [_ ?]]|].
      split; [by intros [_ ?] | by intros _].
Qed.

(** C8, what the code does.  With [DISABLE_CACHE] set, [analyze] makes no
    look-up, but a request whose completion succeeds still ends in
    [cache_result]: the one cache call made is the store, and the file of the
    request's key holds the result returned. *)
Theorem analyze_stores_with_cache_disabled (router : LLMRouter W options)
    (email_content subject sender_email : string) (w : service_world)
    (r : AnalysisResult) (w' : service_world) :
  env_true (DISABLE_CACHE w) = true ->
  analyze md5_hexdigest json_dumps router email_content subject sender_email w
  = (Analysed r, w') ->
  let key := key_of subject sender_email email_content in
  cache_ops w' = cache_ops w ++ [Store key "sentiment_ai"]
  /\ exists stored,
      files w' = cache_result md5_hexdigest (optimizer w) stored key (data r)
                   "sentiment_ai" (files w)
      /\ files w' !! _get_cache_path (optimizer w)
                       (_get_cache_key md5_hexdigest key "sentiment_ai")
         = Some (CacheFile stored (data r) (Z.of_nat (String.length key))).
Proof.
  unfold analyze. intros -> Hrun. simpl in Hrun.
  apply analyze_remote_ok in Hrun as (fields & _ & -> & ->). simpl.
  split; [reflexivity|].
  eexists. split; [reflexivity|].
  unfold cache_result. apply lookup_insert_eq.
Qed.

End AnalysisFacts.

Lemma analyze_provider_field_witness :
  let out :=
    Analysis.analyze Examples.toy_hash Examples.toy_dumps Examples.one_provider
      "Please send a quote" "Quote" "a@b.c" Examples.cache_on in
  exists r, out.1 = Analysis.Analysed r
            /\ (Analysis.provider r = "cache" <->
                Analysis.cache_hit Examples.toy_hash Examples.toy_dumps
                  "Please send a quote" "Quote" "a@b.c" Examples.cache_on).
Proof.
  intros out.
  destruct out as [res w'] eqn:Hout. subst out.
  assert (Hr : exists r, res = Analysis.Analysed r).
  { apply (f_equal fst) in Hout. vm_compute in Hout. subst res. by eexists. }
  destruct Hr as [r ->]. exists r. split; [reflexivity|].
  apply (analyze_provider_field Examples.toy_hash Examples.toy_dumps
           Examples.one_provider "Please send a quote" "Quote" "a@b.c"
           Examples.cache_on r w' Hout).
Defined.

(** C3, against the claim as stated: a request served by the provider named
    ["groq"] comes back with the [provider] field ["ai"]. *)
Lemma analyze_provider_is_not_the_served_name :
  let w := Examples.cache_on in
  let out :=
    Analysis.analyze Examples.toy_hash Examples.toy_dumps Examples.one_provider
      "Please send a quote" "Quote" "a@b.c" w in
  exists r served res,
    out.1 = Analysis.Analysed r
    /\ Router.attempts
         (Analysis.router_complete Examples.one_provider "Quote" "a@b.c"
            "Please send a quote" w)
       = [(served, Router.Returns res)]
    /\ Router.name (Router.config served) = "groq"
    /\ Analysis.provider r = "ai"
    /\ Analysis.provider r <> Router.name (Router.config served).
Proof.
  intros w out. eexists _, Examples.groq, _.
  split; [reflexivity|]. split; [reflexivity|]. split; [reflexivity|].
  split; [reflexivity | discriminate].
Qed.

Lemma analyze_stores_with_cache_disabled_witness :
  let out :=
    Analysis.analyze Examples.toy_hash Examples.toy_dumps Examples.one_provider
      "Please send a quote" "Quote" "a@b.c" Examples.cache_off in
  Analysis.files Examples.cache_off = ∅
  /\ Analysis.cache_ops out.2
     = [Analysis.Store "Please send a quote" "sentiment_ai"]
  /\ Analysis.files out.2 <> ∅.
Proof.
  intros out. destruct out as [res w'] eqn:Hout. subst out.
  assert (Hr : exists r, res = Analysis.Analysed r).
  { apply (f_equal fst) in Hout. vm_compute in Hout. subst res. by eexists. }
  destruct Hr as [r ->].
  destruct (analyze_stores_with_cache_disabled Examples.toy_hash
              Examples.toy_dumps Examples.one_provider "Please send a quote"
              "Quote" "a@b.c" Examples.cache_off r w' eq_refl Hout)
    as (Hops & stored & Hfiles & Hfile).
  split; [reflexivity|]. split; [exact Hops|].
  simpl. intros Hempty. rewrite Hempty in Hfile. by rewrite lookup_empty in Hfile.
Defined.

(** ** The rate limiter: further properties *)

Section RateLimiterMoreFacts.

Import RateLimiter RateLimiterMore.

(** X1.  An attempt that returns returns [True] and has recorded exactly
    one call: one time stamp, the time of recording, is added at the end of
    the stamps held and of those recorded, and the counter of the day is one
    more than it was, or one after a reset on a new day. *)
Theorem admission_records_once (depth : nat) :
  forall (w w' : world) (b : bool),
    wait_if_needed depth w = (Ret b, w') ->
    b = true
    /\ recorded w' = recorded w ++ [clock w']
    /\ last (call_times (limiter w')) = Some (clock w')
    /\ clock w <= clock w'
    /\ (daily_calls (limiter w') = daily_calls (limiter w) + 1
        /\ last_reset (limiter w') = last_reset (limiter w)
        \/ daily_calls (limiter w') = 1
           /\ date (last_reset (limiter w)) < date (last_reset (limiter w'))).
Proof.
  induction depth as [|depth IH]; intros w w' b Hrun; [discriminate|].
  pose proof (next_time_ge w) as Hge.
  pose proof (can_make_call_keeps (next_time w) (limiter w)) as Hkeep.
  destruct (can_make_call (next_time w) (limiter w)) as [c st'] eqn:Hcall.
  cbn [snd] in Hkeep. destruct Hkeep as (_ & _ & Hdaily & _).
  destruct c as [[|] m|].
  - rewrite (wait_step_ok depth w m st' Hcall) in Hrun.
    injection Hrun as <- <-. simpl.
    pose proof (next_time_ge (checked st' w)) as Hge'. simpl in Hge'.
    split; [done|]. split; [done|]. split; [apply last_snoc|].
    split; [lia|].
    destruct Hdaily as [[-> ->]|(-> & -> & Hlt)]; [by left | right].
    split; [done|].
    pose proof (date_mono _ _ Hge'). lia.
  - destruct m as [|l|k].
    + by apply can_make_call_not_ok in Hcall.
    + rewrite (wait_step_daily depth w l st' Hcall) in Hrun. discriminate.
    + destruct (Z.le_gt_cases 0 k) as [Hk|Hk].
      * rewrite (wait_step_wait depth w _ st' Hcall Hk) in Hrun.
        apply IH in Hrun as (-> & Hrec & Hlast & Hclock & Hd').
        pose proof (next_time_ge (checked st' w)) as Hge'.
        simpl in Hrec, Hclock, Hd', Hge'.
        split; [done|]. split; [done|]. split; [done|].
        split; [unfold second in *; lia|].
        destruct Hd' as [[Hd1 Hd2]|[Hd1 Hd2]].
        -- rewrite Hd1, Hd2.
           destruct Hdaily as [[-> ->]|(-> & Hr & ?)]; [by left | right].
           by rewrite Hr.
        -- right. split; [done|].
           destruct Hdaily as [[_ <-]|(_ & Heq & ?)]; [done|].
           rewrite Heq in Hd2. lia.
      * destruct (can_make_call_wait _ _ _ _ Hcall)
          as (Hct & _ & _ & oldest & Hmin & ->).
        apply list_min_spec in Hmin as [Hin _]. rewrite Hct in Hin.
        apply list_elem_of_filter in Hin as [Hin _].
        pose proof (round_tenths_nonneg (oldest + minute - next_time w)). lia.
  - rewrite (wait_step_error depth w st' Hcall) in Hrun. discriminate.
Qed.

Lemma within_quota_wait_if_needed per_day depth :
  forall w, within_quota per_day w ->
            within_quota per_day (wait_if_needed depth w).2.
Proof.
  induction depth as [|depth IH]; intros w Hw; [exact Hw|].
  destruct Hw as [Hpd Hd].
  pose proof (can_make_call_keeps (next_time w) (limiter w)) as Hkeep.
  destruct (can_make_call (next_time w) (limiter w)) as [c st'] eqn:Hcall.
  cbn [snd] in Hkeep. destruct Hkeep as (_ & Hpd' & Hdaily & _).
  assert (Hst : calls_per_day st' = per_day /\ 0 <= daily_calls st' <= per_day).
  { split; [congruence|]. destruct Hdaily as [[-> _]|[-> _]]; lia. }
  destruct c as [[|] m|].
  - rewrite (wait_step_ok depth w m st' Hcall).
    apply can_make_call_ok in Hcall as (_ & _ & Hfree).
    split; simpl; [tauto | lia].
  - destruct m as [|l|k].
    + by apply can_make_call_not_ok in Hcall.
    + by rewrite (wait_step_daily depth w l st' Hcall).
    + destruct (Z.le_gt_cases 0 k) as [Hk|Hk].
      * rewrite (wait_step_wait depth w _ st' Hcall Hk). by apply IH.
      * destruct (can_make_call_wait _ _ _ _ Hcall)
          as (Hct & _ & _ & oldest & Hmin & ->).
        apply list_min_spec in Hmin as [Hin _]. rewrite Hct in Hin.
        apply list_elem_of_filter in Hin as [Hin _].
        pose proof (round_tenths_nonneg (oldest + minute - next_time w)). lia.
  - by rewrite (wait_step_error depth w st' Hcall).
Qed.

(** X2.  On a limiter created with a daily quota that is not negative,
    after any number of attempts made one after the other, whether they
    returned or raised, the counter of the day lies between zero and the
    quota.  (Attempts that overlap can take it past the quota, as they can
    the calls of a minute.) *)
Theorem daily_counter_within_quota
    (per_minute per_day t0 : Z) (late : list N) (n depth : nat) :
  0 <= per_day ->
  let w := admissions n depth (fresh per_minute per_day t0 late) in
  0 <= daily_calls (limiter w) <= per_day.
Proof.
  intros Hpd w. subst w.
  assert (H : within_quota per_day
                (admissions n depth (fresh per_minute per_day t0 late))).
  { induction n as [|n IH]; simpl.
    - split; simpl; [done | lia].
    - by apply within_quota_wait_if_needed. }
  apply H.
Qed.


Lemma idle_check per_minute per_day w :
  per_minute <= 0 -> 0 < per_day -> idle per_minute per_day w ->
  exists st',
    can_make_call (next_time w) (limiter w) = (CheckValueError, st')
    /\ idle per_minute per_day (checked st' w).
Proof.
  intros Hpm Hpd (Hm & Hd & Ht & Hc & Hr). unfold can_make_call.
  assert (H1 : (0 >=? per_day) = false) by lia.
  assert (H2 : (Z.of_nat 0 >=? per_minute) = true) by (change (Z.of_nat 0) with 0; lia).
  destruct (date (next_time w) >? date (last_reset (limiter w))); simpl;
    rewrite ?Hc, ?Hd, ?Ht, ?Hm, ?H1; simpl; rewrite ?Hm, ?H2;
    eexists; (split; [reflexivity|]); repeat split; done.
Qed.

(** X4.  On a limiter created with [calls_per_minute] zero or less (and a
    positive daily quota), nothing is ever admitted: every attempt ends in
    the [ValueError] of [min] on the empty list of time stamps. *)
Theorem no_admission_without_minute_quota
    (per_minute per_day t0 : Z) (late : list N) (n depth d : nat) :
  per_minute <= 0 -> 0 < per_day ->
  let w := admissions n depth (fresh per_minute per_day t0 late) in
  recorded w = []
  /\ (wait_if_needed (S d) w).1 = Raise ValueError.
Proof.
  intros Hpm Hpd w. subst w.
  assert (Hidle : idle per_minute per_day
                    (admissions n depth (fresh per_minute per_day t0 late))).
  { induction n as [|n IH]; simpl; [by repeat split|].
    destruct depth as [|depth]; [exact IH|].
    destruct (idle_check _ _ _ Hpm Hpd IH) as (st' & Hcall & Hst).
    by rewrite (wait_step_error depth _ st' Hcall). }
  split; [apply Hidle|].
  destruct (idle_check _ _ _ Hpm Hpd Hidle) as (st' & Hcall & _).
  by rewrite (wait_step_error d _ st' Hcall).
Qed.

End RateLimiterMoreFacts.

Section InterleavingMoreFacts.

Import Interleaving.

(** X5.  In every state a schedule of overlapping callers leads to, at most
    one caller is inside the body of [can_make_call] or [record_call], and it
    is the one holding the lock. *)
Theorem lock_bodies_exclusive
    (per_minute per_day t0 : Z) (n : nat) (schedule : list action) (s : state) :
  run schedule (start per_minute per_day t0 n) = Some s ->
  forall i j p q,
    callers s !! i = Some p -> callers s !! j = Some q ->
    critical p = true -> critical q = true ->
    i = j /\ lock s = Some i.
Proof.
  intros Hrun i j p q Hi Hj Hp Hq.
  assert (Hex : exclusive s).
  { eapply exclusive_run; [|exact Hrun]. apply exclusive_start. }
  apply (Hex i p Hi) in Hp. apply (Hex j q Hj) in Hq.
  split; [congruence | exact Hp].
Qed.

End InterleavingMoreFacts.

Lemma admission_records_once_witness :
  let w := RateLimiter.fresh 2 10 0 [5%N; 1%N; 7%N] in
  RateLimiter.recorded (RateLimiter.wait_if_needed 3 w).2 = [6].
Proof.
  intros w.
  destruct (admission_records_once 3 w (RateLimiter.wait_if_needed 3 w).2 true)
    as (_ & Hrec & _); [reflexivity|].
  rewrite Hrec. reflexivity.
Defined.

Lemma daily_counter_within_quota_witness :
  0 <= RateLimiter.daily_calls (RateLimiter.limiter Examples.quota_used) <= 2.
Proof.
  apply (daily_counter_within_quota 5 2 0 [3%N; 4%N] 2 3). lia.
Defined.


Lemma no_admission_without_minute_quota_witness :
  (RateLimiter.wait_if_needed 1 (RateLimiter.fresh 0 10 0 [])).1
  = RateLimiter.Raise RateLimiter.ValueError.
Proof.
  apply (no_admission_without_minute_quota 0 10 0 [] 0 1 0); lia.
Defined.

Lemma lock_bodies_exclusive_witness :
  let s := {| Interleaving.limiter := RateLimiter.init 1 10 0;
              Interleaving.lock := Some 0%nat; Interleaving.clock := 0;
              Interleaving.callers :=
                [Interleaving.InCheck; Interleaving.AtCheck] |} in
  Interleaving.run [Interleaving.Acquire 0] (Interleaving.start 1 10 0 2)
  = Some s
  /\ Interleaving.lock s = Some 0%nat.
Proof.
  intros s.
  assert (Hrun : Interleaving.run [Interleaving.Acquire 0]
                   (Interleaving.start 1 10 0 2) = Some s)
    by (vm_compute; reflexivity).
  split; [exact Hrun|].
  destruct (lock_bodies_exclusive 1 10 0 2 [Interleaving.Acquire 0] s Hrun
              0%nat 0%nat Interleaving.InCheck Interleaving.InCheck
              eq_refl eq_refl eq_refl eq_refl) as [_ Hlock].
  exact Hlock.
Defined.

(** ** The response cache: further properties *)

Section CacheMoreFacts.

Import Cache.

Variable md5_hexdigest : string -> string.

Abbreviation path_of self content ty :=
  (_get_cache_path self (_get_cache_key md5_hexdigest content ty)).

Lemma has_sep_append a b :
  CacheStore.has_sep (a +:+ b) = CacheStore.has_sep a || CacheStore.has_sep b.
Proof.
  induction a as [|c a IH]; [reflexivity|].
  rewrite append_cons. simpl. by rewrite IH, orb_assoc.
Qed.

Lemma path_join_name a b :
  CacheStore.has_sep b = false ->
  path_join a b = CacheStore.dir_prefix a +:+ b.
Proof.
  unfold path_join, CacheStore.dir_prefix. intros Hb.
  destruct b as [|c b'].
  - destruct (String.eqb a "" || ends_with_sep a); [done|].
    by rewrite append_assoc.
  - simpl in Hb. apply orb_false_elim in Hb as [Hc _].
    destruct c as [[] [] [] [] [] [] [] []]; try discriminate Hc;
      (destruct (String.eqb a "" || ends_with_sep a);
       [done | by rewrite append_assoc]).
Qed.

(** X6.  For one and the same content, entries of different analysis types
    live in different files, when the types and the digest hold no path
    separator (as the types the services use and a hexadecimal digest do):
    the two paths are the cache directory followed by two different file
    names, and a store under one type, whatever comes of its write, changes
    neither the file of the other type nor what a look-up under that type
    returns. *)
Theorem cache_types_do_not_collide (disk : string -> CacheStore.writing)
    (self : APIOptimizer) (content ty1 ty2 : string) (v : json)
    (fs : gmap string file) (stored looked_up : Z) :
  ty1 <> ty2 ->
  CacheStore.has_sep ty1 = false ->
  CacheStore.has_sep ty2 = false ->
  CacheStore.has_sep (md5_hexdigest content) = false ->
  let fs1 := CacheStore.cache_result md5_hexdigest disk self stored content v
               ty1 fs in
  (exists name1 name2,
      path_of self content ty1
      = CacheStore.dir_prefix (cache_dir self) +:+ name1
      /\ path_of self content ty2
         = CacheStore.dir_prefix (cache_dir self) +:+ name2
      /\ name1 <> name2
      /\ CacheStore.has_sep name1 = false
      /\ CacheStore.has_sep name2 = false)
  /\ (get_cached_result md5_hexdigest self looked_up content ty2 fs1).1
     = (get_cached_result md5_hexdigest self looked_up content ty2 fs).1
  /\ fs1 !! path_of self content ty2 = fs !! path_of self content ty2.
Proof.
  intros Hne H1 H2 Hh fs1. subst fs1.
  assert (Hname : forall ty, CacheStore.has_sep ty = false ->
            CacheStore.has_sep
              (_get_cache_key md5_hexdigest content ty +:+ ".json") = false).
  { intros ty Hty. unfold _get_cache_key.
    by rewrite !has_sep_append, Hty, Hh. }
  assert (Hpath : forall ty, CacheStore.has_sep ty = false ->
            path_of self content ty
            = CacheStore.dir_prefix (cache_dir self)
              +:+ (_get_cache_key md5_hexdigest content ty +:+ ".json")).
  { intros ty Hty. unfold _get_cache_path. by apply path_join_name, Hname. }
  assert (Hnames : _get_cache_key md5_hexdigest content ty1 +:+ ".json"
                   <> _get_cache_key md5_hexdigest content ty2 +:+ ".json").
  { unfold _get_cache_key. intros H. rewrite !append_assoc in H.
    by apply append_inv_tail in H. }
  assert (Hp : path_of self content ty1 <> path_of self content ty2).
  { rewrite (Hpath ty1 H1), (Hpath ty2 H2). intros H.
    by apply append_inv_head in H. }
  assert (Hl : CacheStore.cache_result md5_hexdigest disk self stored content
                 v ty1 fs !! path_of self content ty2
               = fs !! path_of self content ty2).
  { unfold CacheStore.cache_result, cache_result. cbv zeta.
    destruct (CacheStore.has_nul _); [done|].
    destruct (disk _); [|done|]; by rewrite lookup_insert_ne. }
  split.
  { eexists _, _. split; [exact (Hpath ty1 H1)|].
    split; [exact (Hpath ty2 H2)|]. split; [exact Hnames|].
    split; by apply Hname. }
  split; [|exact Hl].
  unfold get_cached_result. cbv zeta. rewrite Hl.
  destruct (fs !! _) as [[ts r len|]|]; try done.
  by destruct (_ >? _).
Qed.

(** X7.  A look-up changes no file but its own, which it can only delete,
    and only when it is a readable entry older than [cache_duration], the
    look-up then returning [None]; and the same look-up made again at once
    returns the same and changes nothing. *)
Theorem cache_lookup_only_deletes_its_own (self : APIOptimizer)
    (content ty : string) (fs : gmap string file) (now : Z) :
  let out := get_cached_result md5_hexdigest self now content ty fs in
  (forall other, other <> path_of self content ty ->
                 out.2 !! other = fs !! other)
  /\ (out.2 = fs
      \/ out.1 = JNull
         /\ out.2 = delete (path_of self content ty) fs
         /\ exists ts r len,
             fs !! path_of self content ty = Some (CacheFile ts r len)
             /\ cache_duration self < now - ts)
  /\ get_cached_result md5_hexdigest self now content ty out.2
     = (out.1, out.2).
Proof.
  unfold get_cached_result. cbv zeta.
  destruct (fs !! path_of self content ty) as [[ts r len|]|] eqn:Hf; simpl.
  - destruct (Z.gtb_spec (now - ts) (cache_duration self)) as [Hold|Hnew]; simpl.
    + split; [intros other Ho; by apply lookup_delete_ne|].
      split; [right; repeat split; eauto|].
      by rewrite lookup_delete_eq.
    + split; [done|]. split; [by left|]. rewrite Hf.
      destruct (Z.gtb_spec (now - ts) (cache_duration self)); [lia | done].
  - split; [done|]. split; [by left|]. by rewrite Hf.
  - split; [done|]. split; [by left|]. by rewrite Hf.
Qed.

(** X8.  Of two stores under one key, a second one whose write goes
    through is the one that counts, whatever came of the first: the files
    are as if the first store had not been made, and a look-up within
    [cache_duration] of the second store returns the second payload, however
    old the first. *)
Theorem cache_last_write_wins (disk1 disk2 : string -> CacheStore.writing)
    (self : APIOptimizer) (content ty : string)
    (v1 v2 : json) (fs : gmap string file) (t1 t2 looked_up : Z) :
  CacheStore.has_nul (path_of self content ty) = false ->
  disk2 (path_of self content ty) = CacheStore.Written ->
  looked_up - t2 <= cache_duration self ->
  let fs2 := CacheStore.cache_result md5_hexdigest disk2 self t2 content v2 ty
               (CacheStore.cache_result md5_hexdigest disk1 self t1 content v1
                  ty fs) in
  get_cached_result md5_hexdigest self looked_up content ty fs2 = (v2, fs2)
  /\ fs2 = CacheStore.cache_result md5_hexdigest disk2 self t2 content v2 ty fs.
Proof.
  intros Hnul Hdisk Hage fs2. subst fs2.
  unfold CacheStore.cache_result. cbv zeta. rewrite Hnul, Hdisk. split.
  - unfold get_cached_result, cache_result at 1. rewrite lookup_insert_eq.
    destruct (Z.gtb_spec (looked_up - t2) (cache_duration self)); [lia | done].
  - unfold cache_result.
    destruct (disk1 _); [apply insert_insert_eq | done | apply insert_insert_eq].
Qed.

End CacheMoreFacts.

(** ** The fallback decision *)

Section FallbackFacts.

Import Cache Fallback.

Lemma starts_with_spec (n h : string) :
  starts_with n h = true <-> exists post, h = n +:+ post.
Proof.
  revert h. induction n as [|c n IH]; intros h; simpl.
  - split; [intros _; exists h; reflexivity | done].
  - destruct h as [|d h];
      [split; [done | intros [post Hp]; rewrite append_cons in Hp; done]|].
    destruct (Ascii.eqb_spec c d) as [->|Hne]; simpl.
    + rewrite IH. split; intros [post Hp]; exists post.
      * rewrite append_cons. by rewrite Hp.
      * rewrite append_cons in Hp. by injection Hp.
    + split; [done|]. intros [post Hp]. rewrite append_cons in Hp.
      injection Hp as -> _. done.
Qed.

Lemma contains_spec (n h : string) :
  contains n h = true <-> exists pre post, h = pre +:+ n +:+ post.
Proof.
  induction h as [|d h IH]; simpl.
  - destruct (starts_with n "") eqn:Hp.
    + split; [intros _|done]. apply starts_with_spec in Hp as [post Hp].
      by exists "", post.
    + split; [done|]. intros (pre & post & Heq).
      destruct pre as [|c pre]; [|by rewrite append_cons in Heq].
      assert (starts_with n "" = true) by (apply starts_with_spec; eauto).
      congruence.
  - destruct (starts_with n (String d h)) eqn:Hp.
    + split; [intros _|done]. apply starts_with_spec in Hp as [post Hp].
      by exists "", post.
    + rewrite IH. split.
      * intros (pre & post & ->). exists (String d pre), post.
        by rewrite append_cons.
      * intros (pre & post & Heq). destruct pre as [|c pre].
        -- assert (starts_with n (String d h) = true)
             by (apply starts_with_spec; eauto).
           congruence.
        -- rewrite append_cons in Heq. injection Heq as _ ->. eauto.
Qed.

Lemma contains_part (a b h : string) :
  contains (a +:+ b) h = true -> contains b h = true.
Proof.
  rewrite !contains_spec. intros (pre & post & ->).
  exists (pre +:+ a), post. by rewrite !append_assoc.
Qed.

Lemma lower_length (s : string) : String.length (lower s) = String.length s.
Proof. induction s as [|c s IH]; simpl; [done | by rewrite IH]. Qed.

Lemma count_two (P : string -> Prop) `{!forall s, Decision (P s)}
    (l1 l2 l3 : list string) (a b : string) :
  P a -> P b ->
  (2 <= length (filter P (l1 ++ a :: l2 ++ b :: l3)))%nat.
Proof.
  intros Ha Hb. rewrite filter_app, filter_cons_True by done.
  rewrite filter_app, filter_cons_True by done.
  rewrite length_app. simpl. rewrite length_app. simpl. lia.
Qed.

(** X9.  For [min_call_interval] after [record_api_call],
    [should_use_fallback] answers yes for every email. *)
Theorem fallback_right_after_api_call (self : APIOptimizer)
    (called current_time : Z) (email_content : string) :
  current_time - called < min_call_interval self ->
  should_use_fallback (record_api_call self called) current_time email_content
  = true.
Proof.
  intros H. unfold should_use_fallback. simpl.
  destruct (Z.ltb_spec (current_time - called) (min_call_interval self));
    [done | lia].
Qed.

(** X10.  For texts whose characters are below code point 256, which is
    what a [string] holds here and where [str.lower] maps character to
    character, [should_use_fallback] does not look at the case of letters:
    two such emails that are equal once lower-cased get the same answer. *)
Theorem fallback_ignores_case (self : APIOptimizer) (current_time : Z)
    (c1 c2 : string) :
  lower c1 = lower c2 ->
  should_use_fallback self current_time c1
  = should_use_fallback self current_time c2.
Proof.
  intros H. unfold should_use_fallback.
  rewrite <- (lower_length c1), <- (lower_length c2), H. reflexivity.
Qed.

(** X11.  An email that holds, in any case of letters, one of the negative
    phrases, or one of the phrases [schedule demo] and [book demo] (each of
    which counts for two strong signals, holding [demo]), gets the answer
    yes at any time. *)
Theorem fallback_on_clear_signals (self : APIOptimizer) (current_time : Z)
    (email_content : string) :
  (exists signal,
      signal ∈ negative_signals ++ ["schedule demo"; "book demo"]
      /\ contains signal (lower email_content) = true) ->
  should_use_fallback self current_time email_content = true.
Proof.
  intros (signal & Hin & Hc). unfold should_use_fallback.
  destruct (_ <? _); [done|]. destruct (_ <? _); [done|].
  apply elem_of_app in Hin as [Hneg|Hdemo].
  - destruct (_ >=? 2); [done|].
    assert (He : existsb (fun s => contains s (lower email_content))
                   negative_signals = true); [|by rewrite He].
    apply existsb_exists. exists signal. split; [|done].
    by apply list_elem_of_In.
  - assert (Hd : contains "demo" (lower email_content) = true).
    { apply elem_of_cons in Hdemo as [->|Hdemo].
      - by apply (contains_part "schedule " "demo").
      - apply list_elem_of_singleton in Hdemo as ->.
        by apply (contains_part "book " "demo"). }
    assert (Hcount : 2 <= count_signals strong_signals (lower email_content)).
    { unfold count_signals.
      apply elem_of_cons in Hdemo as [->|Hdemo].
      - pose proof (count_two
          (fun s => contains s (lower email_content) = true)
          ["budget approved"]
          ["asap"; "urgent"; "help us"; "need replacement"; "this week";
           "crashing"; "losing productivity"]
          ["book demo"] "demo" "schedule demo" Hd Hc) as H2.
        unfold strong_signals. simpl in H2 |- *. lia.
      - apply list_elem_of_singleton in Hdemo as ->.
        pose proof (count_two
          (fun s => contains s (lower email_content) = true)
          ["budget approved"]
          ["asap"; "urgent"; "help us"; "need replacement"; "this week";
           "crashing"; "losing productivity"; "schedule demo"]
          [] "demo" "book demo" Hd Hc) as H2.
        unfold strong_signals. simpl in H2 |- *. lia. }
    destruct (Z.geb_spec (count_signals strong_signals (lower email_content)) 2);
      [done | lia].
Qed.

End FallbackFacts.

Lemma cache_types_do_not_collide_witness :
  let disk := fun _ : string => CacheStore.Written in
  (Cache.get_cached_result Examples.toy_hash Cache.api_optimizer 5 "hello"
     "email_validation_ai"
     (CacheStore.cache_result Examples.toy_hash disk Cache.api_optimizer 1
        "hello" (JStr "fine") "sentiment_ai" ∅)).1
  = JNull.
Proof.
  intros disk.
  destruct (cache_types_do_not_collide Examples.toy_hash disk
              Cache.api_optimizer "hello" "sentiment_ai" "email_validation_ai"
              (JStr "fine") ∅ 1 5 ltac:(discriminate) eq_refl eq_refl eq_refl)
    as (_ & Hget & _).
  rewrite Hget. reflexivity.
Defined.

Lemma cache_last_write_wins_witness :
  let failing := fun _ : string => CacheStore.DumpRaises in
  let disk := fun _ : string => CacheStore.Written in
  (Cache.get_cached_result Examples.toy_hash Cache.api_optimizer 9 "hello"
     "sentiment_ai"
     (CacheStore.cache_result Examples.toy_hash disk Cache.api_optimizer 8
        "hello" (JStr "new") "sentiment_ai"
        (CacheStore.cache_result Examples.toy_hash failing Cache.api_optimizer
           1 "hello" (JStr "old") "sentiment_ai" ∅))).1
  = JStr "new".
Proof.
  intros failing disk.
  destruct (cache_last_write_wins Examples.toy_hash failing disk
              Cache.api_optimizer "hello" "sentiment_ai" (JStr "old")
              (JStr "new") ∅ 1 8 9 eq_refl eq_refl)
    as [Hget _]; [vm_compute; discriminate|].
  rewrite Hget. reflexivity.
Defined.

Lemma fallback_right_after_api_call_witness :
  Fallback.should_use_fallback
    (Cache.record_api_call Cache.api_optimizer 10000000) 11500000
    "A long message that carries no signal at all, sixty characters."
  = true.
Proof.
  apply fallback_right_after_api_call. vm_compute. reflexivity.
Defined.

Lemma fallback_ignores_case_witness :
  Fallback.should_use_fallback Cache.api_optimizer 5000000 "URGENT: Demo"
  = Fallback.should_use_fallback Cache.api_optimizer 5000000 "urgent: demo".
Proof.
  apply fallback_ignores_case. reflexivity.
Defined.

Lemma fallback_on_clear_signals_witness :
  Fallback.should_use_fallback Cache.api_optimizer 5000000
    "Could we Book Demo slots for the whole team of sixty somewhere in May?"
  = true.
Proof.
  apply fallback_on_clear_signals. exists "book demo". split.
  - apply elem_of_app. right. apply elem_of_cons. right. apply elem_of_cons.
    by left.
  - vm_compute. reflexivity.
Defined.

(** ** The provider router: further properties *)

Section RouterMoreFacts.

Import Router RouterMore.

Context {W Opts : Type}.

Abbreviation provider := (BaseProvider W Opts).
Abbreviation attempt := (BaseProvider W Opts * outcome)%type.

(** X12.  Constructing a router fails exactly on an empty list of
    providers, an empty list given explicitly included (discovery is not
    tried then); a router that is constructed holds as many providers as
    were given, at least one. *)
Theorem router_construction (providers_arg : option (list provider))
    (discovered : list provider) :
  (provider_list providers_arg discovered = [] ->
   exists msg, LLMRouter_init providers_arg discovered = InitRuntimeError msg)
  /\ (forall r, LLMRouter_init providers_arg discovered = Constructed r ->
                providers r <> []
                /\ length (providers r)
                   = length (provider_list providers_arg discovered))
  /\ (providers_arg = Some [] ->
      exists msg, LLMRouter_init providers_arg discovered = InitRuntimeError msg).
Proof.
  assert (Hempty : provider_list providers_arg discovered = [] ->
    exists msg, LLMRouter_init providers_arg discovered = InitRuntimeError msg).
  { unfold LLMRouter_init, provider_list.
    destruct providers_arg as [l|]; intros ->; by eexists. }
  split; [exact Hempty|]. split.
  - intros r. unfold LLMRouter_init. fold (provider_list providers_arg discovered).
    destruct (provider_list providers_arg discovered) as [|p l] eqn:Hl;
      [discriminate|].
    intros [= <-]. simpl.
    pose proof (sorted_perm (p :: l)) as Hperm. split.
    + intros Hnil. simpl in Hnil, Hperm. rewrite Hnil in Hperm.
      symmetry in Hperm. by apply Permutation_nil_cons in Hperm.
    + symmetry. by apply Permutation_length in Hperm.
  - intros ->. by apply Hempty.
Qed.




End RouterMoreFacts.

Lemma router_construction_witness :
  exists msg,
    Router.LLMRouter_init (Some []) [Examples.healthy (Opts := unit)]
    = Router.InitRuntimeError msg.
Proof.
  apply (router_construction (Some []) [Examples.healthy]). reflexivity.
Defined.



(** ** The Groq provider *)

Section GroqFacts.

Import Router Groq.

Import RateLimiter.

Variable python_text : failure -> string.
Variable depth : nat.

Lemma daily_full_check now st :
  date now <= date (last_reset st) ->
  calls_per_day st <= daily_calls st ->
  can_make_call now st = (Checked false (MsgDailyLimit (calls_per_day st)), st).
Proof.
  intros Hday Hfull. unfold can_make_call.
  destruct (Z.gtb_spec (date now) (date (last_reset st))); [lia|].
  destruct (Z.geb_spec (daily_calls st) (calls_per_day st)); [done | lia].
Qed.


(** X16.  With Groq as the only provider and a response of status 400 or
    more, [LLMRouter.complete] raises: after one sleep of [retry_delay] when
    the status is 429 or at least 500, and with no sleep, the message
    carrying the status and the first 200 characters of the response, for
    the other statuses. *)
Theorem groq_router_backoff (self : GroqProvider) (prompt : string)
    (opts : Analysis.options) (retry_delay : Z) (w : Groq.world)
    (status_code : Z) (text : string) (body : option json) :
  0 <= retry_delay ->
  (wait_if_needed depth (limits w)).1 = Ret true ->
  network w (length (sent w)) = Response status_code text body ->
  400 <= status_code ->
  let r := {| providers := [as_provider python_text depth self] |} in
  let out := Router.complete r prompt opts retry_delay w in
  (status_code = 429 \/ 500 <= status_code ->
   sleeps out = [retry_delay]
   /\ exists exc, Router.result out = RaiseRuntimeError ("groq: " +:+ exc))
  /\ (status_code <> 429 -> status_code < 500 ->
      sleeps out = []
      /\ Router.result out
         = RaiseRuntimeError
             ("groq: Groq request failed (" +:+ pretty status_code +:+ "): "
              +:+ String.substring 0 200 text)).
Proof.
  intros Hd Hadmit Hreply Hstatus r out. subst out r.
  unfold Router.complete. simpl. unfold complete.
  destruct (wait_if_needed depth (limits w)) as [res lw]. simpl in Hadmit.
  subst res. rewrite Hreply. unfold classify.
  assert (Hneg : (retry_delay <? 0) = false) by lia.
  split.
  - intros Hs. destruct (Z.eqb_spec status_code 429) as [->|Hne]; simpl.
    + rewrite Hneg. simpl. split; [done | by eexists].
    + destruct (Z.geb_spec status_code 500); [|lia]. simpl.
      rewrite Hneg. simpl. split; [done | by eexists].
  - intros Hne Hlt. destruct (Z.eqb_spec status_code 429); [done|].
    destruct (Z.geb_spec status_code 500); [lia|].
    destruct (Z.geb_spec status_code 400); [|lia]. simpl. done.
Qed.

(** X17.  With Groq as the only provider and the daily quota of the
    limiter used up, [LLMRouter.complete] raises the limiter's message under
    the provider's name, having sent no request, recorded no call and slept
    not at all: the limiter's exception is not a rate-limit error for the
    router. *)
Theorem groq_router_quota_exhausted (self : GroqProvider) (prompt : string)
    (opts : Analysis.options) (retry_delay : Z) (w : Groq.world) (d : nat) :
  depth = S d ->
  let lw := limits w in
  date (next_time lw) <= date (last_reset (limiter lw)) ->
  calls_per_day (limiter lw) <= daily_calls (limiter lw) ->
  let r := {| providers := [as_provider python_text depth self] |} in
  let out := Router.complete r prompt opts retry_delay w in
  Router.result out
  = RaiseRuntimeError
      ("groq: Rate limit exceeded: Daily limit reached ("
       +:+ pretty (calls_per_day (limiter lw)) +:+ " calls)")
  /\ sleeps out = []
  /\ sent (Router.world out) = sent w
  /\ recorded (limits (Router.world out)) = recorded lw.
Proof.
  intros -> lw Hday Hfull r out. subst out r lw.
  unfold Router.complete. simpl. unfold complete.
  rewrite (wait_step_daily d (limits w) _ _ (daily_full_check _ _ Hday Hfull)).
  simpl. done.
Qed.

(** X18.  [LLMRouter()] fails when [GROQ_API_KEY] is not set or empty, and
    otherwise holds the one provider, Groq with that key and the model of
    [GROQ_MODEL] or the default one. *)
Theorem default_router_discovery (groq_api_key groq_model api_base : option string) :
  (Analysis.env_true groq_api_key = false ->
   exists msg,
     default_router python_text depth groq_api_key groq_model api_base
     = InitRuntimeError msg)
  /\ (Analysis.env_true groq_api_key = true ->
      exists key self,
        groq_api_key = Some key
        /\ api_key self = key
        /\ model self = getenv_or "llama-3.1-8b-instant" groq_model
        /\ default_router python_text depth groq_api_key groq_model api_base
           = Constructed {| providers := [as_provider python_text depth self] |}).
Proof.
  unfold default_router, _discover_providers. split; intros Hkey; rewrite Hkey.
  - by eexists.
  - destruct groq_api_key as [key|]; [|discriminate].
    exists key, (Groq.init key (getenv_or "llama-3.1-8b-instant" groq_model) api_base).
    by repeat split.
Qed.

End GroqFacts.

Lemma groq_router_backoff_witness :
  let r := {| Router.providers :=
                [Groq.as_provider Examples.no_text 3 Examples.groq_llama] |} in
  Router.sleeps
    (Router.complete r "hello" Analysis.analyze_options 2000000
       Examples.throttled)
  = [2000000].
Proof.
  intros r.
  destruct (groq_router_backoff Examples.no_text 3 Examples.groq_llama "hello"
              Analysis.analyze_options 2000000 Examples.throttled 429
              "slow down" None) as [Hlimited _];
    [lia | reflexivity | reflexivity | lia |].
  destruct Hlimited as [Hs _]; [by left | exact Hs].
Defined.

Lemma groq_router_quota_exhausted_witness :
  let r := {| Router.providers :=
                [Groq.as_provider Examples.no_text 3 Examples.groq_llama] |} in
  Router.result
    (Router.complete r "hello" Analysis.analyze_options 2000000
       Examples.out_of_quota)
  = Router.RaiseRuntimeError
      "groq: Rate limit exceeded: Daily limit reached (2 calls)".
Proof.
  intros r. subst r.
  destruct (groq_router_quota_exhausted Examples.no_text 3 Examples.groq_llama
              "hello" Analysis.analyze_options 2000000 Examples.out_of_quota 2)
    as [Hres _]; [reflexivity | vm_compute; discriminate
                  | vm_compute; discriminate |].
  rewrite Hres. vm_compute. reflexivity.
Defined.

Lemma default_router_discovery_witness :
  exists msg,
    Groq.default_router Examples.no_text 3 (Some "") None None
    = Router.InitRuntimeError msg.
Proof.
  apply (default_router_discovery Examples.no_text 3 (Some "") None None).
  reflexivity.
Defined.

(** ** More of the analysis service *)

Section AnalysisMoreFacts.

Import Router Cache Analysis AnalysisMore.
Context {W : Type}.
Variable md5_hexdigest : string -> string.
Variable json_dumps : json -> string.

Lemma formatted_data_truthy fields : truthy (formatted_data fields) = true.
Proof. reflexivity. Qed.



(** X20.  A request that fails leaves nothing behind.  When [analyze] does
    not return a result, no API call is recorded, no cache store is made,
    and every file is as it was, except that the look-up may have removed the
    request's own entry. *)
Theorem analyze_failure_leaves_cache (router : LLMRouter W options)
    (email_content subject sender_email : string) (w : Analysis.world W)
    (res : analysis) (w' : Analysis.world W) :
  analyze md5_hexdigest json_dumps router email_content subject sender_email w
  = (res, w') ->
  (forall r, res <> Analysed r) ->
  optimizer w' = optimizer w
  /\ filter is_store (cache_ops w') = filter is_store (cache_ops w)
  /\ (forall path,
        path <> entry_path md5_hexdigest json_dumps w email_content subject
                  sender_email ->
        files w' !! path = files w !! path)
  /\ (files w' !! entry_path md5_hexdigest json_dumps w email_content subject
                    sender_email
      = files w !! entry_path md5_hexdigest json_dumps w email_content subject
                     sender_email
      \/ files w' !! entry_path md5_hexdigest json_dumps w email_content subject
                       sender_email = None).
Proof.
  intros Hrun Hfail.
  assert (Hremote : forall w0 res0 w0',
    analyze_remote md5_hexdigest json_dumps router email_content subject
      sender_email w0 = (res0, w0') ->
    (forall r, res0 <> Analysed r) ->
    optimizer w0' = optimizer w0 /\ cache_ops w0' = cache_ops w0
    /\ files w0' = files w0).
  { intros w0 res0 w0' H0 Hne. unfold analyze_remote in H0. cbv zeta in H0.
    destruct (result _) as [v|msg|].
    - destruct v; injection H0 as <- <-; try done. by destruct (Hne _ eq_refl).
    - by injection H0 as <- <-.
    - by injection H0 as <- <-. }
  unfold analyze in Hrun.
  destruct (env_true (DISABLE_CACHE w)); simpl in Hrun.
  - apply Hremote in Hrun as (-> & -> & ->); [|exact Hfail]. auto.
  - destruct (lookup md5_hexdigest _ "sentiment_ai" w) as [cached w1] eqn:Hl.
    unfold lookup, get_cached_result in Hl. cbv zeta in Hl.
    fold (entry_path md5_hexdigest json_dumps w email_content subject
            sender_email) in Hl.
    destruct (truthy cached).
    { injection Hrun as <- <-. by destruct (Hfail _ eq_refl). }
    apply Hremote in Hrun as (-> & -> & ->); [|exact Hfail].
    destruct (files w !! entry_path _ _ w _ _ _) as [[ts v len|]|] eqn:Hf;
      simpl in Hl; [destruct (_ >? _)|..]; injection Hl as <- <-; simpl;
      rewrite ?filter_app, ?Hf; simpl; rewrite ?app_nil_r;
      repeat split; auto.
    + intros path Hp. by rewrite lookup_delete_ne.
    + right. apply lookup_delete_eq.
Qed.

End AnalysisMoreFacts.


Lemma analyze_failure_leaves_cache_witness :
  let out :=
    Analysis.analyze Examples.toy_hash Examples.toy_dumps Examples.all_failing
      "Please send a quote" "Quote" "a@b.c" Examples.cache_on in
  out.1 = Analysis.RaisedRuntimeError
            "spare: Groq request failed (401): denied"
  /\ Analysis.optimizer out.2 = Cache.api_optimizer
  /\ filter AnalysisMore.is_store (Analysis.cache_ops out.2) = [].
Proof.
  intros out. destruct out as [res w'] eqn:Hout. subst out.
  assert (Hr : res = Analysis.RaisedRuntimeError
            "spare: Groq request failed (401): denied").
  { apply (f_equal fst) in Hout. vm_compute in Hout. by subst res. }
  split; [exact Hr|].
  destruct (analyze_failure_leaves_cache Examples.toy_hash Examples.toy_dumps
              Examples.all_failing "Please send a quote" "Quote" "a@b.c"
              Examples.cache_on res w' Hout)
    as (Ho & Hops & _).
  - rewrite Hr. discriminate.
  - split; [exact Ho | exact Hops].
Defined.

(** ** More of the response normalizer *)

Section NormalizerMoreFacts.

Import Text Normalizer NormalizerMore.

Lemma has_brace_app l1 l2 :
  has_brace (l1 ++ l2) = has_brace l1 || has_brace l2.
Proof. apply existsb_app. Qed.

Lemma has_brace_suffix l1 l :
  l1 `suffix_of` l -> has_brace l1 = true -> has_brace l = true.
Proof.
  intros [pre ->] H. rewrite has_brace_app, H. apply orb_true_r.
Qed.

(** A match goes on with what is left of the text. *)
Lemma rmatch_suffix {A} (r : regex) :
  forall l cap (k : list ascii -> list ascii -> option A) x,
    rmatch r l cap k = Some x ->
    exists l1 cap1, k l1 cap1 = Some x /\ l1 `suffix_of` l.
Proof.
  induction r as [|c| | | |r1 IH1 r2 IH2|r1 IH1|r1 IH1|r1 IH1];
    intros l cap k x Hm; simpl in Hm.
  - by exists l, cap.
  - destruct l as [|d l']; [discriminate|].
    destruct (is_char c d); [|discriminate].
    exists l', cap. split; [done | by apply suffix_cons_r].
  - destruct l as [|d l']; [discriminate|].
    exists l', cap. split; [done | by apply suffix_cons_r].
  - destruct l as [|d l']; [discriminate|].
    destruct (is_space d); [|discriminate].
    exists l', cap. split; [done | by apply suffix_cons_r].
  - destruct l as [|d l']; [discriminate|].
    destruct (not_brace d); [|discriminate].
    exists l', cap. split; [done | by apply suffix_cons_r].
  - apply IH1 in Hm as (l1 & cap1 & Hm & Hs1).
    apply IH2 in Hm as (l2 & cap2 & Hm & Hs2).
    exists l2, cap2. split; [exact Hm | by etrans].
  - revert Hm. generalize (length l) at 1. intros n. revert l cap.
    induction n as [|n IHn]; intros l cap Hm.
    + by exists l, cap.
    + apply first_of_some in Hm as [Hm|Hm].
      * apply IH1 in Hm as (l1 & cap1 & Hm & Hs1).
        destruct (shorter l1 l); [|discriminate].
        apply IHn in Hm as (l2 & cap2 & Hm & Hs2).
        exists l2, cap2. split; [exact Hm | by etrans].
      * by exists l, cap.
  - revert Hm. generalize (length l) at 1. intros n. revert l cap.
    induction n as [|n IHn]; intros l cap Hm.
    + apply first_of_some in Hm as [Hm|Hm]; [|discriminate].
      by exists l, cap.
    + apply first_of_some in Hm as [Hm|Hm].
      * by exists l, cap.
      * apply IH1 in Hm as (l1 & cap1 & Hm & Hs1).
        destruct (shorter l1 l); [|discriminate].
        apply IHn in Hm as (l2 & cap2 & Hm & Hs2).
        exists l2, cap2. split; [exact Hm | by etrans].
  - apply IH1 in Hm as (l1 & cap1 & Hm & Hs1).
    by eexists l1, _.
Qed.

Lemma group_needs_brace r1 : needs_brace (Group (Cat (Chr "{") r1)).
Proof.
  intros A l cap k x Hm. cbn [rmatch] in Hm.
  destruct l as [|d l']; [discriminate|].
  destruct (is_char "{" d) eqn:Hd; [|discriminate].
  unfold has_brace. cbn [existsb]. by rewrite Hd.
Qed.

Lemma cat_needs_brace_l r1 r2 : needs_brace r1 -> needs_brace (Cat r1 r2).
Proof. intros H1 A l cap k x Hm. simpl in Hm. by apply H1 in Hm. Qed.

Lemma cat_needs_brace_r r1 r2 : needs_brace r2 -> needs_brace (Cat r1 r2).
Proof.
  intros H2 A l cap k x Hm. simpl in Hm.
  apply rmatch_suffix in Hm as (l1 & cap1 & Hm & Hs).
  apply H2 in Hm. by apply has_brace_suffix with l1.
Qed.

Lemma fenced_patterns_need_brace : Forall needs_brace fenced_patterns.
Proof.
  unfold fenced_patterns. repeat constructor.
  - apply cat_needs_brace_r, cat_needs_brace_r, cat_needs_brace_l.
    apply group_needs_brace.
  - apply cat_needs_brace_r, cat_needs_brace_r, cat_needs_brace_l.
    apply group_needs_brace.
  - apply group_needs_brace.
Qed.

Lemma findall_from_no_brace r n :
  needs_brace r ->
  forall l, has_brace l = false -> findall_from n r l = [].
Proof.
  intros Hr. induction n as [|n IH]; intros l Hl; simpl; [reflexivity|].
  destruct (rmatch r l [] _) as [[rest cap]|] eqn:Hm.
  - apply Hr in Hm. congruence.
  - destruct l as [|c l']; [reflexivity|]. apply IH.
    unfold has_brace in *. simpl in Hl. by apply orb_false_elim in Hl as [_ ?].
Qed.

Lemma first_recovered_no_brace patterns content :
  Forall needs_brace patterns ->
  has_brace (chars content) = false ->
  first_recovered patterns content = None.
Proof.
  intros Hall Hc. induction Hall as [|r rest Hr Hrest IH]; simpl; [reflexivity|].
  unfold findall. rewrite findall_from_no_brace by done. simpl. exact IH.
Qed.

Lemma has_brace_drop_while p l :
  has_brace l = false -> has_brace (drop_while p l) = false.
Proof.
  induction l as [|c l IH]; simpl; [done|].
  intros H. destruct (p c); [|exact H].
  apply IH. unfold has_brace in H. simpl in H.
  by apply orb_false_elim in H as [_ ?].
Qed.

Lemma has_brace_rev l : has_brace (rev l) = has_brace l.
Proof.
  induction l as [|c l IH]; simpl; [done|].
  rewrite has_brace_app, IH. unfold has_brace at 2 3. simpl.
  rewrite orb_false_r. apply orb_comm.
Qed.

Lemma has_brace_strip s :
  has_brace (chars s) = false -> has_brace (chars (strip s)) = false.
Proof.
  intros H. unfold strip, strip_chars. rewrite chars_text, has_brace_rev.
  apply has_brace_drop_while. rewrite has_brace_rev.
  by apply has_brace_drop_while.
Qed.

(** X21.  Without an opening brace nothing is recovered.  For a text
    that is not empty, has no opening brace and, stripped, is not JSON,
    [_extract_json] returns the mapping of the fall-back: the stripped text
    under ["response"], and the error ["Could not parse as JSON"].  The text
    is to have no opening bracket and at most 4300 characters: [json.loads]
    then neither nests nor reads a number of more than 4300 digits, so that
    it ends in the [JSONDecodeError] the function catches, which is what
    [None] stands for, and not in [RecursionError] or [ValueError]. *)
Theorem extract_json_without_brace (content : string) :
  content <> "" ->
  has_brace (chars content) = false ->
  has_bracket (chars content) = false ->
  (String.length content <= 4300)%nat ->
  json_loads (strip content) = None ->
  _extract_json content
  = JObj [("response", JStr (strip content));
          ("error", JStr "Could not parse as JSON")].
Proof.
  intros Hne Hb _ _ Hl. unfold _extract_json.
  destruct (String.eqb content "") eqn:He.
  { apply String.eqb_eq in He. done. }
  rewrite Hl, first_recovered_no_brace; [reflexivity | |].
  - apply fenced_patterns_need_brace.
  - by apply has_brace_strip.
Qed.

Lemma drop_while_all p l : forallb p l = true -> drop_while p l = [].
Proof.
  induction l as [|c l IH]; simpl; [done|].
  intros [Hc Hl]%andb_prop. rewrite Hc. auto.
Qed.

Lemma strip_blank s : forallb is_space (chars s) = true -> strip s = "".
Proof.
  intros H. unfold strip, strip_chars. rewrite (drop_while_all is_space (chars s)) by done. reflexivity.
Qed.

(** X22.  A text of white space only is not the empty response.  For a
    text that is not empty and holds only white space, [_extract_json]
    returns the fall-back for text that is not JSON, with the empty text
    under ["response"], and not the error of the empty response. *)
Theorem extract_json_blank (content : string) :
  content <> "" ->
  forallb is_space (chars content) = true ->
  _extract_json content
  = JObj [("response", JStr ""); ("error", JStr "Could not parse as JSON")].
Proof.
  intros Hne Hblank. unfold _extract_json.
  destruct (String.eqb content "") eqn:He.
  { apply String.eqb_eq in He. done. }
  rewrite strip_blank by done. reflexivity.
Qed.

End NormalizerMoreFacts.

Lemma extract_json_without_brace_witness :
  Normalizer._extract_json "  Sorry, I cannot help. "
  = JObj [("response", JStr "Sorry, I cannot help.");
          ("error", JStr "Could not parse as JSON")].
Proof.
  apply (extract_json_without_brace "  Sorry, I cannot help. ");
    [discriminate | reflexivity | reflexivity | simpl; lia | reflexivity].
Defined.

Lemma extract_json_blank_witness :
  Normalizer._extract_json "   "
  = JObj [("response", JStr ""); ("error", JStr "Could not parse as JSON")].
Proof.
  apply (extract_json_blank "   "); [discriminate | reflexivity].
Defined.

(** ** The local tools *)

Section KeywordFacts.

Import Fallback Keywords.

Lemma any_found words text :
  any words text = match found words text with [] => false | _ => true end.
Proof.
  unfold any, found. induction words as [|w words IH]; simpl; [done|].
  destruct (contains w text); simpl; [done | exact IH].
Qed.

Lemma count_pos words text : (count words text >? 0) = any words text.
Proof.
  rewrite any_found. unfold count.
  destruct (found words text) as [|w l]; [reflexivity|].
  rewrite Z.gtb_ltb. apply Z.ltb_lt. simpl. lia.
Qed.

Lemma count_nonneg words text : 0 <= count words text.
Proof. unfold count. lia. Qed.

Lemma found_app w1 w2 text : found (w1 ++ w2) text = found w1 text ++ found w2 text.
Proof. apply List.filter_app. Qed.

Lemma found_contains words text w :
  In w (found words text) -> contains w text = true.
Proof. unfold found. by intros [_ ?]%List.filter_In. Qed.

End KeywordFacts.

Section UrgencyFacts.

Import Fallback Keywords UrgencyDetectionTool.

Lemma scan_spec (adjust : Z -> Z) text :
  (forall s, adjust (adjust s) = adjust s) ->
  forall phrases score detected,
    scan phrases text adjust score detected
    = (if any phrases text then adjust score else score,
       detected ++ found phrases text).
Proof.
  intros Hidem. induction phrases as [|p phrases IH]; intros score detected.
  - simpl. by rewrite app_nil_r.
  - cbn [scan any found existsb List.filter].
    destruct (contains p text); simpl.
    + rewrite IH. fold (any phrases text). fold (found phrases text).
      destruct (any phrases text); by rewrite ?Hidem, <- app_assoc.
    + apply IH.
Qed.

(** X23.  The urgency level by the phrases found.  [_run] lists the phrases
    found, the high ones first; it rates a text ["high"] exactly when a
    high-urgency phrase is in it and no low-urgency one, and ["low"] exactly
    when a low-urgency phrase is in it together with a high or medium one: a
    text whose only phrases are low-urgency ones is rated 35, ["medium"]. *)
Theorem urgency_level_by_phrases (email_content sender_email subject : string) :
  let text := lower (subject +:+ " " +:+ email_content) in
  let r := _run email_content sender_email subject in
  let high := any urgency_high text in
  let medium := any urgency_medium text in
  let low := any urgency_low text in
  detected_phrases r
  = found urgency_high text ++ found urgency_medium text
    ++ found urgency_low text
  /\ urgency_score r
     = (if low then (if high || medium then 20 else 35)
        else if high then 80 else if medium then 50 else 35)
  /\ (urgency_level r = "high" <-> high = true /\ low = false)
  /\ (urgency_level r = "low" <-> low = true /\ high || medium = true).
Proof.
  cbv zeta. unfold _run.
  rewrite (scan_spec (fun s => Z.max s 80)) by (intros; lia).
  rewrite (scan_spec (fun s => Z.max s 50)) by (intros; lia).
  rewrite (scan_spec (fun s => Z.min s 20)) by (intros; lia).
  cbn [urgency_score detected_phrases urgency_level app].
  rewrite <- app_assoc.
  destruct (any urgency_high _), (any urgency_medium _), (any urgency_low _);
    (split; [reflexivity|]); (split; [reflexivity|]);
    vm_compute; intuition congruence.
Qed.

End UrgencyFacts.

Section LocalAnalysisFacts.

Import Fallback Keywords BasicSentimentTool.

Lemma sentiment_and_intent_range text professional pos neg urg :
  0 <= pos -> 0 <= neg ->
  0 <= (sentiment_and_intent text professional pos neg urg).2 <= 100.
Proof.
  intros Hpos Hneg. unfold sentiment_and_intent.
  destruct (professional >? 0); [simpl; lia|].
  destruct (pos >? neg).
  { destruct (_ && _); simpl; lia. }
  destruct (neg >? pos); [simpl; lia|].
  destruct (any _ text); simpl; lia.
Qed.

Lemma priority_of_levels professional intent level :
  In (priority_of professional intent level) ["high"; "medium"; "low"]
  /\ (priority_of professional intent level = "low" ->
      intent <= 40 /\ level <= 40).
Proof.
  unfold priority_of.
  destruct (professional >? 0); [split; [simpl; auto | discriminate]|].
  destruct (intent >? 70) eqn:H1; [split; [simpl; auto | discriminate]|].
  destruct (level >? 70) eqn:H2; [split; [simpl; auto | discriminate]|].
  destruct (intent >? 40) eqn:H3; [split; [simpl; auto | discriminate]|].
  destruct (level >? 40) eqn:H4; [split; [simpl; auto | discriminate]|].
  split; [simpl; auto|]. intros _.
  rewrite Z.gtb_ltb, Z.ltb_ge in H3, H4. lia.
Qed.

Lemma emotions_of_nonempty text professional pos epos eneg urg :
  emotions_of text professional pos epos eneg urg <> [].
Proof.
  unfold emotions_of. cbv zeta.
  destruct (_ ++ _) as [|e es]; discriminate.
Qed.

(** X24.  The numbers of the local analysis stay in range: the buying
    intent and the urgency level are between 0 and 100, the priority is one
    of the three levels, with ["low"] only for an intent and an urgency of at
    most 40, and there is at least one emotion. *)
Theorem local_analysis_ranges (email_content subject : string) :
  let r := _local_sentiment_analysis email_content subject in
  0 <= buying_intent r <= 100
  /\ 0 <= urgency_level r <= 100
  /\ In (priority r) ["high"; "medium"; "low"]
  /\ response_priority r = priority r
  /\ (priority r = "low" -> buying_intent r <= 40 /\ urgency_level r <= 40)
  /\ emotions r <> [].
Proof.
  cbv zeta. unfold _local_sentiment_analysis. cbv zeta.
  generalize (normalised subject email_content). intros text.
  pose proof (sentiment_and_intent_range text
                (count professional_high_priority text)
                (count business_positive text) (count business_negative text)
                (count urgency_words text)
                (count_nonneg _ _) (count_nonneg _ _)) as Hi.
  pose proof (count_nonneg urgency_words text) as Hu.
  revert Hi Hu.
  generalize (count professional_high_priority text) as professional.
  generalize (count business_positive text) as pos.
  generalize (count business_negative text) as neg.
  generalize (count urgency_words text) as urg.
  generalize (count emotional_positive text) as epos.
  generalize (count emotional_negative text) as eneg.
  intros eneg epos urg neg pos professional Hi Hu.
  destruct (sentiment_and_intent text professional pos neg urg)
    as [sentiment intent].
  cbn [buying_intent urgency_level priority response_priority emotions] in *.
  cbn [snd] in Hi.
  generalize (any ["asap"; "urgent"] text). intros asap.
  destruct (priority_of_levels professional intent
              (Z.min 100 (urg * 30 + (if asap then 50 else 0))))
    as [Hin Hlow].
  split; [exact Hi|]. split; [destruct asap; lia|].
  split; [exact Hin|]. split; [reflexivity|]. split; [exact Hlow|].
  apply emotions_of_nonempty.
Qed.

(** X25.  A professional keyword outweighs everything else.  When one
    of the professional keywords is in the text, the local analysis gives the
    sentiment ["neutral"], the buying intent 20 and the priority ["high"],
    and lists the emotion ["professional"], whatever signals of interest or
    of rejection the text has. *)
Theorem professional_keyword_overrides (email_content subject : string) :
  any professional_high_priority (normalised subject email_content) = true ->
  let r := _local_sentiment_analysis email_content subject in
  business_sentiment r = "neutral"
  /\ buying_intent r = 20
  /\ priority r = "high"
  /\ In "professional" (emotions r).
Proof.
  intros Hany. cbv zeta. unfold _local_sentiment_analysis. cbv zeta.
  revert Hany. generalize (normalised subject email_content). intros text Hany.
  rewrite <- count_pos in Hany. revert Hany.
  generalize (count professional_high_priority text) as professional.
  generalize (count business_positive text) as pos.
  generalize (count business_negative text) as neg.
  generalize (count urgency_words text) as urg.
  generalize (count emotional_positive text) as epos.
  generalize (count emotional_negative text) as eneg.
  intros eneg epos urg neg pos professional Hp.
  unfold sentiment_and_intent, priority_of, emotions_of. rewrite Hp.
  cbn [business_sentiment buying_intent priority emotions].
  repeat split.
  cbv zeta.
  assert (Hin : forall l1 l2 l3 : list string,
             In "professional" (l1 ++ l2 ++ ["professional"] ++ l3)).
  { intros. rewrite !in_app_iff. simpl. auto. }
  match goal with
  | |- In _ match ?l1 ++ ?l2 ++ _ ++ ?l3 with _ => _ end =>
      specialize (Hin l1 l2 l3);
      destruct (l1 ++ l2 ++ ["professional"] ++ l3); [destruct Hin | exact Hin]
  end.
Qed.

Lemma occurs_append c a b : occurs c (a +:+ b) = occurs c a || occurs c b.
Proof.
  induction a as [|d a IH]; [reflexivity|].
  rewrite append_cons. simpl. by rewrite IH, orb_assoc.
Qed.

Lemma occurs_replace_old old new s :
  new <> old -> occurs old (replace old new s) = false.
Proof.
  intros Hne. induction s as [|d s IH]; simpl; [done|].
  rewrite IH, orb_false_r.
  destruct (Ascii.eqb d old) eqn:Hd; apply Ascii.eqb_neq; [done|].
  by apply Ascii.eqb_neq.
Qed.

Lemma occurs_replace_other c old new s :
  c <> new -> occurs c s = false -> occurs c (replace old new s) = false.
Proof.
  intros Hne. induction s as [|d s IH]; simpl; [done|].
  intros [Hd Hs]%orb_false_elim. rewrite (IH Hs), orb_false_r.
  destruct (Ascii.eqb d old); [|exact Hd].
  apply Ascii.eqb_neq. congruence.
Qed.

Lemma normalised_has_no_separator subject email_content :
  has_separator (normalised subject email_content) = false.
Proof.
  unfold has_separator, normalised.
  rewrite (occurs_replace_other "_" "." " "), (occurs_replace_other "-" "." " "),
    (occurs_replace_old "." " "); try done.
  - apply occurs_replace_old. done.
  - apply occurs_replace_other; [done|]. apply occurs_replace_old. done.
Qed.

Lemma contains_occurs word text c :
  contains word text = true -> occurs c word = true -> occurs c text = true.
Proof.
  intros (pre & post & ->)%contains_spec Hc.
  by rewrite !occurs_append, Hc, orb_true_r.
Qed.

(** X26.  Keywords written with a separator are never found.  The text
    the keywords are looked up in has its underscores, hyphens and full stops
    replaced by spaces, so a keyword that holds one of them is in no text:
    it is never among [key_phrases] or [debug_keywords_found].  The
    keywords ["full-time"] and ["part-time"] are such. *)
Theorem keywords_with_separator_never_found
    (email_content subject word : string) :
  has_separator word = true ->
  let r := _local_sentiment_analysis email_content subject in
  contains word (normalised subject email_content) = false
  /\ ~ In word (key_phrases r)
  /\ ~ In word (debug_keywords_found r).
Proof.
  intros Hsep.
  assert (Hno : contains word (normalised subject email_content) = false).
  { destruct (contains word _) eqn:Hc; [|reflexivity].
    pose proof (normalised_has_no_separator subject email_content) as Hn.
    unfold has_separator in *.
    apply orb_false_elim in Hn as [[H1 H2]%orb_false_elim H3].
    apply orb_prop in Hsep as [[Hs|Hs]%orb_prop|Hs];
      apply (contains_occurs _ _ _ Hc) in Hs; congruence. }
  cbv zeta. split; [exact Hno|].
  unfold _local_sentiment_analysis. cbv zeta.
  destruct (sentiment_and_intent _ _ _ _ _).
  cbn [key_phrases debug_keywords_found].
  split; intros Hin%found_contains; congruence.
Qed.

End LocalAnalysisFacts.

Lemma professional_keyword_overrides_witness :
  let r :=
    BasicSentimentTool._local_sentiment_analysis
      "Not interested, we went through the options." "Re: offer" in
  BasicSentimentTool.buying_intent r = 20
  /\ BasicSentimentTool.priority r = "high".
Proof.
  intros r.
  assert (Hany : Keywords.any BasicSentimentTool.professional_high_priority
                   (BasicSentimentTool.normalised "Re: offer"
                      "Not interested, we went through the options.") = true)
    by (vm_compute; reflexivity).
  destruct (professional_keyword_overrides
              "Not interested, we went through the options." "Re: offer" Hany)
    as (_ & Hi & Hp & _).
  split; [exact Hi | exact Hp].
Defined.

Lemma keywords_with_separator_never_found_witness :
  BasicSentimentTool.has_separator "full-time" = true
  /\ Fallback.contains "full-time"
       (BasicSentimentTool.normalised "Hiring" "We offer a full-time position")
     = false.
Proof.
  assert (Hsep : BasicSentimentTool.has_separator "full-time" = true)
    by (vm_compute; reflexivity).
  split; [exact Hsep|].
  destruct (keywords_with_separator_never_found
              "We offer a full-time position" "Hiring" "full-time" Hsep)
    as (Hno & _).
  exact Hno.
Defined.

(** ** The website scores and the crew manager *)

Section WebsiteScoresFacts.

Import WebsiteScores.

Lemma sum_values_between lo hi s :
  all_between lo hi s ->
  lo * Z.of_nat (length s) <= sum_values s <= hi * Z.of_nat (length s).
Proof.
  induction 1 as [|kv s Hkv Hs IH]; simpl; [lia|].
  rewrite Nat2Z.inj_succ. lia.
Qed.

(** X27.  The overall score stays within the scores.  When every score of
    the response is a whole number between [lo] and [hi], a range that holds
    the default 75, so is [overall_score]: from 0 to 100 for scores from 0 to
    100. *)
Theorem overall_score_between (lo hi : Z) (s : scores) :
  lo <= 75 <= hi ->
  all_between lo hi s ->
  lo <= overall_score (analysis_results_of s) <= hi.
Proof.
  intros Hd Hs. unfold analysis_results_of. cbn [overall_score].
  destruct s as [|kv s']; [exact Hd|].
  apply sum_values_between in Hs.
  set (n := Z.of_nat (length (kv :: s'))) in *.
  assert (Hn : 0 < n) by (subst n; simpl; lia).
  split.
  - apply Z.div_le_lower_bound; lia.
  - apply Z.div_le_upper_bound; lia.
Qed.

End WebsiteScoresFacts.

Lemma overall_score_between_witness :
  0 <= WebsiteScores.overall_score
         (WebsiteScores.analysis_results_of [("security", 90); ("seo", 61)])
    <= 100.
Proof.
  apply (overall_score_between 0 100 [("security", 90); ("seo", 61)]);
    [lia | repeat constructor; simpl; lia].
Defined.

Section CrewManagerFacts.

Import CrewManager.

Lemma get_crew_step (w : world) :
  let out := get_crew w in
  min_interval (manager out.2) = min_interval (manager w)
  /\ constructor_returns out.2 = constructor_returns w
  /\ match out.1 with
     | Some c =>
         crew (manager out.2) = Some c
         /\ last_call_time (manager w) + min_interval (manager w)
            <= last_call_time (manager out.2)
         /\ (forall c0, crew (manager w) = Some c0 ->
                        c = c0 /\ built out.2 = built w)
         /\ (built out.2 <= S (built w))%nat
     | None =>
         manager out.2 = manager w /\ crew (manager w) = None
         /\ constructor_returns w = false /\ built out.2 = built w
     end.
Proof.
  cbv zeta. unfold get_crew. cbv zeta.
  destruct (next_time w - last_call_time (manager w) <? min_interval (manager w))
    eqn:Hlt.
  - apply Z.ltb_lt in Hlt.
    destruct (crew (manager w)) as [c|] eqn:Hc;
      [|destruct (constructor_returns w) eqn:Hr]; simpl;
      repeat split; try done; try lia; congruence.
  - apply Z.ltb_ge in Hlt.
    destruct (crew (manager w)) as [c|] eqn:Hc;
      [|destruct (constructor_returns w) eqn:Hr]; simpl;
      repeat split; try done; try lia; congruence.
Qed.

(** X28.  Calls of [get_crew] are spaced, and there is one crew.  In any
    run of calls made one after the other on a manager whose crew can be
    built, every call returns, the times the calls leave in [last_call_time]
    are at least [min_interval] apart, the first at least [min_interval]
    after the time held at the start, and every call returns the same crew,
    which is built at most once. *)
Theorem crew_calls_spaced (n : nat) (w : world) :
  constructor_returns w = true ->
  let out := calls n w in
  spaced (min_interval (manager w)) (last_call_time (manager w)) out.1
  /\ (exists c, Forall (fun r => r.1 = Some c) out.1)
  /\ (built out.2 <= S (built w))%nat.
Proof.
  intros Hret. cbv zeta.
  assert (Hgen : forall n w,
    constructor_returns w = true ->
    spaced (min_interval (manager w)) (last_call_time (manager w)) (calls n w).1
    /\ (forall c0, crew (manager w) = Some c0 ->
                   Forall (fun r => r.1 = Some c0) (calls n w).1
                   /\ built (calls n w).2 = built w)
    /\ (crew (manager w) = None ->
        (exists c, Forall (fun r => r.1 = Some c) (calls n w).1)
        /\ (built (calls n w).2 <= S (built w))%nat)).
  { clear. induction n as [|n IH]; intros w Hret.
    - simpl. split; [done|]. split; [by intros|].
      intros _. split; [by exists 0%nat | lia].
    - cbn [calls].
      pose proof (get_crew_step w) as Hstep. cbv zeta in Hstep.
      destruct (get_crew w) as [c w1]. cbn [fst snd] in Hstep.
      destruct Hstep as (Hmin & Hcr & Hc).
      destruct c as [c|]; [|destruct Hc as (_ & _ & ? & _); congruence].
      destruct Hc as (Hcrew & Hgap & Hsame & Hbuilt).
      rewrite <- Hcr in Hret.
      destruct (IH w1 Hret) as (Hsp & Hkeep & _).
      destruct (Hkeep c Hcrew) as [Hall Hb].
      destruct (calls n w1) as [rest w2]. cbn [fst snd] in *.
      rewrite Hmin in Hsp.
      split; [split; [exact Hgap | exact Hsp]|].
      split.
      + intros c0 Hc0. destruct (Hsame c0 Hc0) as [-> Hb1].
        split; [by constructor | congruence].
      + intros Hnone. split; [exists c; by constructor|].
        lia. }
  destruct (Hgen n w Hret) as (Hsp & Hsome & Hnone).
  split; [exact Hsp|].
  destruct (crew (manager w)) as [c0|] eqn:Hc.
  - destruct (Hsome c0 eq_refl) as [Hall Hb]. split; [by exists c0 | lia].
  - by apply Hnone.
Qed.

End CrewManagerFacts.

Lemma crew_calls_spaced_witness :
  let w := {| CrewManager.manager := CrewManager.new;
              CrewManager.clock := 500000;
              CrewManager.ticks := [100%N; 7%N; 1000%N];
              CrewManager.built := 0; CrewManager.constructor_returns := true;
              CrewManager.slept := [] |} in
  CrewManager.spaced 2000000 0 (CrewManager.calls 3 w).1
  /\ (CrewManager.calls 3 w).1
     = [(Some 0%nat, 2000007); (Some 0%nat, 4000007); (Some 0%nat, 6000007)].
Proof.
  intros w. split; [|vm_compute; reflexivity].
  destruct (crew_calls_spaced 3 w eq_refl) as (Hsp & _).
  exact Hsp.
Defined.
